(** * Wahapedia data-cards collector: a model of [src/scraper.py]

    The class [WebScraper] drives a browser through Selenium.  Its methods
    are embedded here as computations in a state-and-exception monad:

    - the browser, the file system calls and the clock are external; every
      call into them is answered by a [world] (an oracle indexed by the
      number of calls made so far), which says whether the call raises and
      what it returns;
    - Python lists are mutable objects: they live in a [heap] and a
      dictionary maps its keys to the locations of its lists, so that two
      dictionaries can share a list;
    - the dictionary files, the JSON files that [Utils] writes and reads,
      are a finite map [disk] from paths to dictionaries by value; the
      other files that the scraper writes (the screenshots, the extension
      that it downloads) are not in that map: writing them is an external
      call, found in the trace;
    - every external call and every printed message is appended to a
      [trace].

    Two exceptions are told apart, as the handlers of the source do: an
    [Exception] and a [KeyboardInterrupt].  The world says at which call
    the user interrupts.  The interrupt cuts that call short, or, when the
    world marks it [early], it is raised between two calls, at the
    [checkpoint] that the program passes before it reaches that call.
    Checkpoints stand in [fetch_all_cards], the operation that saves what
    remains to fetch: between the capture of a unit and its removal from
    the list, where the screenshot is taken and the unit still listed, and
    at the end of the [try] block, where all is done and [0] not yet
    returned.  In the other methods an interrupt is delivered during a
    call.  The file utils.py is not among the sources: what is used of
    [Utils] is modelled from the specification, under a comment that says
    so. *)

From Stdlib Require Import ZArith Ascii String.
From stdpp Require Import gmap strings list fin_maps pretty.

Open Scope string_scope.
Open Scope list_scope.
Open Scope Z_scope.

(** ** Strings *)

Definition slash : ascii := "/"%char.
Definition dq : string := String "034"%char "".
Definition nl : string := String "010"%char "".

(** [s.split("/")]: the list of the segments of [s] between the
    separators; it is never empty. *)
Fixpoint split (sep : ascii) (s : string) : list string :=
  match s with
  | EmptyString => [EmptyString]
  | String c r =>
      if Ascii.eqb c sep then EmptyString :: split sep r
      else match split sep r with
           | h :: t => String c h :: t
           | [] => [String c EmptyString]
           end
  end.

(** [href.split("/")[-1]] *)
Definition last_segment (href : string) : string :=
  List.last (split slash href) EmptyString.

Fixpoint has_char (c : ascii) (s : string) : bool :=
  match s with
  | EmptyString => false
  | String a r => Ascii.eqb a c || has_char c r
  end.

(** The words of the specification: [name] is the part of [href] after its
    last ['/'] (the whole of [href] when it has none). *)
Definition after_last_slash (href name : string) : Prop :=
  has_char slash name = false /\
  ((exists pre, href = pre +:+ String slash name) \/
   (has_char slash href = false /\ name = href)).

(** ** Exceptions, results and the external world *)

Inductive exn : Type :=
| PyException        (* any instance of [Exception] *)
| KeyboardInterrupt. (* a [BaseException] that is not an [Exception] *)

Inductive result (A : Type) : Type :=
| Ret (a : A)
| Raise (e : exn).
Arguments Ret {A} a.
Arguments Raise {A} e.

(** A web element: the value of its [href] attribute and the [<a>]
    elements below it. *)
#[local] Unset Elimination Schemes.
Inductive element : Type :=
| Element (href : option string) (anchors : list element).

#[local] Set Elimination Schemes.

Definition href_of (e : element) : option string :=
  match e with Element h _ => h end.
Definition anchors_of (e : element) : list element :=
  match e with Element _ a => a end.

Inductive call : Type :=
| Makedirs (path : string)
| PathExists (path : string)
| RequestsGet (url : string)
| OpenWb (path : string)
| FileWrite
| NewBrowser (args : list string)
| InstallAddon (path : string)
| DriverGet (url : string)
| WaitClickable (xpath : string)
| WaitPresence (xpath : string)
| Click
| MoveToElement
| Sleep (seconds : nat)
| FindElementsXpath (xpath : string)
| FindAnchors
| GetHref
| ExecuteScript (script : string)
| Screenshot (file : string)
| DriverQuit
| LoadJson (dir : string)
| SaveJson (path : string).

Inductive event : Type :=
| Done (c : call)
| Failed (c : call) (e : exn)
| Print (msg : string)
| PrintExn (e : exn).

(** The answers of the environment to the [n]-th external call; [early n]
    says that an interrupt held for the [n]-th call is raised at the
    checkpoint before it, if there is one. *)
Record world : Type := World {
  raises : nat -> option exn;
  early : nat -> bool;
  exists_answer : nat -> bool;
  element_answer : nat -> element;
  elements_answer : nat -> list element
}.

(** ** Program state *)

Definition loc : Type := nat.
(** A Python [dict] from strings to lists: insertion-ordered, with the
    location of each list. *)
Definition pydict : Type := list (string * loc).
(** The content of a JSON file: a dictionary by value. *)
Definition json : Type := list (string * list string).

Record state : Type := State {
  ticks : nat;
  trace : list event;
  heap : gmap loc (list string);
  disk : gmap string json;
  driver : option unit;
  check_for_cookies : bool;
  factions_names : list string;
  factions_dict : pydict
}.

Definition set_ticks (n : nat) (s : state) : state :=
  State n (trace s) (heap s) (disk s) (driver s) (check_for_cookies s)
        (factions_names s) (factions_dict s).
Definition set_trace (t : list event) (s : state) : state :=
  State (ticks s) t (heap s) (disk s) (driver s) (check_for_cookies s)
        (factions_names s) (factions_dict s).
Definition set_heap (h : gmap loc (list string)) (s : state) : state :=
  State (ticks s) (trace s) h (disk s) (driver s) (check_for_cookies s)
        (factions_names s) (factions_dict s).
Definition set_disk (d : gmap string json) (s : state) : state :=
  State (ticks s) (trace s) (heap s) d (driver s) (check_for_cookies s)
        (factions_names s) (factions_dict s).
Definition set_driver (d : option unit) (s : state) : state :=
  State (ticks s) (trace s) (heap s) (disk s) d (check_for_cookies s)
        (factions_names s) (factions_dict s).
Definition set_check_for_cookies (b : bool) (s : state) : state :=
  State (ticks s) (trace s) (heap s) (disk s) (driver s) b
        (factions_names s) (factions_dict s).
Definition set_factions_names (l : list string) (s : state) : state :=
  State (ticks s) (trace s) (heap s) (disk s) (driver s) (check_for_cookies s)
        l (factions_dict s).
Definition set_factions_dict (d : pydict) (s : state) : state :=
  State (ticks s) (trace s) (heap s) (disk s) (driver s) (check_for_cookies s)
        (factions_names s) d.

(** The state of a freshly constructed [WebScraper] ([__init__]). *)
Definition init_state (files : gmap string json) : state :=
  State 0 [] ∅ files None true [] [].

(** ** The monad *)

Definition M (A : Type) : Type := state -> result A * state.

Definition ret {A} (a : A) : M A := fun s => (Ret a, s).
Definition raise {A} (e : exn) : M A := fun s => (Raise e, s).
Definition bind {A B} (m : M A) (k : A -> M B) : M B :=
  fun s => match m s with
           | (Ret a, s') => k a s'
           | (Raise e, s') => (Raise e, s')
           end.
Definition gets {A} (f : state -> A) : M A := fun s => (Ret (f s), s).
Definition modify (f : state -> state) : M unit := fun s => (Ret tt, f s).

Notation "'let*' x ':=' m 'in' k" := (bind m (fun x => k))
  (at level 10, x name, m at level 100, k at level 200, only parsing).
Notation "m ';;;' k" := (bind m (fun _ => k))
  (at level 100, k at level 200, right associativity, only parsing).

(** [try: body  except Exception: handler].  A [KeyboardInterrupt] is not
    an [Exception] and passes through. *)
Definition except_Exception {A} (body handler : M A) : M A :=
  fun s => match body s with
           | (Raise PyException, s') => handler s'
           | r => r
           end.

(** [try: steps; return 0  except Exception: return 1], the shape of the
    methods that report success as [0] and failure as [1]. *)
Definition guarded (steps : M unit) : M Z :=
  except_Exception (bind steps (fun _ => ret 0)) (ret 1).

(** [try: body  except KeyboardInterrupt: on_interrupt
    except Exception as e: on_exception]. *)
Definition try_except {A} (body on_interrupt on_exception : M A) : M A :=
  fun s => match body s with
           | (Raise KeyboardInterrupt, s') => on_interrupt s'
           | (Raise PyException, s') => on_exception s'
           | r => r
           end.

Definition log (e : event) : M unit :=
  modify (fun s => set_trace (trace s ++ [e]) s).

Definition print (msg : string) : M unit := log (Print msg).

Section Scraper.

Variable w : world.

(** An external call: it takes the next answer of the world, is recorded in
    the trace, and raises or returns. *)
Definition external {A} (c : call) (answer : nat -> A) : M A :=
  fun s =>
    let n := ticks s in
    let s1 := set_ticks (S n) s in
    match raises w n with
    | Some e => (Raise e, set_trace (trace s1 ++ [Failed c e]) s1)
    | None => (Ret (answer n), set_trace (trace s1 ++ [Done c]) s1)
    end.

Definition external_unit (c : call) : M unit := external c (fun _ => tt).

(** A place between two calls where the interrupt held for the next call
    is raised when it is [early]: the answer of the world is used up, and
    the call is not made. *)
Definition checkpoint : M unit :=
  fun s =>
    let n := ticks s in
    match raises w n with
    | Some KeyboardInterrupt =>
        if early w n then (Raise KeyboardInterrupt, set_ticks (S n) s)
        else (Ret tt, s)
    | _ => (Ret tt, s)
    end.

(** A method call on [self.driver]: an [AttributeError] while it is [None]. *)
Definition on_driver {A} (m : M A) : M A :=
  let* d := gets driver in
  match d with
  | None => raise PyException
  | Some _ => m
  end.

(** *** Lists and dictionaries *)

Fixpoint assoc_get {V} (d : list (string * V)) (k : string) : option V :=
  match d with
  | [] => None
  | (k', v) :: r => if decide (k' = k) then Some v else assoc_get r k
  end.

(** [d[k] = v]: the value of an existing key is replaced where it stands, a
    new key goes to the end. *)
Fixpoint assoc_set {V} (k : string) (v : V) (d : list (string * V)) :
    list (string * V) :=
  match d with
  | [] => [(k, v)]
  | (k', v') :: r =>
      if decide (k' = k) then (k, v) :: r else (k', v') :: assoc_set k v r
  end.

(** [l.remove(x)]: the first occurrence goes; [None] stands for the
    [ValueError] of an absent [x]. *)
Fixpoint list_remove (x : string) (l : list string) : option (list string) :=
  match l with
  | [] => None
  | y :: r => if decide (y = x) then Some r else (y ::.) <$> list_remove x r
  end.

(** [d[k]], a [KeyError] when [k] is not a key. *)
Definition subscript (d : pydict) (k : string) : M loc :=
  match assoc_get d k with
  | Some l => ret l
  | None => raise PyException
  end.

(** The list at [l]; every location of a dictionary is in the heap, and a
    location that is not reads as the empty list. *)
Definition read_list (h : gmap loc (list string)) (l : loc) : list string :=
  default [] (h !! l).

Definition deref (l : loc) : M (list string) :=
  gets (fun s => read_list (heap s) l).

Definition store (l : loc) (v : list string) : M unit :=
  modify (fun s => set_heap (<[l := v]> (heap s)) s).

(** A new list object. *)
Definition alloc (v : list string) : M loc :=
  fun s =>
    let l := fresh (dom (heap s)) in
    (Ret l, set_heap (<[l := v]> (heap s)) s).

(** The dictionary by value, as it is serialised. *)
Definition resolve (h : gmap loc (list string)) (d : pydict) : json :=
  map (fun kl => (kl.1, read_list h kl.2)) d.

(** *** Constants of [__init__] *)

Definition output_dir : string := "./out/factions/".
Definition source_dir : string := "./out/source/".
Definition base_url : string := "https://wahapedia.ru/wh40k10ed/".
Definition factions_url : string := base_url +:+ "factions/".
Definition home_url : string :=
  "https://wahapedia.ru/wh40k10ed/the-rules/quick-start-guide/".

Definition id_xpath (id : string) : string :=
  "//*[@id=" +:+ dq +:+ id +:+ dq +:+ "]".

(** *** [Utils] *)

(** Modelled from the spec: the decorator [Utils.loading] is defined in
    utils.py, which is not among the sources.  The spec only says that
    progress messages are printed; the decorated method runs as it is
    written, its result and its exceptions pass through, and the message
    follows the result. *)
Definition loading (start success failure : string) (body : M Z) : M Z :=
  print start ;;;
  let* r := body in
  print (if r =? 0 then success else failure) ;;;
  ret r.

(** Modelled from the spec: [Utils.init_dictionary_with_keys] (utils.py):
    a dictionary with the given keys, each with a list of its own, empty
    until the units are enumerated. *)
Fixpoint init_dictionary_with_keys_from (keys : list string) (d : pydict) :
    M pydict :=
  match keys with
  | [] => ret d
  | k :: r =>
      let* l := alloc [] in
      init_dictionary_with_keys_from r (assoc_set k l d)
  end.

Definition init_dictionary_with_keys (keys : list string) : M pydict :=
  init_dictionary_with_keys_from keys [].

(** Modelled from the spec: [Utils.save_dict_to_json] (utils.py) persists
    the mapping, by value, as the JSON file of the given path. *)
Definition save_dict_to_json (d : pydict) (path : string) : M unit :=
  external_unit (SaveJson path) ;;;
  modify (fun s => set_disk (<[path := resolve (heap s) d]> (disk s)) s).

(** A JSON object read into a dictionary: a repeated key keeps its first
    position and its last value. *)
Definition json_object (items : json) : json :=
  fold_left (fun d kv => assoc_set kv.1 kv.2 d) items [].

Fixpoint alloc_dict (items : json) : M pydict :=
  match items with
  | [] => ret []
  | (k, v) :: r =>
      let* l := alloc v in
      let* d := alloc_dict r in
      ret ((k, l) :: d)
  end.

(** The file of a directory that [Utils.load_dictionary_if_exists] reads,
    if there is one. *)
Variable stored_dictionary : gmap string json -> string -> option json.

(** Modelled from the spec: [Utils.load_dictionary_if_exists] (utils.py)
    is given the directory and returns the persisted mapping, or [None]
    when there is none.  Which file of the directory holds it is the
    parameter [stored_dictionary]; the lists of the result are new
    objects. *)
Definition load_dictionary_if_exists (dir : string) : M (option pydict) :=
  external_unit (LoadJson dir) ;;;
  let* files := gets disk in
  match stored_dictionary files dir with
  | None => ret None
  | Some items =>
      let* d := alloc_dict (json_object items) in
      ret (Some d)
  end.

(** *** Methods of [WebScraper] *)

Definition ensure_dirs_exist_steps : M unit :=
  external_unit (Makedirs output_dir) ;;;
  external_unit (Makedirs source_dir).

Definition ensure_dirs_exist : M Z :=
  loading "Ensuring output directories exist..."
          "Output directories exist."
          "Failed to ensure output directories exist."
          (guarded ensure_dirs_exist_steps).

Definition ublock_url : string :=
  "https://addons.mozilla.org/firefox/downloads/latest/ublock-origin/addon-1318898-latest.xpi".
Definition ublock_path : string := "./docs/assets/extensions/ublock_origin.xpi".

Definition install_ublock_steps : M unit :=
  let* present := external (PathExists ublock_path) (exists_answer w) in
  (if negb present then
     external_unit (RequestsGet ublock_url) ;;;
     external_unit (OpenWb ublock_path) ;;;
     external_unit FileWrite
   else ret tt) ;;;
  on_driver (external_unit (InstallAddon ublock_path)).

Definition install_ublock : M Z :=
  loading "Installing uBlock Origin..."
          "uBlock Origin installed."
          "Failed to install uBlock Origin."
          (guarded install_ublock_steps).

(** [[link.get_attribute("href") for link in links]] *)
Fixpoint get_attributes (links : list element) : M (list (option string)) :=
  match links with
  | [] => ret []
  | link :: r =>
      let* h := external GetHref (fun _ => href_of link) in
      let* t := get_attributes r in
      ret (h :: t)
  end.

(** [[href.split("/")[-1] for href in hrefs]]; [None] stands for the
    [AttributeError] of an [href] that is [None]. *)
Fixpoint split_names (hrefs : list (option string)) : option (list string) :=
  match hrefs with
  | [] => Some []
  | None :: _ => None
  | Some href :: r => (last_segment href ::.) <$> split_names r
  end.

Definition get_names_from_html (html : element) : M (list string) :=
  let* links := external FindAnchors (fun _ => anchors_of html) in
  let* hrefs := get_attributes links in
  match split_names hrefs with
  | None => raise PyException
  | Some names =>
      ret (filter (fun name => name <> "datasheets.html") names)
  end.

Definition close_session_steps : M unit :=
  on_driver (external_unit DriverQuit).

Definition close_session : M Z :=
  loading "Closing session..." "Session closed." "Failed to close session."
          (guarded close_session_steps).

(** One of the two [try] blocks of [remove_cookies]: [Some 1] is its
    [return 1], [None] is falling through. *)
Definition click_when_clickable (id : string) : M (option Z) :=
  except_Exception
    (external_unit (WaitClickable (id_xpath id)) ;;;
     external_unit Click ;;;
     ret None)
    (ret (Some 1)).

Definition remove_cookies_body : M Z :=
  let* check := gets check_for_cookies in
  if negb check then ret 0
  else
    on_driver (external_unit (DriverGet home_url)) ;;;
    let* r1 := click_when_clickable "ez-manage-settings" in
    match r1 with
    | Some v => ret v
    | None =>
        let* r2 := click_when_clickable "ez-save-settings" in
        match r2 with
        | Some v => ret v
        | None => modify (set_check_for_cookies false) ;;; ret 0
        end
    end.

Definition remove_cookies : M Z :=
  loading "Removing cookies..." "Cookies removed." "Failed to remove cookies."
          remove_cookies_body.

Definition init_session (width height : N) (headless : bool) : M unit :=
  let args := app ["--width=" +:+ pretty width; "--height=" +:+ pretty height]
                  (if headless then ["--headless"] else []) in
  external_unit (NewBrowser args) ;;;
  modify (set_driver (Some tt)) ;;;
  ensure_dirs_exist ;;;
  install_ublock ;;;
  remove_cookies ;;;
  ret tt.

Definition menu_xpath : string :=
  "/html/body/div[1]/div[1]/div[1]/div[1]/div[2]/div[5]/div[2]/div".

Definition fetch_factions_names_steps : M unit :=
  on_driver (external_unit (DriverGet home_url)) ;;;
  let* menu := external (WaitPresence menu_xpath) (element_answer w) in
  let* names := get_names_from_html menu in
  modify (set_factions_names names).

Definition fetch_factions_names : M Z :=
  loading "Fetching factions names..." "Factions names fetched."
          "Failed to fetch factions names."
          (guarded fetch_factions_names_steps).

Definition fetch_units_names_from_faction_steps (faction_name : string) :
    M unit :=
  on_driver (external_unit (DriverGet (factions_url +:+ faction_name))) ;;;
  external_unit (WaitPresence (id_xpath "btnArmyList")) ;;;
  external_unit MoveToElement ;;;
  external_unit (Sleep 1) ;;;
  let* tooltip :=
    on_driver (external (FindElementsXpath (id_xpath "tooltip_contentArmyList"))
                        (elements_answer w)) in
  match tooltip !! 1%nat with
  | None => raise PyException
  | Some html =>
      let* names := get_names_from_html html in
      let* l := alloc names in
      modify (fun s => set_factions_dict
                         (assoc_set faction_name l (factions_dict s)) s)
  end.

Definition fetch_units_names_from_faction (faction_name : string) : M Z :=
  loading "Fetching units names from faction name..." "Units names fetched."
          "Failed to fetch units names from their faction names."
          (guarded (fetch_units_names_from_faction_steps faction_name)).

Definition remove_button_script : string :=
  nl +:+ "            document.querySelector(" +:+ dq +:+ "#btnArmyList" +:+ dq
     +:+ ").remove();" +:+ nl +:+ "            ".

Definition card_url (faction unit : string) : string :=
  factions_url +:+ faction +:+ "/" +:+ unit.
Definition card_file (faction unit : string) : string :=
  output_dir +:+ faction +:+ "/" +:+ unit +:+ ".png".

(** No [try] here: whatever a step raises goes to the caller. *)
Definition fetch_card_from_unit (faction unit : string) : M Datatypes.unit :=
  on_driver (external_unit (DriverGet (card_url faction unit))) ;;;
  on_driver (external_unit (ExecuteScript remove_button_script)) ;;;
  external_unit (Makedirs (output_dir +:+ faction)) ;;;
  external_unit (WaitPresence (id_xpath "wrapper" +:+ "/div[4]")) ;;;
  external_unit (Screenshot (card_file faction unit)).

Fixpoint for_each {A} (l : list A) (body : A -> M Z) : M unit :=
  match l with
  | [] => ret tt
  | x :: r => body x ;;; for_each r body
  end.

Definition index_path : string := source_dir +:+ "index".
Definition temp_path : string := source_dir +:+ "temp".

Definition interrupted_msg : string := nl +:+ "Process interrupted by user.".

(** The handlers of [fetch_indexes] and of [fetch_all_cards_from_faction]. *)
Definition close_on_interrupt : M Z :=
  print interrupted_msg ;;; close_session ;;; ret 1.
Definition close_on_exception : M Z :=
  close_session ;;; log (PrintExn PyException) ;;; ret 1.

(** The dictionary of [fetch_indexes]: a key for each faction name, then
    the units of each faction. *)
Definition build_index : M unit :=
  let* names := gets factions_names in
  let* d := init_dictionary_with_keys names in
  modify (set_factions_dict d) ;;;
  let* names := gets factions_names in
  for_each names fetch_units_names_from_faction.

Definition save_index : M unit :=
  let* d := gets factions_dict in
  save_dict_to_json d index_path.

(** The [try] block of [fetch_indexes]. *)
Definition fetch_indexes_try : M Z :=
  init_session 2560 1440 true ;;;
  fetch_factions_names ;;;
  build_index ;;;
  save_index ;;;
  close_session ;;;
  ret 0.

Definition fetch_indexes : M Z :=
  try_except fetch_indexes_try close_on_interrupt close_on_exception.

(** The [while] loop of [fetch_all_cards_from_faction_logic]:
    [units_queue] is the private copy, consumed from the front.  The
    [checkpoint] is the place between the return of [fetch_card_from_unit]
    and [cards_to_fetch[faction].remove(unit)], where the user can
    interrupt with the card captured and the unit still listed. *)
Fixpoint consume_units (cards_to_fetch : pydict) (faction : string)
    (units_queue : list string) : M unit :=
  match units_queue with
  | [] => ret tt
  | unit :: rest =>
      fetch_card_from_unit faction unit ;;;
      checkpoint ;;;
      let* l := subscript cards_to_fetch faction in
      let* q := deref l in
      match list_remove unit q with
      | None => raise PyException
      | Some q' => store l q'
      end ;;;
      consume_units cards_to_fetch faction rest
  end.

Definition fetch_all_cards_from_faction_logic_steps (cards_to_fetch : pydict)
    (faction : string) : M unit :=
  let* l := subscript cards_to_fetch faction in
  let* units_queue := deref l in
  consume_units cards_to_fetch faction units_queue.

Definition fetch_all_cards_from_faction_logic (cards_to_fetch : pydict)
    (faction : string) : M Z :=
  loading "Fetching all cards from faction..."
          "All cards fetched from faction."
          "Failed to fetch all cards from faction."
          (guarded (fetch_all_cards_from_faction_logic_steps cards_to_fetch
                                                              faction)).

Definition no_dictionary_msg : string :=
  "No dictionary found. Please fetch the indexes first.".
Definition no_faction_msg : string :=
  "The faction does not exist in the dictionary.".

(** What [fetch_all_cards_from_faction] does with the loaded dictionary. *)
Definition fetch_faction_of (loaded : pydict) (faction : string) : M Z :=
  match assoc_get loaded faction with
  | None => print no_faction_msg ;;; ret 1
  | Some l =>
      let cards_to_fetch := [(faction, l)] in
      fetch_all_cards_from_faction_logic cards_to_fetch faction ;;;
      close_session ;;;
      ret 0
  end.

Definition fetch_all_cards_from_faction (faction : string) : M Z :=
  try_except
    (init_session 2560 1440 true ;;;
     let* cards_to_fetch := load_dictionary_if_exists source_dir in
     match cards_to_fetch with
     | None => print no_dictionary_msg ;;; ret 1
     | Some loaded => fetch_faction_of loaded faction
     end)
    close_on_interrupt
    close_on_exception.

Definition fetch_all_cards_logic (cards_to_fetch : pydict) : M Z :=
  guarded (for_each (map fst cards_to_fetch)
                    (fetch_all_cards_from_faction_logic cards_to_fetch)).

Definition interrupted_temp_msg : string :=
  nl +:+ "Process interrupted by user. The dictionary will be saved to temp.json.".
Definition error_temp_msg : string :=
  "An error occurred. The dictionary will be saved to temp.json.".

(** The [try] block of [fetch_all_cards].  The [checkpoint] is the place
    between the return of [close_session] and [return 0], where the user
    can interrupt with all the work done. *)
Definition fetch_all_cards_try (cards_to_fetch : pydict) : M Z :=
  init_session 2560 1440 true ;;;
  fetch_all_cards_logic cards_to_fetch ;;;
  close_session ;;;
  checkpoint ;;;
  ret 0.

(** The [try] statement of [fetch_all_cards], once the dictionary is
    loaded. *)
Definition fetch_all_cards_of (cards_to_fetch : pydict) : M Z :=
  try_except
    (fetch_all_cards_try cards_to_fetch)
    (print interrupted_temp_msg ;;;
     close_session ;;;
     save_dict_to_json cards_to_fetch temp_path ;;;
     ret 1)
    (print error_temp_msg ;;;
     log (PrintExn PyException) ;;;
     close_session ;;;
     save_dict_to_json cards_to_fetch temp_path ;;;
     ret 1).

Definition fetch_all_cards : M Z :=
  let* cards_to_fetch := load_dictionary_if_exists source_dir in
  match cards_to_fetch with
  | None => print no_dictionary_msg ;;; ret 1
  | Some loaded => fetch_all_cards_of loaded
  end.

End Scraper.

(** Modelled from the spec: the work queue is loaded from the persisted
    Index, the file [index] of the directory. *)
Definition persisted_index (files : gmap string json) (dir : string) :
    option json :=
  files !! (dir +:+ "index").

(** ** Reading a trace *)

(** The files of the screenshots that were taken, in order. *)
Fixpoint captured (t : list event) : list string :=
  match t with
  | [] => []
  | Done (Screenshot file) :: r => file :: captured r
  | _ :: r => captured r
  end.

(** The pages that the browser was sent to, in order, whether the
    navigation returned or raised. *)
Fixpoint visited (t : list event) : list string :=
  match t with
  | [] => []
  | Done (DriverGet url) :: r | Failed (DriverGet url) _ :: r =>
      url :: visited r
  | _ :: r => visited r
  end.

(** The calls that were made, in order, whether they returned or raised. *)
Fixpoint calls (t : list event) : list call :=
  match t with
  | [] => []
  | Done c :: r | Failed c _ :: r => c :: calls r
  | _ :: r => calls r
  end.

(** * Vocabulary of the properties *)

(** [stable R m]: the state in which [m] ends, with a value or with an
    exception, is related by [R] to the state in which it started. *)
Definition stable {A} (R : relation state) (m : M A) : Prop :=
  forall s, R s (m s).2.

(** The dictionary files are those of the start. *)
Definition same_disk : relation state := fun s s' => disk s' = disk s.

(** No list was touched, no dictionary file written, and the screenshots
    taken are those of [files], in order. *)
Definition capture_step (files : list string) : relation state := fun s s' =>
  heap s' = heap s /\ disk s' = disk s /\
  exists t, trace s' = trace s ++ t /\ captured t = files.

(** No list was touched, no dictionary file written, no screenshot
    taken. *)
Definition quiet : relation state := capture_step [].

(** A relation that the bookkeeping of the model respects: counting the
    calls, recording the [allowed] events, the fields of [self] that hold
    no dictionary. *)
Class Frame (R : relation state) (allowed : event -> Prop) : Prop := {
  frame_preorder :: PreOrder R;
  frame_ticks s : R s (set_ticks (S (ticks s)) s);
  frame_trace s e : allowed e -> R s (set_trace (trace s ++ [e]) s);
  frame_driver s d : R s (set_driver d s);
  frame_cookies s b : R s (set_check_for_cookies b s)
}.

(** The events that [quiet] allows. *)
Definition not_screenshot (e : event) : Prop := captured [e] = [].

(** What a [guarded] method makes of the result of its steps. *)
Definition guarded_result {A} (r : result A) : result Z :=
  match r with
  | Ret _ => Ret 0
  | Raise PyException => Ret 1
  | Raise KeyboardInterrupt => Raise KeyboardInterrupt
  end.

(** The state once [msg] is printed. *)
Definition printed (msg : string) (s : state) : state :=
  set_trace (trace s ++ [Print msg]) s.

(** [m] takes the screenshots [files] when it returns and none when it
    raises. *)
Definition captures_on_return {A} (files : list string) (m : M A) : Prop :=
  forall s,
    capture_step (match (m s).1 with Ret _ => files | Raise _ => [] end)
                 s (m s).2.

(** The first exception among the answers of the world to the [k] calls
    from the call number [n] on. *)
Fixpoint first_raise (w : world) (n k : nat) : option exn :=
  match k with
  | O => None
  | S k' =>
      match raises w n with
      | Some e => Some e
      | None => first_raise w (S n) k'
      end
  end.

(** Between [s] and [s'] the list at [l] lost its front [done] and kept
    [rest]; the screenshots taken are those of [shot], in order; with a
    driver, the pages visited are those of [done] and of the first unit of
    [rest], in order; no other list, no dictionary file and not the driver
    changed. *)
Definition consumed (faction : string) (l : loc) (done rest shot : list string)
    (s s' : state) : Prop :=
  read_list (heap s) l = done ++ rest /\
  read_list (heap s') l = rest /\
  (forall l', l' <> l -> heap s' !! l' = heap s !! l') /\
  disk s' = disk s /\ driver s' = driver s /\
  exists t, trace s' = trace s ++ t /\
            captured t = card_file faction <$> shot /\
            (driver s = Some tt ->
             visited t = card_url faction <$> (done ++ take 1 rest)).

(** What the loop of [fetch_all_cards_from_faction_logic] has done when it
    ends with [r]: on return every unit is removed and captured; when it
    raises, units remain, and the one captured unit that may still be in
    the list is the first, in a loop interrupted between its capture and
    its removal. *)
Definition loop_outcome {A} (r : result A) (done rest shot : list string) :
    Prop :=
  match r with
  | Ret _ => rest = [] /\ shot = done
  | Raise e =>
      rest <> [] /\
      (shot = done \/ (e = KeyboardInterrupt /\ shot = done ++ take 1 rest))
  end.

(** The outcome of [fetch_all_cards_from_faction_logic]: [0] with nothing
    left, [1] with units left when a capture raised an [Exception], or the
    interrupt. *)
Definition faction_outcome (r : result Z) (done rest shot : list string) :
    Prop :=
  match r with
  | Ret v => shot = done /\ ((v = 0 /\ rest = []) \/ (v = 1 /\ rest <> []))
  | Raise e =>
      e = KeyboardInterrupt /\ rest <> [] /\
      (shot = done \/ shot = done ++ take 1 rest)
  end.

(** Every entry of [entries] is what [d] holds for its key. *)
Definition linked (d entries : pydict) : Prop :=
  Forall (fun kl => assoc_get d kl.1 = Some kl.2) entries.

(** The screenshots of the units [dones], faction by faction. *)
Definition cards_of (factions : list string) (dones : list (list string)) :
    list string :=
  concat (zip_with (fun faction done => card_file faction <$> done)
                   factions dones).

(** The pages of the units [trieds], faction by faction. *)
Definition pages_of (factions : list string) (trieds : list (list string)) :
    list string :=
  concat (zip_with (fun faction tried => card_url faction <$> tried)
                   factions trieds).

(** The units of [before] that are no longer in [after], a list that is
    what [before] has left after a front; and these with the first unit of
    [after]. *)
Definition removed (before after : list string) : list string :=
  take (length before - length after) before.
Definition tried (before after : list string) : list string :=
  take (S (length before - length after)) before.

(** No unit for any entry. *)
Definition nothing {A} (entries : list A) : list (list string) :=
  (fun _ => []) <$> entries.

(** [shot] is [done], or [done] and the first unit of [rest]. *)
Definition in_flight (done rest shot : list string) : Prop :=
  shot = done \/ shot = done ++ take 1 rest.

(** Between [s] and [s'] the list of each entry lost the front given by
    [dones]; the screenshots taken are those of [shots], in order: for
    each entry the units that left its list and at most the first that is
    left, and at most one unit more than have left the lists in all; no
    other list changed. *)
Definition progress (entries : pydict) (dones shots : list (list string))
    (s s' : state) : Prop :=
  Forall2 (fun kl done =>
             read_list (heap s) kl.2 = done ++ read_list (heap s') kl.2)
          entries dones /\
  Forall3 (fun kl done shot =>
             in_flight done (read_list (heap s') kl.2) shot)
          entries dones shots /\
  (length (concat shots) <= S (length (concat dones)))%nat /\
  (forall l', l' ∉ entries.*2 -> heap s' !! l' = heap s !! l') /\
  exists t, trace s' = trace s ++ t /\
            captured t = cards_of (entries.*1) shots.

(** No list was touched and no screenshot taken. *)
Definition still : relation state := fun s s' =>
  heap s' = heap s /\ exists t, trace s' = trace s ++ t /\ captured t = [].

(** A dictionary as [load_dictionary_if_exists] builds it: distinct keys,
    each with a list of its own. *)
Definition separate (d : pydict) : Prop := NoDup (d.*1) /\ NoDup (d.*2).

(** What the two handlers of [fetch_all_cards] do from [s]: nothing to the
    lists; when they return, it is [1] and the dictionary is in the file
    [temp]; when they raise, no dictionary file was written. *)
Definition snapshot_step (d : pydict) (r : result Z) (s s' : state) : Prop :=
  heap s' = heap s /\
  (exists t, trace s' = trace s ++ t /\ captured t = []) /\
  match r with
  | Ret v => v = 1 /\ disk s' = <[temp_path := resolve (heap s) d]> (disk s)
  | Raise _ => disk s' = disk s
  end.

(** [m] is such a handler. *)
Definition snapshots (d : pydict) (m : M Z) : Prop :=
  forall s, snapshot_step d (m s).1 s (m s).2.

(** [m] raises no [Exception]. *)
Definition guards {A} (m : M A) : Prop :=
  forall s, (m s).1 <> Raise PyException.

(** [m] is not interrupted. *)
Definition calm {A} (m : M A) : Prop :=
  forall s, (m s).1 <> Raise KeyboardInterrupt.

(** [dones] are fronts of the sequences of [mapping]. *)
Definition fronts (mapping : json) (dones : list (list string)) : Prop :=
  Forall2 (fun kr done => exists rest, kr.2 = done ++ rest) mapping dones.

(** The names, the dictionary, its lists and the dictionary files are
    those of the start. *)
Definition same_index : relation state := fun s s' =>
  factions_names s' = factions_names s /\
  factions_dict s' = factions_dict s /\
  heap s' = heap s /\ disk s' = disk s.

(** The names are those of the start, and the keys of the dictionary are
    still [keys] if they were. *)
Definition keeps (keys : list string) : relation state := fun s s' =>
  factions_names s' = factions_names s /\
  ((factions_dict s).*1 = keys -> (factions_dict s').*1 = keys).


(** Every dictionary file but the one at [path] is as it was. *)
Definition only_file (path : string) : relation state := fun s s' =>
  forall p, p <> path -> disk s' !! p = disk s !! p.

(** The events other than a call of [Utils.save_dict_to_json] for a file
    that is not one of [paths]. *)
Definition saves_at (paths : list string) (e : event) : Prop :=
  match e with
  | Done (SaveJson path) | Failed (SaveJson path) _ => path ∈ paths
  | _ => True
  end.

(** No dictionary file was saved but at one of [paths]. *)
Definition saves_only (paths : list string) : relation state := fun s s' =>
  exists t, trace s' = trace s ++ t /\ Forall (saves_at paths) t.

(** The events of [driver.quit()], and the others. *)
Definition keeps_session (e : event) : Prop :=
  match e with
  | Done DriverQuit | Failed DriverQuit _ => False
  | _ => True
  end.

(** The session was not closed: no [driver.quit()] among the new events. *)
Definition session_open : relation state := fun s s' =>
  exists t, trace s' = trace s ++ t /\ Forall keeps_session t.



(** Calls were made, none was taken back. *)
Definition counted : relation state := fun s s' => (ticks s <= ticks s')%nat.

(** ** Concrete worlds and states *)

(** A world in which no call raises and the pages are empty. *)
Definition calm_world : world :=
  World (fun _ => None) (fun _ => false) (fun _ => true)
        (fun _ => Element None []) (fun _ => []).

(** A menu with a link to a unit and the link to the datasheets page. *)
Definition orks_menu : element :=
  Element None
    [Element (Some "https://wahapedia.ru/wh40k10ed/factions/orks/Boyz") [];
     Element (Some "https://wahapedia.ru/wh40k10ed/factions/orks/datasheets.html") []].

(** A world in which the call number [bad] raises [e], and every later
    call too when [after] is set; the other calls succeed. *)
Definition failing_world (bad : nat) (after : bool) (e : exn) : world :=
  World (fun n => if decide (n = bad) then Some e
                  else if after && bool_decide (bad < n)%nat then Some e
                  else None)
        (fun _ => false)
        (fun _ => true)
        (fun _ => Element None [])
        (fun _ => []).

(** A world in which the user interrupts once, between the call before
    the call number [bad] and that call; every call succeeds. *)
Definition interrupting_world (bad : nat) : world :=
  World (fun n => if decide (n = bad) then Some KeyboardInterrupt else None)
        (fun _ => true)
        (fun _ => true)
        (fun _ => Element None [])
        (fun _ => []).

(** A session in progress, with one list of two units at location [0]. *)
Definition orks_session : state :=
  State 0 [] {[ 0%nat := ["boyz"; "nobz"] ]} ∅ (Some tt) false [] [].

(** An index of two factions, and the files that hold just it. *)
Definition orks_index : json :=
  [("orks", ["boyz"; "nobz"]); ("necrons", ["warriors"])].

Definition indexed_disk : gmap string json := {[ index_path := orks_index ]}.

(** An index in which a unit is listed twice. *)
Definition repeated_disk : gmap string json :=
  {[ index_path := [("orks", ["boyz"; "boyz"])] ]}.

(** A loader that reads the resume snapshot. *)
Definition resume_snapshot (files : gmap string json) (dir : string) :
    option json :=
  files !! (dir +:+ "temp").

(** A previous index, to be replaced. *)
Definition stale_disk : gmap string json :=
  {[ index_path := [("tau", ["crisis"])] ]}.

(** A world in which no call raises, the menu lists two factions and the
    tooltip of a faction lists one unit and the datasheets page. *)
Definition catalogue_world : world :=
  World (fun _ => None) (fun _ => false) (fun _ => false)
        (fun _ => Element None
           [Element (Some "https://wahapedia.ru/wh40k10ed/factions/orks") [];
            Element (Some "https://wahapedia.ru/wh40k10ed/factions/necrons") []])
        (fun _ => [Element None [];
                   Element None
                     [Element (Some "https://wahapedia.ru/wh40k10ed/factions/orks/Boyz") [];
                      Element (Some "https://wahapedia.ru/wh40k10ed/factions/orks/datasheets.html") []]]).

(** The world of the catalogue, in which the call number [bad] raises an
    [Exception]. *)
Definition broken_catalogue (bad : nat) : world :=
  World (fun n => if decide (n = bad) then Some PyException else None)
        (early catalogue_world) (exists_answer catalogue_world)
        (element_answer catalogue_world) (elements_answer catalogue_world).

(** Files with an index and a resume snapshot of an earlier run. *)
Definition resumable_disk : gmap string json :=
  <[temp_path := [("orks", ["nobz"])]]> indexed_disk.

(** * Lemmas *)

(** ** Names from links *)

Lemma split_not_nil sep s : split sep s <> [].
Proof.
  destruct s as [|c r]; simpl; [discriminate|].
  destruct (Ascii.eqb c sep); [discriminate|].
  destruct (split sep r); discriminate.
Qed.

Lemma split_without sep s : has_char sep s = false -> split sep s = [s].
Proof.
  induction s as [|c r IH]; simpl; [reflexivity|].
  intros H. apply orb_false_iff in H as [Hc Hr].
  rewrite Hc, (IH Hr). reflexivity.
Qed.

Lemma split_with sep s :
  has_char sep s = true -> exists h x t, split sep s = h :: x :: t.
Proof.
  induction s as [|c r IH]; simpl; [discriminate|].
  destruct (Ascii.eqb c sep) eqn:Hc; simpl.
  - intros _. destruct (split sep r) as [|x t] eqn:E.
    + destruct (split_not_nil _ _ E).
    + eauto.
  - intros Hr. destruct (IH Hr) as (h & x & t & ->). eauto.
Qed.

Lemma last_cons_cons {A} (a b : A) l d : List.last (a :: b :: l) d = List.last (b :: l) d.
Proof. reflexivity. Qed.

Lemma last_segment_after_last_slash href :
  after_last_slash href (last_segment href).
Proof.
  unfold after_last_slash, last_segment.
  induction href as [|c r IH]; simpl.
  - split; [reflexivity|]. right. split; reflexivity.
  - destruct IH as [Hno IH].
    destruct (Ascii.eqb c slash) eqn:Hc.
    + apply Ascii.eqb_eq in Hc as ->.
      destruct (split slash r) as [|x t] eqn:E; [destruct (split_not_nil _ _ E)|].
      rewrite last_cons_cons. split; [exact Hno|]. left.
      destruct IH as [[pre ->]|[_ ->]].
      * exists (String slash pre). reflexivity.
      * exists EmptyString. reflexivity.
    + destruct (has_char slash r) eqn:Hr.
      * destruct (split_with _ _ Hr) as (h & x & t & E).
        rewrite E in *. rewrite last_cons_cons in *.
        split; [exact Hno|]. left.
        destruct IH as [[pre ->]|[? _]]; [|discriminate].
        exists (String c pre). reflexivity.
      * rewrite (split_without _ _ Hr) in *. simpl in *.
        split; [rewrite Hc, Hr; reflexivity|].
        right. split; reflexivity.
Qed.

Lemma split_names_In hrefs names name :
  split_names hrefs = Some names -> In name names ->
  exists href, In (Some href) hrefs /\ name = last_segment href.
Proof.
  revert names. induction hrefs as [|[h|] r IH]; simpl; intros names E Hin.
  - injection E as <-. destruct Hin.
  - destruct (split_names r) as [t|]; [|discriminate].
    injection E as <-. destruct Hin as [<-|Hin].
    + exists h. auto.
    + destruct (IH _ eq_refl Hin) as (href & ? & ?). eauto.
  - discriminate.
Qed.

Lemma get_attributes_Ret w links s hrefs s' :
  get_attributes w links s = (Ret hrefs, s') -> hrefs = map href_of links.
Proof.
  revert s hrefs s'. induction links as [|link r IH]; simpl; intros s hrefs s'.
  - intros [= <- _]. reflexivity.
  - unfold bind at 1, external.
    destruct (raises w (ticks s)); [discriminate|].
    unfold bind at 1.
    destruct (get_attributes w r _) as [[t|e] s1] eqn:E; [|discriminate].
    intros [= <- _]. rewrite (IH _ _ _ E). reflexivity.
Qed.

(** ** What a computation leaves alone *)

Lemma captured_app t1 t2 : captured (t1 ++ t2) = captured t1 ++ captured t2.
Proof.
  induction t1 as [|e t1 IH]; [reflexivity|].
  destruct e as [[]| | |]; simpl; rewrite ?IH; reflexivity.
Qed.

#[export] Instance same_disk_preorder : PreOrder same_disk.
Proof.
  split; [intros s; reflexivity|].
  intros s1 s2 s3 H1 H2. unfold same_disk in *. congruence.
Qed.

#[export] Instance same_disk_frame : Frame same_disk (fun _ => True).
Proof. split; try apply _; intros; reflexivity. Qed.

#[export] Instance quiet_preorder : PreOrder quiet.
Proof.
  split.
  - intros s. split; [reflexivity|]. split; [reflexivity|].
    exists []. rewrite app_nil_r. split; reflexivity.
  - intros s1 s2 s3 (Hh1 & Hd1 & t1 & Ht1 & Hc1) (Hh2 & Hd2 & t2 & Ht2 & Hc2).
    split; [congruence|]. split; [congruence|].
    exists (t1 ++ t2). rewrite Ht2, Ht1, app_assoc, captured_app, Hc1, Hc2.
    split; reflexivity.
Qed.

#[export] Instance quiet_frame : Frame quiet not_screenshot.
Proof.
  assert (Hrefl : forall s s', heap s' = heap s -> disk s' = disk s ->
                               trace s' = trace s -> quiet s s').
  { intros s s' Hh Hd Ht. split; [exact Hh|]. split; [exact Hd|].
    exists []. rewrite app_nil_r. split; [exact Ht|reflexivity]. }
  split; [apply _| | | |]; try (intros; apply Hrefl; reflexivity).
  intros s e He. split; [reflexivity|]. split; [reflexivity|].
  exists [e]. split; [reflexivity|exact He].
Qed.

Section Stable.

Context (R : relation state) (allowed : event -> Prop) `{!Frame R allowed}.

Lemma stable_ret {A} (a : A) : stable R (ret a).
Proof. intros s. reflexivity. Qed.

Lemma stable_raise {A} e : stable R (@raise A e).
Proof. intros s. reflexivity. Qed.

Lemma stable_gets {A} (f : state -> A) : stable R (gets f).
Proof. intros s. reflexivity. Qed.

Lemma stable_bind {A B} (m : M A) (k : A -> M B) :
  stable R m -> (forall a, stable R (k a)) -> stable R (bind m k).
Proof.
  intros Hm Hk s. unfold bind. specialize (Hm s).
  destruct (m s) as [[a|e] s1]; simpl in *; [|exact Hm].
  etransitivity; [exact Hm|apply Hk].
Qed.

Lemma stable_except_Exception {A} (body handler : M A) :
  stable R body -> stable R handler -> stable R (except_Exception body handler).
Proof.
  intros Hb Hh s. unfold except_Exception. specialize (Hb s).
  destruct (body s) as [[a|[]] s1]; simpl in *; try exact Hb.
  etransitivity; [exact Hb|apply Hh].
Qed.

Lemma stable_try_except {A} (body h1 h2 : M A) :
  stable R body -> stable R h1 -> stable R h2 -> stable R (try_except body h1 h2).
Proof.
  intros Hb H1 H2 s. unfold try_except. specialize (Hb s).
  destruct (body s) as [[a|[]] s1]; simpl in *; try exact Hb.
  - etransitivity; [exact Hb|apply H2].
  - etransitivity; [exact Hb|apply H1].
Qed.

Lemma stable_log e : allowed e -> stable R (log e).
Proof. intros He s. apply frame_trace, He. Qed.

Lemma stable_external {A} w c (answer : nat -> A) :
  allowed (Done c) -> (forall e, allowed (Failed c e)) ->
  stable R (external w c answer).
Proof.
  intros Hd Hf s. unfold external.
  destruct (raises w (ticks s)); simpl.
  - etransitivity; [apply frame_ticks|]. apply (frame_trace (set_ticks _ s)), Hf.
  - etransitivity; [apply frame_ticks|]. apply (frame_trace (set_ticks _ s)), Hd.
Qed.

Lemma stable_checkpoint w : stable R (checkpoint w).
Proof.
  intros s. unfold checkpoint.
  destruct (raises w (ticks s)) as [[]|]; simpl; try reflexivity.
  destruct (early w (ticks s)); simpl; [apply frame_ticks|reflexivity].
Qed.

Lemma stable_on_driver {A} (m : M A) : stable R m -> stable R (on_driver m).
Proof.
  intros Hm. apply stable_bind; [apply stable_gets|].
  intros [[]|]; [exact Hm|apply stable_raise].
Qed.

Lemma stable_set_driver d : stable R (modify (set_driver d)).
Proof. intros s. apply frame_driver. Qed.

Lemma stable_set_check_for_cookies b : stable R (modify (set_check_for_cookies b)).
Proof. intros s. apply frame_cookies. Qed.

Lemma stable_for_each {A} (l : list A) (body : A -> M Z) :
  (forall x, stable R (body x)) -> stable R (for_each l body).
Proof.
  intros Hb. induction l as [|x r IH]; simpl; [apply stable_ret|].
  apply stable_bind; [apply Hb|intros _; exact IH].
Qed.

Lemma stable_get_attributes w links :
  allowed (Done GetHref) -> (forall e, allowed (Failed GetHref e)) ->
  stable R (get_attributes w links).
Proof.
  intros Hd Hf. induction links as [|link r IH]; simpl; [apply stable_ret|].
  apply stable_bind; [apply stable_external; assumption|intros h].
  apply stable_bind; [exact IH|intros t; apply stable_ret].
Qed.

Lemma stable_loading start success failure (body : M Z) :
  (forall msg, allowed (Print msg)) ->
  stable R body -> stable R (loading start success failure body).
Proof.
  intros Hp Hb. unfold loading, print.
  apply stable_bind; [apply stable_log, Hp|intros _].
  apply stable_bind; [exact Hb|intros r].
  apply stable_bind; [apply stable_log, Hp|intros _; apply stable_ret].
Qed.

End Stable.

Lemma quiet_set_factions_names l : stable quiet (modify (set_factions_names l)).
Proof.
  intros s. split; [reflexivity|]. split; [reflexivity|].
  exists []. rewrite app_nil_r. split; reflexivity.
Qed.

Lemma same_disk_set_factions_names l :
  stable same_disk (modify (set_factions_names l)).
Proof. intros s. reflexivity. Qed.

Create HintDb scraper discriminated.
#[export] Hint Unfold ensure_dirs_exist ensure_dirs_exist_steps install_ublock
  install_ublock_steps close_session close_session_steps remove_cookies
  remove_cookies_body click_when_clickable init_session external_unit print
  close_on_interrupt close_on_exception
  fetch_factions_names fetch_factions_names_steps get_names_from_html
  fetch_units_names_from_faction fetch_units_names_from_faction_steps
  guarded : scraper.

Ltac stable_step R al :=
  first
    [ apply (stable_ret R al) | apply (stable_raise R al)
    | apply (stable_gets R al)
    | apply (stable_loading R al); [intros; exact I || reflexivity |]
    | apply (stable_bind R al); [|intros ?]
    | apply (stable_except_Exception R al)
    | apply (stable_try_except R al)
    | apply (stable_on_driver R al)
    | apply (stable_checkpoint R al)
    | apply (stable_external R al);
        [exact I || reflexivity | intros; exact I || reflexivity]
    | apply (stable_log R al); exact I || reflexivity
    | apply (stable_get_attributes R al);
        [exact I || reflexivity | intros; exact I || reflexivity]
    | apply (stable_set_driver R al)
    | apply (stable_set_check_for_cookies R al)
    | apply quiet_set_factions_names
    | apply same_disk_set_factions_names
    | match goal with
      | |- stable _ (match ?x with _ => _ end) => destruct x
      end ].

Ltac solve_stable R al := autounfold with scraper; repeat stable_step R al.

Lemma init_session_quiet w width height headless :
  stable quiet (init_session w width height headless).
Proof. solve_stable quiet not_screenshot. Qed.

Lemma close_session_quiet w : stable quiet (close_session w).
Proof. solve_stable quiet not_screenshot. Qed.

(** ** Results of the guarded methods *)

Lemma guarded_run steps s :
  guarded steps s = (guarded_result (steps s).1, (steps s).2).
Proof.
  unfold guarded, except_Exception, bind.
  destruct (steps s) as [[[]|[]] s1]; reflexivity.
Qed.

Lemma loading_result start success failure body s :
  (loading start success failure body s).1 = (body (printed start s)).1.
Proof.
  unfold loading, bind, print, log, modify, printed. simpl.
  destruct (body _) as [[v|e] s1]; reflexivity.
Qed.

Lemma loading_guarded_result start success failure steps s :
  (loading start success failure (guarded steps) s).1
  = guarded_result (steps (printed start s)).1.
Proof. rewrite loading_result, guarded_run. reflexivity. Qed.

Lemma guarded_result_cases {A} (r : result A) :
  guarded_result r = Ret 0 \/ guarded_result r = Ret 1 \/
  guarded_result r = Raise KeyboardInterrupt.
Proof. destruct r as [a|[]]; simpl; auto. Qed.

Lemma close_session_result w s :
  (close_session w s).1 = Ret 0 \/ (close_session w s).1 = Ret 1 \/
  (close_session w s).1 = Raise KeyboardInterrupt.
Proof.
  unfold close_session. rewrite loading_guarded_result.
  apply guarded_result_cases.
Qed.

(** ** Capturing one card *)

Lemma capture_step_trans a b s1 s2 s3 :
  capture_step a s1 s2 -> capture_step b s2 s3 -> capture_step (a ++ b) s1 s3.
Proof.
  intros (Hh1 & Hd1 & t1 & Ht1 & Hc1) (Hh2 & Hd2 & t2 & Ht2 & Hc2).
  split; [congruence|]. split; [congruence|].
  exists (t1 ++ t2). rewrite Ht2, Ht1, app_assoc, captured_app, Hc1, Hc2.
  split; reflexivity.
Qed.

Lemma captures_on_return_bind {A B} files (m : M A) (k : A -> M B) :
  stable quiet m -> (forall a, captures_on_return files (k a)) ->
  captures_on_return files (bind m k).
Proof.
  intros Hm Hk s. unfold bind. specialize (Hm s).
  destruct (m s) as [[a|e] s1]; simpl in *; [|exact Hm].
  apply (capture_step_trans [] _ _ _ _ Hm (Hk a s1)).
Qed.

Lemma captures_on_return_screenshot w file :
  captures_on_return [file] (external_unit w (Screenshot file)).
Proof.
  intros s. unfold external_unit, external.
  destruct (raises w (ticks s)); simpl;
    (split; [reflexivity|]; split; [reflexivity|]);
    eexists [_]; split; reflexivity.
Qed.

Lemma fetch_card_from_unit_captures w faction unit :
  captures_on_return [card_file faction unit]
                     (fetch_card_from_unit w faction unit).
Proof.
  unfold fetch_card_from_unit.
  repeat (apply captures_on_return_bind;
          [solve [solve_stable quiet not_screenshot]|intros _]).
  apply captures_on_return_screenshot.
Qed.

(** ** Consuming the queue of one faction *)

Lemma visited_app t1 t2 : visited (t1 ++ t2) = visited t1 ++ visited t2.
Proof.
  induction t1 as [|e t1 IH]; [reflexivity|].
  destruct e as [c|c e| |]; try destruct c; simpl; rewrite ?IH; reflexivity.
Qed.

(** The result of [fetch_card_from_unit] is that of the first of its five
    calls that raises; its navigation is its first call. *)
Lemma fetch_card_from_unit_result w faction unit s :
  (fetch_card_from_unit w faction unit s).1
  = match driver s with
    | None => Raise PyException
    | Some _ =>
        match first_raise w (ticks s) 5 with
        | Some e => Raise e
        | None => Ret tt
        end
    end.
Proof.
  unfold fetch_card_from_unit, on_driver, external_unit, external, gets, bind,
    raise.
  destruct (driver s) as [[]|] eqn:Hd; [|reflexivity].
  simpl.
  destruct (raises w (ticks s)); simpl; rewrite ?Hd; simpl; [reflexivity|].
  destruct (raises w (S (ticks s))); simpl; [reflexivity|].
  destruct (raises w (S (S (ticks s)))); simpl; [reflexivity|].
  destruct (raises w (S (S (S (ticks s))))); simpl; [reflexivity|].
  destruct (raises w (S (S (S (S (ticks s)))))); reflexivity.
Qed.

Lemma fetch_card_from_unit_visits w faction unit s :
  driver (fetch_card_from_unit w faction unit s).2 = driver s /\
  (driver s = Some tt ->
   exists t, trace (fetch_card_from_unit w faction unit s).2 = trace s ++ t /\
             visited t = [card_url faction unit]).
Proof.
  unfold fetch_card_from_unit, on_driver, external_unit, external, gets, bind,
    raise.
  destruct (driver s) as [[]|] eqn:Hd; [|split; [exact Hd|discriminate]].
  simpl.
  repeat (match goal with
          | |- context [raises w ?n] => destruct (raises w n)
          end; simpl; rewrite ?Hd; simpl).
  all: split; [congruence|intros _].
  all: eexists; rewrite <- ?app_assoc; split; reflexivity.
Qed.

(** One capture: the lists, the dictionary files and the driver are as
    before; the screenshot is taken when it returns; with a driver, the
    page of the unit was visited. *)
Lemma fetch_card_from_unit_spec w faction unit s :
  let run := fetch_card_from_unit w faction unit s in
  heap run.2 = heap s /\ disk run.2 = disk s /\ driver run.2 = driver s /\
  exists t,
    trace run.2 = trace s ++ t /\
    captured t = match run.1 with
                 | Ret _ => [card_file faction unit]
                 | Raise _ => []
                 end /\
    (driver s = Some tt -> visited t = [card_url faction unit]).
Proof.
  intros run. subst run.
  destruct (fetch_card_from_unit_captures w faction unit s)
    as (Hh & Hd & t & Ht & Hc).
  destruct (fetch_card_from_unit_visits w faction unit s) as (Hdr & Hv).
  split; [exact Hh|]. split; [exact Hd|]. split; [exact Hdr|].
  exists t. split; [exact Ht|]. split; [exact Hc|].
  intros Hs. destruct (Hv Hs) as (t' & Ht' & Hv').
  rewrite Ht in Ht'. apply app_inv_head in Ht'. subst t'. exact Hv'.
Qed.

Lemma read_list_insert h l v : read_list (<[l := v]> h) l = v.
Proof. unfold read_list. rewrite lookup_insert_eq. reflexivity. Qed.

(** The loop after a capture that returned and was not interrupted before
    the removal. *)
Lemma consume_units_step w d faction l unit q s s1 :
  assoc_get d faction = Some l ->
  read_list (heap s) l = unit :: q ->
  fetch_card_from_unit w faction unit s = (Ret tt, s1) ->
  heap s1 = heap s ->
  checkpoint w s1 = (Ret tt, s1) ->
  consume_units w d faction (unit :: q) s
  = consume_units w d faction q (set_heap (<[l := q]> (heap s1)) s1).
Proof.
  intros Hl Hq E Hh Hc. simpl. unfold bind at 1. rewrite E.
  unfold bind at 1. rewrite Hc.
  unfold bind at 1, subscript. rewrite Hl. unfold ret at 1.
  unfold bind at 1, deref, gets. rewrite Hh, Hq. simpl.
  rewrite decide_True by reflexivity.
  unfold bind at 1, store, modify. rewrite Hh. reflexivity.
Qed.

(** A checkpoint lets the program pass as it is, or raises the interrupt
    and uses up the answer of the world. *)
Lemma checkpoint_cases w s :
  checkpoint w s = (Ret tt, s) \/
  (raises w (ticks s) = Some KeyboardInterrupt /\ early w (ticks s) = true /\
   checkpoint w s = (Raise KeyboardInterrupt, set_ticks (S (ticks s)) s)).
Proof.
  unfold checkpoint.
  destruct (raises w (ticks s)) as [[]|]; auto.
  destruct (early w (ticks s)); auto.
Qed.

Lemma consume_units_spec w d faction l :
  assoc_get d faction = Some l ->
  forall q s, read_list (heap s) l = q ->
    exists done rest shot,
      consumed faction l done rest shot s (consume_units w d faction q s).2 /\
      loop_outcome (consume_units w d faction q s).1 done rest shot.
Proof.
  intros Hl q. induction q as [|unit q IH]; intros s Hq.
  - exists [], [], []. simpl. split; [|split; reflexivity].
    split; [exact Hq|]. split; [exact Hq|]. split; [reflexivity|].
    split; [reflexivity|]. split; [reflexivity|].
    exists []. rewrite app_nil_r. repeat split.
  - destruct (fetch_card_from_unit_spec w faction unit s)
      as (Hh & Hd & Hdr & t & Ht & Hcap & Hvis).
    destruct (fetch_card_from_unit w faction unit s) as [[[]|e] s1] eqn:E;
      simpl in Hh, Hd, Hdr, Ht, Hcap.
    + destruct (checkpoint_cases w s1) as [Hc|(_ & _ & Hc)].
      * set (s2 := set_heap (<[l := q]> (heap s1)) s1).
        rewrite (consume_units_step _ _ _ _ _ _ _ _ Hl Hq E Hh Hc).
        fold s2.
        assert (Hq2 : read_list (heap s2) l = q) by apply read_list_insert.
        destruct (IH s2 Hq2) as (done & rest & shot & Hcons & Hres).
        exists (unit :: done), rest, (unit :: shot). split.
        { destruct Hcons as (H1 & H2 & H3 & H4 & H5 & t' & Ht' & Hcap' & Hvis').
          split; [rewrite Hq; simpl; rewrite <- H1, Hq2; reflexivity|].
          split; [exact H2|].
          split.
          { intros l' Hne. rewrite (H3 l' Hne). subst s2; simpl.
            rewrite lookup_insert_ne by congruence. rewrite Hh. reflexivity. }
          split; [rewrite H4; exact Hd|].
          split; [rewrite H5; exact Hdr|].
          exists (t ++ t'). rewrite Ht', app_assoc.
          split; [subst s2; simpl; rewrite Ht; reflexivity|].
          split; [rewrite captured_app, Hcap, Hcap'; reflexivity|].
          intros Hs. rewrite visited_app, (Hvis Hs), Hvis'; [reflexivity|].
          subst s2. simpl. congruence. }
        { destruct (consume_units w d faction q s2).1 as [a|e'];
            simpl in *.
          - destruct Hres as [-> ->]. auto.
          - destruct Hres as [Hne [->|[-> ->]]]; (split; [exact Hne|]); auto. }
      * assert (Hstep : consume_units w d faction (unit :: q) s
                        = (Raise KeyboardInterrupt,
                           set_ticks (S (ticks s1)) s1)).
        { simpl. unfold bind at 1. rewrite E. unfold bind at 1. rewrite Hc.
          reflexivity. }
        rewrite Hstep. simpl.
        exists [], (unit :: q), [unit]. split.
        { unfold consumed. simpl.
          split; [exact Hq|]. split; [rewrite Hh; exact Hq|].
          split; [intros; rewrite Hh; reflexivity|].
          split; [exact Hd|]. split; [exact Hdr|].
          exists t. auto. }
        { split; [discriminate|]. right. auto. }
    + assert (Hstep : consume_units w d faction (unit :: q) s = (Raise e, s1)).
      { simpl. unfold bind at 1. rewrite E. reflexivity. }
      rewrite Hstep. simpl.
      exists [], (unit :: q), []. split.
      * split; [exact Hq|]. split; [rewrite Hh; exact Hq|].
        split; [intros; rewrite Hh; reflexivity|].
        split; [exact Hd|]. split; [exact Hdr|].
        exists t. auto.
      * split; [discriminate|]. left. reflexivity.
Qed.

Lemma consumed_printed_l faction l done rest shot msg s s' :
  consumed faction l done rest shot (printed msg s) s' ->
  consumed faction l done rest shot s s'.
Proof.
  intros (H1 & H2 & H3 & H4 & H5 & t & Ht & Hc & Hv).
  split; [exact H1|]. split; [exact H2|]. split; [exact H3|].
  split; [exact H4|]. split; [exact H5|].
  exists (Print msg :: t). split; [|split; [exact Hc|exact Hv]].
  rewrite Ht. simpl. rewrite <- app_assoc. reflexivity.
Qed.

Lemma consumed_printed_r faction l done rest shot msg s s' :
  consumed faction l done rest shot s s' ->
  consumed faction l done rest shot s (printed msg s').
Proof.
  intros (H1 & H2 & H3 & H4 & H5 & t & Ht & Hc & Hv).
  split; [exact H1|]. split; [exact H2|]. split; [exact H3|].
  split; [exact H4|]. split; [exact H5|].
  exists (t ++ [Print msg]). split; [|split].
  - simpl. rewrite Ht, app_assoc. reflexivity.
  - rewrite captured_app, Hc, app_nil_r. reflexivity.
  - intros Hs. rewrite visited_app, (Hv Hs), app_nil_r. reflexivity.
Qed.

(** [fetch_all_cards_from_faction_logic], step by step. *)
Lemma fetch_all_cards_from_faction_logic_unfold w d faction l s :
  assoc_get d faction = Some l ->
  fetch_all_cards_from_faction_logic w d faction s =
  let s0 := printed "Fetching all cards from faction..." s in
  match consume_units w d faction (read_list (heap s) l) s0 with
  | (Ret _, s1) => (Ret 0, printed "All cards fetched from faction." s1)
  | (Raise PyException, s1) =>
      (Ret 1, printed "Failed to fetch all cards from faction." s1)
  | (Raise KeyboardInterrupt, s1) => (Raise KeyboardInterrupt, s1)
  end.
Proof.
  intros Hl.
  unfold fetch_all_cards_from_faction_logic, loading, guarded,
    fetch_all_cards_from_faction_logic_steps, except_Exception, subscript.
  rewrite Hl. unfold bind, print, log, modify, ret, deref, gets, printed. simpl.
  destruct (consume_units w d faction _ _) as [[[]|[]] s1]; reflexivity.
Qed.

Lemma fetch_all_cards_from_faction_logic_spec w d faction l s :
  assoc_get d faction = Some l ->
  exists done rest shot,
    consumed faction l done rest shot s
             (fetch_all_cards_from_faction_logic w d faction s).2 /\
    faction_outcome (fetch_all_cards_from_faction_logic w d faction s).1
                    done rest shot.
Proof.
  intros Hl.
  rewrite (fetch_all_cards_from_faction_logic_unfold _ _ _ _ _ Hl). simpl.
  set (s0 := printed _ s).
  destruct (consume_units_spec w d faction l Hl (read_list (heap s) l) s0 eq_refl)
    as (done & rest & shot & Hcons & Hres).
  apply consumed_printed_l in Hcons.
  exists done, rest, shot.
  destruct (consume_units w d faction _ s0) as [[[]|[]] s1]; simpl in *.
  - destruct Hres as [-> ->].
    split; [apply consumed_printed_r, Hcons|auto].
  - destruct Hres as [Hne [->|[? _]]]; [|discriminate].
    split; [apply consumed_printed_r, Hcons|auto].
  - destruct Hres as [Hne [->|[_ ->]]]; (split; [exact Hcons|]);
      (split; [reflexivity|]); (split; [exact Hne|]); auto.
Qed.

(** ** All the factions of a dictionary *)

Lemma assoc_get_fresh {V} (d : list (string * V)) k :
  k ∉ d.*1 -> assoc_get d k = None.
Proof.
  induction d as [|[k' v] d IH]; simpl; [reflexivity|].
  intros Hk. apply not_elem_of_cons in Hk as [Hne Hk].
  rewrite decide_False by congruence. apply IH, Hk.
Qed.

Lemma assoc_get_elem {V} (d : list (string * V)) k v :
  NoDup (d.*1) -> (k, v) ∈ d -> assoc_get d k = Some v.
Proof.
  induction d as [|[k' v'] d IH]; simpl; intros Hnd Hin.
  - inversion Hin.
  - apply NoDup_cons in Hnd as [Hk' Hnd].
    apply elem_of_cons in Hin as [[= <- <-]|Hin].
    + rewrite decide_True by reflexivity. reflexivity.
    + rewrite decide_False; [apply IH; assumption|].
      intros ->. apply Hk'. apply list_elem_of_fmap. exists (k, v). auto.
Qed.

Lemma linked_self d : NoDup (d.*1) -> linked d d.
Proof.
  intros Hnd. apply Forall_forall. intros [k v] Hin.
  apply assoc_get_elem; assumption.
Qed.

Lemma Forall2_impl_elem {A B} (P Q : A -> B -> Prop) l k :
  Forall2 P l k -> (forall x y, x ∈ l -> P x y -> Q x y) -> Forall2 Q l k.
Proof.
  induction 1 as [|x y l k Hxy _ IH]; intros HPQ; constructor.
  - apply HPQ; [left|exact Hxy].
  - apply IH. intros ? ? ? ?. apply HPQ; [right|]; assumption.
Qed.

Lemma cards_of_nothing (entries : pydict) :
  cards_of (entries.*1) (nothing entries) = [].
Proof. induction entries as [|kl r IH]; [reflexivity|exact IH]. Qed.

Lemma concat_nothing {A} (entries : list A) : concat (nothing entries) = [].
Proof. induction entries as [|kl r IH]; [reflexivity|exact IH]. Qed.

Lemma progress_refl entries s :
  progress entries (nothing entries) (nothing entries) s s.
Proof.
  split; [induction entries; constructor; [reflexivity|assumption]|].
  split; [induction entries; constructor; [left; reflexivity|assumption]|].
  split; [rewrite !concat_nothing; simpl; lia|].
  split; [reflexivity|].
  exists []. rewrite app_nil_r, cards_of_nothing. split; reflexivity.
Qed.

(** One more faction in front of the others, when the loop on it was not
    interrupted after a capture. *)
Lemma progress_cons k l entries done rest dones shots s s1 s2 :
  l ∉ entries.*2 ->
  consumed k l done rest done s s1 -> progress entries dones shots s1 s2 ->
  progress ((k, l) :: entries) (done :: dones) (done :: shots) s s2.
Proof.
  intros Hl (H1 & H2 & H3 & H4 & H5 & t & Ht & Hc & _)
         (F & X & N & G & t' & Ht' & Hc').
  split; [constructor|]; simpl.
  - rewrite H1. f_equal. unfold read_list. rewrite (G l Hl). symmetry. exact H2.
  - eapply Forall2_impl_elem; [exact F|].
    intros [k' l'] done' Hin Heq. simpl in *. rewrite <- Heq.
    unfold read_list. rewrite H3; [reflexivity|].
    intros ->. apply Hl. apply list_elem_of_fmap. exists (k', l). auto.
  - split; [constructor; [left; reflexivity|exact X]|].
    split; [rewrite !length_app; lia|].
    split.
    { intros l' Hl'. apply not_elem_of_cons in Hl' as [Hne Hl'].
      rewrite (G l' Hl'). apply H3, Hne. }
    exists (t ++ t'). rewrite Ht', Ht, app_assoc, captured_app, Hc, Hc'.
    split; reflexivity.
Qed.

(** The faction on which the loop stopped, in front of the others, which
    were not reached. *)
Lemma progress_last k l entries done rest shot s s1 :
  l ∉ entries.*2 ->
  consumed k l done rest shot s s1 -> in_flight done rest shot ->
  progress ((k, l) :: entries) (done :: nothing entries)
           (shot :: nothing entries) s s1.
Proof.
  intros Hl (H1 & H2 & H3 & H4 & H5 & t & Ht & Hc & _) Hf.
  split; [constructor|]; simpl.
  - rewrite H1, H2. reflexivity.
  - induction entries as [|[k' l'] entries IH]; constructor.
    + simpl. unfold read_list. rewrite H3; [reflexivity|].
      intros ->. apply Hl. left.
    + apply IH. intros Hin. apply Hl. right. exact Hin.
  - split.
    { constructor; [simpl; rewrite H2; exact Hf|].
      clear. induction entries; constructor; [left; reflexivity|assumption]. }
    split.
    { rewrite !length_app, !concat_nothing. simpl.
      destruct Hf as [->| ->]; [lia|].
      rewrite length_app. destruct rest; simpl; lia. }
    split.
    { intros l' Hl'. apply not_elem_of_cons in Hl' as [Hne Hl'].
      apply H3, Hne. }
    exists t. split; [exact Ht|].
    change (captured t = (card_file k <$> shot)
                         ++ cards_of (entries.*1) (nothing entries)).
    rewrite cards_of_nothing, app_nil_r. exact Hc.
Qed.

Lemma for_each_factions_spec w d entries :
  linked d entries -> NoDup (entries.*2) ->
  forall s,
    exists dones shots,
      progress entries dones shots s
        (for_each (entries.*1) (fetch_all_cards_from_faction_logic w d) s).2 /\
      disk (for_each (entries.*1) (fetch_all_cards_from_faction_logic w d) s).2
      = disk s /\
      driver (for_each (entries.*1) (fetch_all_cards_from_faction_logic w d) s).2
      = driver s /\
      (((for_each (entries.*1) (fetch_all_cards_from_faction_logic w d) s).1
        = Ret tt /\ shots = dones) \/
       (for_each (entries.*1) (fetch_all_cards_from_faction_logic w d) s).1
       = Raise KeyboardInterrupt).
Proof.
  induction entries as [|[k l] entries IH]; intros Hlink Hnd s.
  - exists [], []. split; [apply (progress_refl [])|]. simpl. auto.
  - apply Forall_cons in Hlink as [Hl Hlink]. simpl in Hl, Hnd.
    apply NoDup_cons in Hnd as [Hfresh Hnd].
    destruct (fetch_all_cards_from_faction_logic_spec w d k l s Hl)
      as (done & rest & shot & Hcons & Hres).
    assert (Hd : disk (fetch_all_cards_from_faction_logic w d k s).2 = disk s)
      by apply Hcons.
    assert (Hdr : driver (fetch_all_cards_from_faction_logic w d k s).2
                  = driver s) by apply Hcons.
    change (for_each (((k, l) :: entries).*1)
                     (fetch_all_cards_from_faction_logic w d) s)
      with (bind (fetch_all_cards_from_faction_logic w d k)
                 (fun _ => for_each (entries.*1)
                             (fetch_all_cards_from_faction_logic w d)) s).
    unfold bind.
    destruct (fetch_all_cards_from_faction_logic w d k s) as [[v|e] s1];
      simpl in Hcons, Hres, Hd, Hdr.
    + destruct Hres as [-> _].
      destruct (IH Hlink Hnd s1) as (dones & shots & Hp & Hd' & Hdr' & Hr).
      exists (done :: dones), (done :: shots).
      split; [eapply progress_cons; eassumption|].
      split; [congruence|]. split; [congruence|].
      destruct Hr as [[Hr ->]|Hr]; auto.
    + destruct Hres as (-> & Hne & Hf). simpl.
      exists (done :: nothing entries), (shot :: nothing entries).
      split; [eapply progress_last; eassumption|]. auto.
Qed.

Lemma quiet_still s s' : quiet s s' -> still s s'.
Proof. intros (Hh & _ & Ht). split; assumption. Qed.

Lemma progress_still_l entries dones shots s s1 s2 :
  still s s1 -> progress entries dones shots s1 s2 ->
  progress entries dones shots s s2.
Proof.
  intros (Hh & t & Ht & Hc) (F & X & N & G & t' & Ht' & Hc').
  split; [rewrite <- Hh; exact F|]. split; [exact X|]. split; [exact N|].
  split; [intros l' Hl'; rewrite <- Hh; apply G, Hl'|].
  exists (t ++ t'). rewrite Ht', Ht, app_assoc, captured_app, Hc, Hc'.
  split; reflexivity.
Qed.

Lemma progress_still_r entries dones shots s s1 s2 :
  progress entries dones shots s s1 -> still s1 s2 ->
  progress entries dones shots s s2.
Proof.
  intros (F & X & N & G & t & Ht & Hc) (Hh & t' & Ht' & Hc').
  split; [rewrite Hh; exact F|]. split; [rewrite Hh; exact X|].
  split; [exact N|].
  split; [intros l' Hl'; rewrite Hh; apply G, Hl'|].
  exists (t ++ t'). rewrite Ht', Ht, app_assoc, captured_app, Hc, Hc', app_nil_r.
  split; reflexivity.
Qed.

Lemma progress_quiet_l entries dones shots s s1 s2 :
  quiet s s1 -> progress entries dones shots s1 s2 ->
  progress entries dones shots s s2.
Proof. intros H. apply progress_still_l, quiet_still, H. Qed.

Lemma progress_quiet_r entries dones shots s s1 s2 :
  progress entries dones shots s s1 -> quiet s1 s2 ->
  progress entries dones shots s s2.
Proof. intros Hp H. eapply progress_still_r; [exact Hp|apply quiet_still, H]. Qed.

Lemma fetch_all_cards_logic_spec w d s r s' :
  separate d -> fetch_all_cards_logic w d s = (r, s') ->
  exists dones shots,
    progress d dones shots s s' /\ disk s' = disk s /\ driver s' = driver s /\
    ((r = Ret 0 /\ shots = dones) \/ r = Raise KeyboardInterrupt).
Proof.
  intros [Hk Hl].
  destruct (for_each_factions_spec w d d (linked_self d Hk) Hl s)
    as (dones & shots & Hp & Hd & Hdr & Hr).
  unfold fetch_all_cards_logic, guarded, except_Exception, bind.
  change (map fst d) with (d.*1).
  destruct (for_each (d.*1) _ s) as [[[]|e] s1]; simpl in *.
  - intros [= <- <-]. exists dones, shots.
    destruct Hr as [[_ ->]|Hr]; [auto 6|discriminate].
  - destruct Hr as [[Hr _]|Hr]; [discriminate|]. injection Hr as ->.
    intros [= <- <-]. exists dones, shots. auto 6.
Qed.

Lemma checkpoint_quiet w : stable quiet (checkpoint w).
Proof. apply (stable_checkpoint quiet not_screenshot). Qed.

(** The [try] block of [fetch_all_cards] raises what [init_session]
    raises; after it, only an interrupt stops it. *)
Lemma fetch_all_cards_try_spec w d s r s' :
  separate d -> fetch_all_cards_try w d s = (r, s') ->
  exists dones shots,
    progress d dones shots s s' /\ disk s' = disk s /\
    match init_session w 2560 1440 true s with
    | (Raise e, s1) => r = Raise e
    | (Ret _, s1) => (r = Ret 0 /\ shots = dones) \/ r = Raise KeyboardInterrupt
    end.
Proof.
  intros Hsep. unfold fetch_all_cards_try. unfold bind at 1.
  pose proof (init_session_quiet w 2560 1440 true s) as Hq.
  destruct (init_session w 2560 1440 true s) as [[[]|e] s1]; simpl in Hq.
  - unfold bind at 1.
    destruct (fetch_all_cards_logic w d s1) as [r1 s2] eqn:E.
    destruct (fetch_all_cards_logic_spec _ _ _ _ _ Hsep E)
      as (dones & shots & Hp & Hd & _ & Hr).
    assert (Hd1 : disk s1 = disk s) by apply Hq.
    destruct Hr as [[-> ->] | ->].
    + unfold bind at 1.
      pose proof (close_session_quiet w s2) as Hq2.
      destruct (close_session w s2) as [[v|e] s3] eqn:E2; simpl in Hq2;
        assert (Hd3 : disk s3 = disk s2) by apply Hq2.
      * unfold bind at 1.
        pose proof (checkpoint_quiet w s3) as Hq3.
        assert (Hp3 : forall s4, quiet s3 s4 ->
                  progress d dones dones s s4 /\ disk s4 = disk s).
        { intros s4 Hq4. split.
          - eapply progress_quiet_l; [exact Hq|].
            eapply progress_quiet_r; [exact Hp|].
            etransitivity; [exact Hq2|exact Hq4].
          - destruct Hq4 as (_ & -> & _). congruence. }
        destruct (checkpoint w s3) as [[[]|e] s4] eqn:Ec; simpl in Hq3;
          intros [= <- <-]; exists dones, dones;
          destruct (Hp3 _ Hq3) as [Hp4 Hd4];
          (split; [exact Hp4|]); (split; [exact Hd4|]).
        -- left. auto.
        -- right. destruct (checkpoint_cases w s3) as [Hc|(_ & _ & Hc)];
             rewrite Ec in Hc; congruence.
      * intros [= <- <-]. exists dones, dones.
        split; [eapply progress_quiet_l, progress_quiet_r; eassumption|].
        split; [congruence|].
        right.
        destruct (close_session_result w s2) as [Hc|[Hc|Hc]];
          rewrite E2 in Hc; simpl in Hc; congruence.
    + intros [= <- <-]. exists dones, shots.
      split; [eapply progress_quiet_l; eassumption|].
      split; [congruence|right; reflexivity].
  - intros [= <- <-]. exists (nothing d), (nothing d).
    split; [eapply progress_quiet_r; [apply progress_refl|exact Hq]|].
    split; [apply Hq|reflexivity].
Qed.

(** ** Dictionaries read from a file *)

Lemma assoc_set_fresh {V} k (v : V) d :
  k ∉ d.*1 -> assoc_set k v d = d ++ [(k, v)].
Proof.
  induction d as [|[k' v'] d IH]; simpl; [reflexivity|].
  intros Hk. apply not_elem_of_cons in Hk as [Hne Hk].
  rewrite decide_False by congruence. rewrite (IH Hk). reflexivity.
Qed.

Lemma assoc_set_keys {V} k (v : V) d :
  k ∈ d.*1 -> (assoc_set k v d).*1 = d.*1.
Proof.
  induction d as [|[k' v'] d IH]; simpl; intros Hk; [inversion Hk|].
  destruct (decide (k' = k)) as [->|Hne]; [reflexivity|]. simpl. f_equal.
  apply IH. apply elem_of_cons in Hk as [->|Hk]; [congruence|exact Hk].
Qed.

Lemma assoc_set_NoDup {V} k (v : V) d :
  NoDup (d.*1) -> NoDup ((assoc_set k v d).*1).
Proof.
  intros Hnd. destruct (decide (k ∈ d.*1)) as [Hin|Hout].
  - rewrite (assoc_set_keys _ _ _ Hin). exact Hnd.
  - rewrite (assoc_set_fresh _ _ _ Hout), fmap_app. simpl.
    apply NoDup_app. split; [exact Hnd|]. split.
    + intros x Hx Hk. apply list_elem_of_singleton in Hk as ->. auto.
    + apply NoDup_singleton.
Qed.

Lemma json_fold_NoDup (items acc : json) :
  NoDup (acc.*1) ->
  NoDup ((fold_left (fun d kv => assoc_set kv.1 kv.2 d) items acc).*1).
Proof.
  revert acc. induction items as [|[k v] items IH]; intros acc Hacc; simpl;
    [exact Hacc|].
  apply IH, assoc_set_NoDup, Hacc.
Qed.

Lemma json_object_NoDup items : NoDup ((json_object items).*1).
Proof. apply json_fold_NoDup. constructor. Qed.

Lemma json_fold_id (items acc : json) :
  NoDup ((acc ++ items).*1) ->
  fold_left (fun d kv => assoc_set kv.1 kv.2 d) items acc = acc ++ items.
Proof.
  revert acc. induction items as [|[k v] items IH]; intros acc Hnd; simpl.
  - rewrite app_nil_r. reflexivity.
  - rewrite fmap_app in Hnd. simpl in Hnd.
    assert (Hk : k ∉ acc.*1).
    { apply NoDup_app in Hnd as (_ & Hd & _). intros Hin.
      apply (Hd k Hin). left. }
    rewrite (assoc_set_fresh _ _ _ Hk), IH, <- app_assoc; [reflexivity|].
    rewrite <- app_assoc, fmap_app. exact Hnd.
Qed.

(** A dictionary with distinct keys is read back as it is. *)
Lemma json_object_id items : NoDup (items.*1) -> json_object items = items.
Proof. intros Hnd. apply (json_fold_id items []), Hnd. Qed.

Lemma alloc_dict_spec items :
  forall s,
    exists d s',
      alloc_dict items s = (Ret d, s') /\ d.*1 = items.*1 /\ NoDup (d.*2) /\
      (forall l, l ∈ d.*2 -> heap s !! l = None) /\
      resolve (heap s') d = items /\
      (forall l, is_Some (heap s !! l) -> heap s' !! l = heap s !! l) /\
      s' = set_heap (heap s') s.
Proof.
  induction items as [|[k v] items IH]; intros s.
  - exists [], s. repeat split; try reflexivity; try constructor.
    + intros l Hl. inversion Hl.
    + destruct s; reflexivity.
  - set (l := fresh (dom (heap s))).
    set (s1 := set_heap (<[l := v]> (heap s)) s).
    assert (Hl : heap s !! l = None) by apply not_elem_of_dom, is_fresh.
    destruct (IH s1) as (d & s2 & Hr & Hk & Hnd & Hfresh & Hres & Hkeep & Hs).
    exists ((k, l) :: d), s2.
    assert (Hl2 : heap s2 !! l = Some v).
    { rewrite Hkeep; subst s1; simpl; rewrite lookup_insert_eq; eauto. }
    split.
    { simpl. unfold bind at 1, alloc. fold l. fold s1.
      unfold bind. rewrite Hr. reflexivity. }
    split; [simpl; f_equal; exact Hk|].
    split.
    { simpl. apply NoDup_cons. split; [|exact Hnd].
      intros Hin. apply Hfresh in Hin. subst s1. simpl in Hin.
      rewrite lookup_insert_eq in Hin. discriminate. }
    split.
    { intros l' Hin. simpl in Hin. apply elem_of_cons in Hin as [->|Hin];
        [exact Hl|].
      specialize (Hfresh l' Hin). subst s1. simpl in Hfresh.
      apply lookup_insert_None in Hfresh as [? _]. assumption. }
    split.
    { unfold resolve in *. simpl. rewrite Hres. unfold read_list.
      rewrite Hl2. reflexivity. }
    split.
    { intros l' Hsome.
      assert (Hne : l <> l').
      { intros <-. rewrite Hl in Hsome. destruct Hsome; discriminate. }
      rewrite Hkeep; subst s1; simpl; rewrite lookup_insert_ne by exact Hne;
        [reflexivity|exact Hsome]. }
    rewrite Hs. subst s1. reflexivity.
Qed.

(** What [load_dictionary_if_exists] returns: the stored dictionary, in
    lists of its own. *)
Lemma load_dictionary_if_exists_spec w stored dir s r s' :
  load_dictionary_if_exists w stored dir s = (r, s') ->
  disk s' = disk s /\
  (forall l, is_Some (heap s !! l) -> heap s' !! l = heap s !! l) /\
  (exists t, trace s' = trace s ++ t /\ captured t = []) /\
  match r with
  | Ret None =>
      raises w (ticks s) = None /\ stored (disk s) dir = None /\
      heap s' = heap s /\ trace s' = trace s ++ [Done (LoadJson dir)]
  | Ret (Some d) =>
      exists items,
        raises w (ticks s) = None /\ stored (disk s) dir = Some items /\
        NoDup (d.*1) /\ NoDup (d.*2) /\
        resolve (heap s') d = json_object items
  | Raise e => raises w (ticks s) = Some e /\ heap s' = heap s
  end.
Proof.
  unfold load_dictionary_if_exists, external_unit, external, bind, gets. simpl.
  destruct (raises w (ticks s)) as [e|]; simpl.
  - intros [= <- <-]. simpl.
    split; [reflexivity|]. split; [auto|]. split; [|auto].
    eexists [_]. split; reflexivity.
  - destruct (stored (disk s) dir) as [items|]; simpl.
    + set (s1 := set_trace _ _).
      destruct (alloc_dict_spec (json_object items) s1)
        as (d & s2 & Hr & Hk & Hnd & Hfresh & Hres & Hkeep & Hs).
      rewrite Hr. intros [= <- <-].
      split; [rewrite Hs; reflexivity|]. split; [exact Hkeep|].
      split; [rewrite Hs; eexists [_]; split; reflexivity|].
      exists items. split; [reflexivity|]. split; [reflexivity|].
      split; [rewrite Hk; apply json_object_NoDup|]. auto.
    + intros [= <- <-]. simpl. split; [reflexivity|]. split; [auto|].
      split; [eexists [_]; split; reflexivity|]. auto.
Qed.

(** ** The resume snapshot *)

Lemma snapshots_bind {A} d (m : M A) (k : A -> M Z) :
  stable quiet m -> (forall a, snapshots d (k a)) -> snapshots d (bind m k).
Proof.
  intros Hm Hk s. unfold bind. specialize (Hm s).
  destruct (m s) as [[a|e] s1]; simpl in *.
  - destruct Hm as (Hh & Hd & t & Ht & Hc).
    destruct (Hk a s1) as (Hh' & (t' & Ht' & Hc') & Hr).
    split; [congruence|]. split.
    + exists (t ++ t'). rewrite Ht', Ht, app_assoc, captured_app, Hc, Hc'.
      split; reflexivity.
    + destruct (k a s1).1; rewrite <- ?Hh, <- Hd; exact Hr.
  - destruct Hm as (Hh & Hd & t & Ht & Hc).
    split; [exact Hh|]. split; [|exact Hd]. exists t. auto.
Qed.

Lemma snapshots_save w d :
  snapshots d (bind (save_dict_to_json w d temp_path) (fun _ => ret 1)).
Proof.
  intros s. unfold save_dict_to_json, external_unit, external, bind, modify, ret.
  destruct (raises w (ticks s)); simpl.
  - split; [reflexivity|]. split; [|reflexivity].
    eexists [_]. split; reflexivity.
  - split; [reflexivity|]. split; [|split; reflexivity].
    eexists [_]. split; reflexivity.
Qed.

Lemma fetch_all_cards_of_spec w d s r s' :
  separate d -> fetch_all_cards_of w d s = (r, s') ->
  exists dones shots,
    progress d dones shots s s' /\
    match (fetch_all_cards_try w d s).1 with
    | Ret _ => r = Ret 0 /\ shots = dones /\ disk s' = disk s
    | Raise _ =>
        match r with
        | Ret v => v = 1 /\
                   disk s' = <[temp_path := resolve (heap s') d]> (disk s)
        | Raise _ => disk s' = disk s
        end
    end.
Proof.
  intros Hsep. unfold fetch_all_cards_of, try_except.
  destruct (fetch_all_cards_try w d s) as [r1 s1] eqn:E.
  destruct (fetch_all_cards_try_spec _ _ _ _ _ Hsep E)
    as (dones & shots & Hp & Hd & Hr).
  assert (Hhandlers :
            forall h, snapshots d h -> h s1 = (r, s') ->
              progress d dones shots s s' /\
              match r with
              | Ret v => v = 1 /\
                         disk s' = <[temp_path := resolve (heap s') d]> (disk s)
              | Raise _ => disk s' = disk s
              end).
  { intros h Hh Hrun. specialize (Hh s1). rewrite Hrun in Hh. simpl in Hh.
    destruct Hh as (Hheap & (t & Ht & Hc) & Hres). split.
    - eapply progress_still_r; [exact Hp|].
      split; [exact Hheap|]. exists t. auto.
    - rewrite Hheap, <- Hd. exact Hres. }
  destruct r1 as [v|[]]; simpl.
  - destruct (init_session w 2560 1440 true s) as [[[]|e] ?];
      [destruct Hr as [[Hr ->]|Hr]; [|discriminate]|discriminate].
    injection Hr as ->. intros [= <- <-]. exists dones, dones. auto.
  - intros Hrun. exists dones, shots. eapply Hhandlers; [|exact Hrun].
    unfold print.
    repeat (apply snapshots_bind;
            [solve [solve_stable quiet not_screenshot]|intros _]).
    apply snapshots_save.
  - intros Hrun. exists dones, shots. eapply Hhandlers; [|exact Hrun].
    unfold print.
    repeat (apply snapshots_bind;
            [solve [solve_stable quiet not_screenshot]|intros _]).
    apply snapshots_save.
Qed.

(** ** Where an interrupt or an exception can come from *)

Lemma loading_guarded_guards start success failure steps :
  guards (loading start success failure (guarded steps)).
Proof.
  intros s. rewrite loading_guarded_result.
  destruct (guarded_result_cases (steps (printed start s)).1) as [->|[->| ->]];
    discriminate.
Qed.

Section Calm.

Variable w : world.
Hypothesis never_interrupted : forall n, raises w n <> Some KeyboardInterrupt.

Lemma calm_ret {A} (a : A) : calm (ret a).
Proof. intros s. discriminate. Qed.

Lemma calm_raise {A} : calm (@raise A PyException).
Proof. intros s. discriminate. Qed.

Lemma calm_gets {A} (f : state -> A) : calm (gets f).
Proof. intros s. discriminate. Qed.

Lemma calm_modify f : calm (modify f).
Proof. intros s. discriminate. Qed.

Lemma calm_bind {A B} (m : M A) (k : A -> M B) :
  calm m -> (forall a, calm (k a)) -> calm (bind m k).
Proof.
  intros Hm Hk s. unfold bind. specialize (Hm s).
  destruct (m s) as [[a|e] s1]; simpl in *; [apply Hk|congruence].
Qed.

Lemma calm_except_Exception {A} (body handler : M A) :
  calm body -> calm handler -> calm (except_Exception body handler).
Proof.
  intros Hb Hh s. unfold except_Exception. specialize (Hb s).
  destruct (body s) as [[a|[]] s1]; simpl in *;
    [discriminate|apply Hh|congruence].
Qed.

Lemma calm_external {A} c (answer : nat -> A) : calm (external w c answer).
Proof.
  intros s. unfold external. pose proof (never_interrupted (ticks s)) as H.
  destruct (raises w (ticks s)) as [[]|]; simpl; congruence.
Qed.

Lemma calm_checkpoint : calm (checkpoint w).
Proof.
  intros s. unfold checkpoint. pose proof (never_interrupted (ticks s)) as H.
  destruct (raises w (ticks s)) as [[]|]; simpl; congruence.
Qed.

Lemma calm_on_driver {A} (m : M A) : calm m -> calm (on_driver m).
Proof.
  intros Hm. apply calm_bind; [apply calm_gets|].
  intros [[]|]; [exact Hm|apply calm_raise].
Qed.

Lemma calm_loading start success failure body :
  calm body -> calm (loading start success failure body).
Proof. intros Hb s. rewrite loading_result. apply Hb. Qed.

Lemma calm_for_each {A} (l : list A) (body : A -> M Z) :
  (forall x, calm (body x)) -> calm (for_each l body).
Proof.
  intros Hb. induction l as [|x r IH]; simpl; [apply calm_ret|].
  apply calm_bind; [apply Hb|intros _; exact IH].
Qed.

Ltac calm_step :=
  first
    [ apply calm_ret | apply calm_raise | apply calm_gets | apply calm_modify
    | apply calm_loading | apply calm_external | apply calm_on_driver
    | apply calm_checkpoint
    | apply calm_except_Exception
    | apply calm_bind; [|intros ?]
    | match goal with
      | |- calm (match ?x with _ => _ end) => destruct x
      end ].

Lemma init_session_calm width height headless :
  calm (init_session w width height headless).
Proof. autounfold with scraper. repeat calm_step. Qed.

Lemma close_session_calm : calm (close_session w).
Proof. autounfold with scraper. repeat calm_step. Qed.

Lemma fetch_card_from_unit_calm faction unit :
  calm (fetch_card_from_unit w faction unit).
Proof. unfold fetch_card_from_unit, external_unit. repeat calm_step. Qed.

Lemma consume_units_calm d faction q : calm (consume_units w d faction q).
Proof.
  induction q as [|unit q IH]; simpl; [apply calm_ret|].
  apply calm_bind; [apply fetch_card_from_unit_calm|intros _].
  unfold subscript, deref, store. repeat calm_step. exact IH.
Qed.

Lemma fetch_all_cards_from_faction_logic_calm d faction :
  calm (fetch_all_cards_from_faction_logic w d faction).
Proof.
  unfold fetch_all_cards_from_faction_logic, guarded,
    fetch_all_cards_from_faction_logic_steps, subscript, deref.
  repeat calm_step. apply consume_units_calm.
Qed.

Lemma fetch_all_cards_try_calm d : calm (fetch_all_cards_try w d).
Proof.
  unfold fetch_all_cards_try, fetch_all_cards_logic, guarded.
  apply calm_bind; [apply init_session_calm|intros _].
  apply calm_bind; [|intros _].
  { repeat calm_step. apply calm_for_each. intros f.
    apply fetch_all_cards_from_faction_logic_calm. }
  apply calm_bind; [apply close_session_calm|intros _].
  apply calm_bind; [apply calm_checkpoint|intros _; apply calm_ret].
Qed.

End Calm.

Lemma fetch_all_cards_loaded w stored s d s0 :
  load_dictionary_if_exists w stored source_dir s = (Ret (Some d), s0) ->
  fetch_all_cards w stored s = fetch_all_cards_of w d s0.
Proof. intros H. unfold fetch_all_cards, bind. rewrite H. reflexivity. Qed.

Lemma loaded_separate w stored dir s d s0 :
  load_dictionary_if_exists w stored dir s = (Ret (Some d), s0) -> separate d.
Proof.
  intros H. apply load_dictionary_if_exists_spec in H.
  destruct H as (_ & _ & _ & items & _ & _ & ? & ? & _). split; assumption.
Qed.

(** ** Dictionary files written *)

Lemma alloc_same_disk v : stable same_disk (alloc v).
Proof. intros s. reflexivity. Qed.

Lemma store_same_disk l v : stable same_disk (store l v).
Proof. intros s. reflexivity. Qed.

Lemma load_dictionary_if_exists_same_disk w stored dir :
  stable same_disk (load_dictionary_if_exists w stored dir).
Proof.
  intros s. destruct (load_dictionary_if_exists w stored dir s) as [r s'] eqn:E.
  apply load_dictionary_if_exists_spec in E. apply E.
Qed.

Lemma fetch_card_from_unit_same_disk w faction unit :
  stable same_disk (fetch_card_from_unit w faction unit).
Proof. intros s. apply fetch_card_from_unit_captures. Qed.

Lemma consume_units_same_disk w d faction q :
  stable same_disk (consume_units w d faction q).
Proof.
  induction q as [|unit q IH]; simpl; [apply (stable_ret same_disk (fun _ => True))|].
  apply (stable_bind same_disk (fun _ => True));
    [apply fetch_card_from_unit_same_disk|intros _].
  unfold subscript, deref.
  repeat first [ apply store_same_disk | exact IH
               | stable_step same_disk (fun _ : event => True) ].
Qed.

Lemma fetch_all_cards_from_faction_logic_same_disk w d faction :
  stable same_disk (fetch_all_cards_from_faction_logic w d faction).
Proof.
  unfold fetch_all_cards_from_faction_logic,
    fetch_all_cards_from_faction_logic_steps, subscript, deref.
  repeat first [ apply consume_units_same_disk
               | stable_step same_disk (fun _ : event => True)
               | progress autounfold with scraper ].
Qed.

(** [fetch_all_cards_from_faction] writes no dictionary file. *)
Lemma fetch_all_cards_from_faction_same_disk w stored faction :
  stable same_disk (fetch_all_cards_from_faction w stored faction).
Proof.
  unfold fetch_all_cards_from_faction, fetch_faction_of.
  repeat first [ apply load_dictionary_if_exists_same_disk
               | apply fetch_all_cards_from_faction_logic_same_disk
               | stable_step same_disk (fun _ : event => True)
               | progress autounfold with scraper ].
Qed.

(** ** One faction of the loaded dictionary *)

Lemma assoc_get_Some_elem {V} (d : list (string * V)) k v :
  assoc_get d k = Some v -> (k, v) ∈ d.
Proof.
  induction d as [|[k' v'] d IH]; simpl; [discriminate|].
  destruct (decide (k' = k)) as [->|Hne].
  - intros [= ->]. left.
  - intros H. right. apply IH, H.
Qed.

Lemma NoDup_snd_key {V} (d : list (string * V)) a b v :
  NoDup (d.*2) -> (a, v) ∈ d -> (b, v) ∈ d -> a = b.
Proof.
  induction d as [|[k x] d IH]; simpl; intros Hnd Ha Hb; [inversion Ha|].
  apply NoDup_cons in Hnd as [Hx Hnd].
  assert (Hsnd : forall c, (c, v) ∈ d -> v ∈ d.*2).
  { intros c Hc. apply list_elem_of_fmap. exists (c, v). auto. }
  apply elem_of_cons in Ha as [Ha|Ha]; apply elem_of_cons in Hb as [Hb|Hb].
  - congruence.
  - injection Ha as -> ->. destruct Hx. eapply Hsnd, Hb.
  - injection Hb as -> ->. destruct Hx. eapply Hsnd, Ha.
  - apply IH; assumption.
Qed.

(** The lists of the other factions are not touched by what
    [fetch_all_cards_from_faction] does with the loaded dictionary. *)
Lemma fetch_faction_of_frame w loaded faction s other l :
  NoDup (loaded.*2) -> other <> faction -> assoc_get loaded other = Some l ->
  heap (fetch_faction_of w loaded faction s).2 !! l = heap s !! l.
Proof.
  intros Hnd Hne Hother. unfold fetch_faction_of.
  destruct (assoc_get loaded faction) as [lf|] eqn:Hf; [|reflexivity].
  assert (Hl : l <> lf).
  { intros ->. apply Hne.
    eapply NoDup_snd_key; eauto using assoc_get_Some_elem. }
  assert (Hget : assoc_get [(faction, lf)] faction = Some lf).
  { simpl. rewrite decide_True by reflexivity. reflexivity. }
  destruct (fetch_all_cards_from_faction_logic_spec w _ faction lf s Hget)
    as (done & rest & shot & (_ & _ & Hframe & _) & _).
  specialize (Hframe l Hl). unfold bind at 1.
  destruct (fetch_all_cards_from_faction_logic w _ faction s) as [[v|e] s1];
    simpl in *; [|exact Hframe].
  unfold bind. pose proof (close_session_quiet w s1) as (Hh & _).
  destruct (close_session w s1) as [[v'|e] s2]; simpl in *;
    rewrite Hh; exact Hframe.
Qed.

Lemma fetch_all_cards_from_faction_heap w stored faction s loaded s0 :
  bind (init_session w 2560 1440 true)
       (fun _ => load_dictionary_if_exists w stored source_dir) s
  = (Ret (Some loaded), s0) ->
  heap (fetch_all_cards_from_faction w stored faction s).2
  = heap (fetch_faction_of w loaded faction s0).2.
Proof.
  intros Hpre. unfold fetch_all_cards_from_faction, try_except.
  unfold bind at 1. unfold bind in Hpre.
  destruct (init_session w 2560 1440 true s) as [[[]|e] si]; [|discriminate].
  unfold bind at 1. rewrite Hpre.
  destruct (fetch_faction_of w loaded faction s0) as [[v|[]] s1]; simpl.
  - reflexivity.
  - match goal with
    | |- heap (?h s1).2 = _ =>
        assert (Hq : stable quiet h)
          by (solve_stable quiet not_screenshot); apply (Hq s1)
    end.
  - match goal with
    | |- heap (?h s1).2 = _ =>
        assert (Hq : stable quiet h)
          by (solve_stable quiet not_screenshot); apply (Hq s1)
    end.
Qed.

(** ** The snapshot and the loaded dictionary *)

Lemma resolve_keys h (d : pydict) : (resolve h d).*1 = d.*1.
Proof.
  induction d as [|[k l] d IH]; [reflexivity|].
  unfold resolve in *. simpl. f_equal. exact IH.
Qed.

Lemma progress_resolve h h' (d : pydict) dones :
  Forall2 (fun kl done => read_list h kl.2 = done ++ read_list h' kl.2)
          d dones ->
  resolve h d
  = zip_with (fun kr done => (kr.1, done ++ kr.2)) (resolve h' d) dones.
Proof.
  induction 1 as [|[k l] done d dones Hx _ IH]; simpl in *; [reflexivity|].
  rewrite Hx. f_equal. exact IH.
Qed.

Lemma progress_shots h h' (d : pydict) dones shots :
  Forall2 (fun kl done => read_list h kl.2 = done ++ read_list h' kl.2)
          d dones ->
  Forall3 (fun kl done shot => in_flight done (read_list h' kl.2) shot)
          d dones shots ->
  fronts (resolve h d) shots.
Proof.
  intros F X. revert F.
  induction X as [|[k l] done shot d dones shots Hx _ IH]; intros F;
    [constructor|].
  apply Forall2_cons in F as [Hl F].
  constructor; [|apply IH, F]. simpl in *. rewrite Hl.
  destruct Hx as [->| ->]; [eauto|].
  exists (drop 1 (read_list h' l)).
  rewrite <- app_assoc, take_drop. reflexivity.
Qed.

Lemma resolve_in_flight h' (d : pydict) dones shots :
  Forall3 (fun kl done shot => in_flight done (read_list h' kl.2) shot)
          d dones shots ->
  Forall3 (fun kr done shot => in_flight done kr.2 shot)
          (resolve h' d) dones shots.
Proof.
  induction 1 as [|[k l] done shot d dones shots Hx _ IH]; constructor;
    [exact Hx|exact IH].
Qed.

Lemma fronts_nothing (mapping : json) :
  fronts mapping ((fun _ => []) <$> mapping).
Proof.
  induction mapping as [|kr m IH]; constructor; [|exact IH].
  exists kr.2. reflexivity.
Qed.

Lemma cards_of_nothing_json (mapping : json) :
  cards_of (mapping.*1) ((fun _ => []) <$> mapping) = [].
Proof. induction mapping as [|kr m IH]; [reflexivity|exact IH]. Qed.

Lemma remaining_not_captured (done rest : list string) :
  NoDup (done ++ rest) ->
  forall unit, unit ∈ rest <-> unit ∈ done ++ rest /\ unit ∉ done.
Proof.
  intros Hnd unit. apply NoDup_app in Hnd as (_ & Hdisj & _).
  rewrite elem_of_app. split.
  - intros Hin. split; [right; exact Hin|]. intros Hd. exact (Hdisj _ Hd Hin).
  - intros [[Hd|Hr] Hno]; [destruct (Hno Hd)|exact Hr].
Qed.

(** Whatever [fetch_all_cards] captures is at the front of the sequences
    of the stored dictionary. *)
Lemma fetch_all_cards_fronts w stored s r s' items :
  stored (disk s) source_dir = Some items ->
  fetch_all_cards w stored s = (r, s') ->
  exists t shots,
    trace s' = trace s ++ t /\
    captured t = cards_of ((json_object items).*1) shots /\
    fronts (json_object items) shots.
Proof.
  intros Hst. unfold fetch_all_cards. unfold bind at 1.
  destruct (load_dictionary_if_exists w stored source_dir s) as [rl s0] eqn:El.
  pose proof El as Hspec. apply load_dictionary_if_exists_spec in Hspec.
  destruct Hspec as (_ & _ & (t0 & Ht0 & Hc0) & Hrl).
  destruct rl as [[d|]|e].
  - destruct Hrl as (items' & _ & Hst' & Hk & Hl & Hres).
    assert (items' = items) as -> by congruence.
    intros Hrun.
    destruct (fetch_all_cards_of_spec _ _ _ _ _ (conj Hk Hl) Hrun)
      as (dones & shots & (F & X & _ & _ & t & Ht & Hc) & _).
    exists (t0 ++ t), shots.
    split; [rewrite Ht, Ht0, app_assoc; reflexivity|].
    rewrite captured_app, Hc0, Hc, <- Hres, resolve_keys.
    split; [reflexivity|]. apply (progress_shots _ _ _ _ _ F X).
  - destruct Hrl as (_ & Hnone & _). congruence.
  - intros [= <- <-]. exists t0, ((fun _ => []) <$> json_object items).
    split; [exact Ht0|]. rewrite cards_of_nothing_json.
    split; [exact Hc0|apply fronts_nothing].
Qed.

(** ** The index file *)

Lemma bind_Ret_inv {A B} (m : M A) (k : A -> M B) s b s' :
  bind m k s = (Ret b, s') ->
  exists a s1, m s = (Ret a, s1) /\ k a s1 = (Ret b, s').
Proof.
  unfold bind. destruct (m s) as [[a|e] s1]; [eauto|discriminate].
Qed.

#[export] Instance same_index_preorder : PreOrder same_index.
Proof.
  split; [intros s; repeat split|].
  intros s1 s2 s3 (? & ? & ? & ?) (? & ? & ? & ?).
  repeat split; congruence.
Qed.

#[export] Instance same_index_frame : Frame same_index (fun _ => True).
Proof. split; try apply _; intros; repeat split. Qed.

Lemma close_session_same_index w : stable same_index (close_session w).
Proof. solve_stable same_index (fun _ : event => True). Qed.

#[export] Instance keeps_preorder keys : PreOrder (keeps keys).
Proof.
  split; [intros s; split; auto|].
  intros s1 s2 s3 [H1 K1] [H2 K2]. split; [congruence|auto].
Qed.

#[export] Instance keeps_frame keys : Frame (keeps keys) (fun _ => True).
Proof. split; try apply _; intros; split; auto. Qed.

Lemma fetch_units_names_from_faction_keeps w keys faction :
  faction ∈ keys ->
  stable (keeps keys) (fetch_units_names_from_faction w faction).
Proof.
  intros Hin. autounfold with scraper.
  repeat first
    [ stable_step (keeps keys) (fun _ : event => True)
    | match goal with
      | |- stable _ (alloc _) => intros s; split; auto
      | |- stable _ (modify _) =>
          intros s; split; [reflexivity|]; simpl; intros <-;
          apply assoc_set_keys, Hin
      end ].
Qed.

Lemma for_each_units_keeps w keys names :
  (forall k, k ∈ names -> k ∈ keys) ->
  stable (keeps keys) (for_each names (fetch_units_names_from_faction w)).
Proof.
  induction names as [|k names IH]; intros Hin; simpl.
  - apply (stable_ret _ (fun _ => True)).
  - apply (stable_bind _ (fun _ => True)).
    + apply fetch_units_names_from_faction_keeps, Hin. left.
    + intros _. apply IH. intros k' Hk'. apply Hin. right. exact Hk'.
Qed.

Lemma same_disk_modify f :
  (forall s, disk (f s) = disk s) -> stable same_disk (modify f).
Proof. intros H s. apply H. Qed.

Lemma fetch_factions_names_same_disk w : stable same_disk (fetch_factions_names w).
Proof. solve_stable same_disk (fun _ : event => True). Qed.

Lemma fetch_units_names_from_faction_same_disk w faction :
  stable same_disk (fetch_units_names_from_faction w faction).
Proof.
  autounfold with scraper.
  repeat first
    [ stable_step same_disk (fun _ : event => True)
    | apply alloc_same_disk
    | apply same_disk_modify; intros; reflexivity ].
Qed.

Lemma assoc_set_elem_keys {V} k (v : V) d k' :
  k' ∈ (assoc_set k v d).*1 <-> k' ∈ d.*1 \/ k' = k.
Proof.
  destruct (decide (k ∈ d.*1)) as [Hin|Hout].
  - rewrite (assoc_set_keys _ _ _ Hin). split; [auto|].
    intros [H| ->]; assumption.
  - rewrite (assoc_set_fresh _ _ _ Hout), fmap_app, elem_of_app. simpl.
    rewrite list_elem_of_singleton. reflexivity.
Qed.

Lemma init_dictionary_with_keys_from_spec keys :
  forall d s,
    exists d' s',
      init_dictionary_with_keys_from keys d s = (Ret d', s') /\
      (NoDup (d.*1) -> NoDup (d'.*1)) /\
      (forall k, k ∈ d'.*1 <-> k ∈ d.*1 \/ k ∈ keys) /\
      factions_names s' = factions_names s /\ disk s' = disk s.
Proof.
  induction keys as [|k keys IH]; intros d s; simpl.
  - exists d, s. split; [reflexivity|]. split; [auto|].
    split; [|auto]. intros k. rewrite elem_of_nil. tauto.
  - unfold bind, alloc.
    set (s1 := set_heap _ s). set (l := fresh _).
    destruct (IH (assoc_set k l d) s1) as (d' & s' & E & Hnd & Hk & Hn & Hd).
    exists d', s'. split; [exact E|].
    split; [intros H; apply Hnd, assoc_set_NoDup, H|].
    split; [|auto].
    intros k'. rewrite Hk, assoc_set_elem_keys, elem_of_cons. tauto.
Qed.

Lemma save_index_spec w s s' :
  save_index w s = (Ret tt, s') ->
  disk s' = <[index_path := resolve (heap s) (factions_dict s)]> (disk s) /\
  heap s' = heap s /\ factions_dict s' = factions_dict s /\
  factions_names s' = factions_names s.
Proof.
  unfold save_index, save_dict_to_json, external_unit, external, modify, gets,
    bind.
  destruct (raises w (ticks s)); [discriminate|].
  intros [= <-]. repeat split.
Qed.

Lemma build_index_spec w s s' :
  build_index w s = (Ret tt, s') ->
  disk s' = disk s /\ factions_names s' = factions_names s /\
  NoDup ((factions_dict s').*1) /\
  forall k, k ∈ (factions_dict s').*1 <-> k ∈ factions_names s.
Proof.
  unfold build_index. unfold bind at 1, gets at 1.
  unfold init_dictionary_with_keys. unfold bind at 1.
  destruct (init_dictionary_with_keys_from_spec (factions_names s) [] s)
    as (d & s1 & E & Hnd & Hk & Hn & Hd).
  rewrite E. unfold bind at 1, modify at 1. unfold bind at 1, gets at 1.
  simpl factions_names. rewrite Hn.
  set (s2 := set_factions_dict d s1). intros Hrun.
  pose proof (for_each_units_keeps w (d.*1) (factions_names s)
                (fun k Hin => proj2 (Hk k) (or_intror Hin)) s2) as [Hn2 Hk2].
  pose proof (stable_for_each same_disk (fun _ => True)
                (factions_names s) _
                (fetch_units_names_from_faction_same_disk w) s2) as Hd2.
  rewrite Hrun in *. simpl in *. unfold same_disk in Hd2. simpl in Hd2.
  split; [congruence|]. split; [congruence|].
  rewrite (Hk2 eq_refl). split; [apply Hnd; constructor|].
  intros k. rewrite Hk, elem_of_nil. tauto.
Qed.

Lemma close_handlers_return_1 w s v s' :
  close_on_interrupt w s = (Ret v, s') \/ close_on_exception w s = (Ret v, s') ->
  v = 1.
Proof.
  unfold close_on_interrupt, close_on_exception. intros [H|H].
  - apply bind_Ret_inv in H as (? & ? & _ & H).
    apply bind_Ret_inv in H as (? & ? & _ & H). injection H as <-. reflexivity.
  - apply bind_Ret_inv in H as (? & ? & _ & H).
    apply bind_Ret_inv in H as (? & ? & _ & H). injection H as <-. reflexivity.
Qed.

(** ** The units visited *)

Lemma removed_app done rest : removed (done ++ rest) rest = done.
Proof.
  unfold removed. rewrite length_app.
  replace (length done + length rest - length rest)%nat with (length done)
    by lia.
  apply take_app_length.
Qed.

Lemma tried_app done rest : tried (done ++ rest) rest = done ++ take 1 rest.
Proof.
  unfold tried. rewrite length_app.
  replace (length done + length rest - length rest)%nat with (length done)
    by lia.
  rewrite take_app, take_ge by lia.
  replace (S (length done) - length done)%nat with 1%nat by lia.
  reflexivity.
Qed.

Lemma first_raise_app w a b n :
  first_raise w n (a + b)
  = match first_raise w n a with
    | Some e => Some e
    | None => first_raise w (a + n) b
    end.
Proof.
  revert n. induction a as [|a IH]; intros n; simpl; [reflexivity|].
  destruct (raises w n); [reflexivity|].
  rewrite IH. replace (a + S n)%nat with (S (a + n)) by lia. reflexivity.
Qed.

Lemma fetch_card_from_unit_ticks w faction unit s s1 :
  driver s = Some tt ->
  fetch_card_from_unit w faction unit s = (Ret tt, s1) ->
  ticks s1 = (5 + ticks s)%nat.
Proof.
  intros Hd.
  unfold fetch_card_from_unit, on_driver, external_unit, external, gets, bind,
    raise.
  rewrite Hd. simpl.
  destruct (raises w (ticks s)); simpl; rewrite ?Hd; simpl; [discriminate|].
  destruct (raises w (S (ticks s))); simpl; [discriminate|].
  destruct (raises w (S (S (ticks s)))); simpl; [discriminate|].
  destruct (raises w (S (S (S (ticks s))))); simpl; [discriminate|].
  destruct (raises w (S (S (S (S (ticks s)))))); [discriminate|].
  intros [= <-]. reflexivity.
Qed.

Lemma checkpoint_passes w s :
  raises w (ticks s) <> Some KeyboardInterrupt ->
  checkpoint w s = (Ret tt, s).
Proof.
  intros H. destruct (checkpoint_cases w s) as [Hc|(Hr & _)];
    [exact Hc|congruence].
Qed.

Lemma first_raise_calm w n k :
  first_raise w n k <> Some KeyboardInterrupt -> (0 < k)%nat ->
  raises w n <> Some KeyboardInterrupt.
Proof.
  destruct k as [|k]; [lia|]. simpl. intros H _.
  destruct (raises w n); congruence.
Qed.

(** The loop stops at the first capture that raises an [Exception], with
    its unit and the units after it in the list. *)
Lemma consume_units_stops w d faction l unit rest :
  assoc_get d faction = Some l ->
  forall done s,
    driver s = Some tt ->
    read_list (heap s) l = done ++ unit :: rest ->
    first_raise w (ticks s) (5 * length done) = None ->
    first_raise w (5 * length done + ticks s) 5 = Some PyException ->
    (consume_units w d faction (done ++ unit :: rest) s).1 = Raise PyException /\
    read_list (heap (consume_units w d faction (done ++ unit :: rest) s).2) l
    = unit :: rest.
Proof.
  intros Hl done. induction done as [|u done IH]; intros s Hd Hq Hok Hbad.
  - change (5 * length [] + ticks s)%nat with (ticks s) in Hbad.
    change ([] ++ unit :: rest) with (unit :: rest) in *.
    pose proof (fetch_card_from_unit_result w faction unit s) as Hr.
    destruct (fetch_card_from_unit_spec w faction unit s) as (Hh & _).
    rewrite Hd, Hbad in Hr.
    destruct (fetch_card_from_unit w faction unit s) as [r s1] eqn:E.
    simpl in Hr, Hh. subst r.
    assert (Hstep : consume_units w d faction (unit :: rest) s
                    = (Raise PyException, s1)).
    { simpl. unfold bind at 1. rewrite E. reflexivity. }
    rewrite Hstep. simpl. rewrite Hh. auto.
  - replace (5 * length (u :: done))%nat with (5 + 5 * length done)%nat in *
      by (simpl; lia).
    rewrite first_raise_app in Hok.
    destruct (first_raise w (ticks s) 5) eqn:H5; [discriminate|].
    pose proof (fetch_card_from_unit_result w faction u s) as Hr.
    destruct (fetch_card_from_unit_spec w faction u s) as (Hh & _ & Hdr & _).
    rewrite Hd, H5 in Hr.
    destruct (fetch_card_from_unit w faction u s) as [r s1] eqn:E.
    simpl in Hr, Hh, Hdr. subst r.
    pose proof (fetch_card_from_unit_ticks _ _ _ _ _ Hd E) as Ht.
    replace (5 + 5 * length done + ticks s)%nat
      with (5 * length done + (5 + ticks s))%nat in Hbad by lia.
    assert (Hc : checkpoint w s1 = (Ret tt, s1)).
    { apply checkpoint_passes. rewrite Ht. destruct done as [|u' done].
      - apply (first_raise_calm w _ 5); [|lia].
        change (5 * length [] + (5 + ticks s))%nat with (5 + ticks s)%nat
          in Hbad.
        rewrite Hbad. discriminate.
      - apply (first_raise_calm w _ (5 * length (u' :: done)));
          [rewrite Hok; discriminate|simpl; lia]. }
    change ((u :: done) ++ unit :: rest) with (u :: (done ++ unit :: rest))
      in *.
    rewrite (consume_units_step w d faction l u (done ++ unit :: rest) s s1
               Hl Hq E Hh Hc).
    apply IH.
    + simpl. congruence.
    + apply read_list_insert.
    + simpl ticks. rewrite Ht. exact Hok.
    + simpl ticks. rewrite Ht. exact Hbad.
Qed.

(** Without an interrupt, the loop over the factions goes through all of
    them: in each it visits the units that it removes and the first that
    it leaves. *)
Lemma for_each_factions_tour w d entries :
  (forall n, raises w n <> Some KeyboardInterrupt) ->
  linked d entries -> NoDup (entries.*2) ->
  forall s r s',
    driver s = Some tt ->
    for_each (entries.*1) (fetch_all_cards_from_faction_logic w d) s = (r, s') ->
    r = Ret tt /\
    (forall l', l' ∉ entries.*2 -> heap s' !! l' = heap s !! l') /\
    Forall (fun kl =>
              read_list (heap s) kl.2
              = removed (read_list (heap s) kl.2) (read_list (heap s') kl.2)
                ++ read_list (heap s') kl.2) entries /\
    exists t,
      trace s' = trace s ++ t /\
      captured t
      = cards_of (entries.*1)
          ((fun kl => removed (read_list (heap s) kl.2)
                              (read_list (heap s') kl.2)) <$> entries) /\
      visited t
      = pages_of (entries.*1)
          ((fun kl => tried (read_list (heap s) kl.2)
                            (read_list (heap s') kl.2)) <$> entries).
Proof.
  intros Hcalm.
  induction entries as [|[k l] entries IH]; intros Hlink Hnd s r s' Hdrv.
  - simpl. intros [= <- <-]. split; [reflexivity|]. split; [reflexivity|].
    split; [constructor|]. exists []. rewrite app_nil_r. auto.
  - apply Forall_cons in Hlink as [Hl Hlink]. simpl in Hl, Hnd.
    apply NoDup_cons in Hnd as [Hfresh Hnd].
    change (for_each (((k, l) :: entries).*1)
                     (fetch_all_cards_from_faction_logic w d) s)
      with (bind (fetch_all_cards_from_faction_logic w d k)
                 (fun _ => for_each (entries.*1)
                             (fetch_all_cards_from_faction_logic w d)) s).
    unfold bind.
    destruct (fetch_all_cards_from_faction_logic_spec w d k l s Hl)
      as (done & rest & shot & Hcons & Hres).
    pose proof (fetch_all_cards_from_faction_logic_calm w Hcalm d k s) as Hc.
    destruct (fetch_all_cards_from_faction_logic w d k s) as [[v|e] s1];
      simpl in Hcons, Hres, Hc.
    2:{ destruct Hres as [-> _]. congruence. }
    destruct Hres as [-> _].
    destruct Hcons as (H1 & H2 & H3 & _ & H5 & t & Ht & Hcap & Hvis).
    intros Hrun.
    destruct (IH Hlink Hnd s1 r s' ltac:(congruence) Hrun)
      as (-> & G & F & t' & Ht' & Hcap' & Hvis').
    assert (Hsame : forall kl, kl ∈ entries ->
              read_list (heap s1) kl.2 = read_list (heap s) kl.2).
    { intros [k' l'] Hin. simpl. unfold read_list. rewrite H3; [reflexivity|].
      intros ->. apply Hfresh. apply list_elem_of_fmap. exists (k', l). auto. }
    assert (Hl' : read_list (heap s') l = rest).
    { unfold read_list. rewrite (G l Hfresh). exact H2. }
    split; [reflexivity|]. split.
    { intros l' Hl0. apply not_elem_of_cons in Hl0 as [Hne Hl0].
      rewrite (G l' Hl0). apply H3, Hne. }
    split.
    { constructor.
      - simpl. rewrite Hl', H1, removed_app. reflexivity.
      - apply Forall_forall. intros kl Hin.
        rewrite Forall_forall in F. specialize (F kl Hin).
        rewrite (Hsame kl Hin) in F. exact F. }
    exists (t ++ t'). rewrite Ht', Ht, app_assoc.
    split; [reflexivity|].
    assert (Hmap : forall (f : list string -> list string -> list string),
              (fun kl : string * loc =>
                 f (read_list (heap s1) kl.2) (read_list (heap s') kl.2))
                <$> entries
              = (fun kl => f (read_list (heap s) kl.2)
                             (read_list (heap s') kl.2)) <$> entries).
    { intros f. apply list_fmap_ext. intros i kl Hi. simpl.
      rewrite (Hsame kl); [reflexivity|].
      eapply list_elem_of_lookup_2, Hi. }
    rewrite captured_app, visited_app, Hcap, Hcap', (Hvis Hdrv), Hvis'.
    rewrite !Hmap.
    change (cards_of (((k, l) :: entries).*1) ?x)
      with (cards_of (k :: entries.*1) x).
    simpl fmap. unfold cards_of, pages_of. simpl.
    rewrite Hl', H1, removed_app, tried_app. auto.
Qed.

(** * The claims *)



(** C2, as stated, fails.  Interrupted between the capture of ["boyz"] and
    its removal from the list, the run has taken the screenshot of
    ["boyz"] and persists a snapshot that still holds ["boyz"]; the run
    that loads this snapshot captures it again.  So does a run
    interrupted in the navigation of the second capture of a unit that
    the sequence names twice. *)
Lemma snapshot_keeps_captured_unit :
  let first := fetch_all_cards (interrupting_world 16) persisted_index
                 (init_state indexed_disk) in
  let again := fetch_all_cards calm_world resume_snapshot
                 (init_state (disk first.2)) in
  let twice := fetch_all_cards (failing_world 16 false KeyboardInterrupt)
                 persisted_index (init_state repeated_disk) in
  let retry := fetch_all_cards calm_world resume_snapshot
                 (init_state (disk twice.2)) in
  (first.1 = Ret 1 /\
   captured (trace first.2) = [card_file "orks" "boyz"] /\
   disk first.2 !! temp_path
   = Some [("orks", ["boyz"; "nobz"]); ("necrons", ["warriors"])] /\
   In (card_file "orks" "boyz") (captured (trace again.2))) /\
  (twice.1 = Ret 1 /\
   captured (trace twice.2) = [card_file "orks" "boyz"] /\
   disk twice.2 !! temp_path = Some [("orks", ["boyz"])] /\
   captured (trace retry.2) = [card_file "orks" "boyz"]).
Proof. vm_compute. intuition. Qed.

(** C2, amended.  When [fetch_all_cards] has loaded the stored dictionary
    and returns [1], the file [temp] holds a snapshot with the factions of
    the loaded dictionary, in which the sequence of each faction is what
    remains of the loaded one after the front [done] of the units that
    were removed.  Every unit removed was captured: the screenshots taken
    are, faction by faction, those of [done] and at most that of the first
    unit persisted, and in all at most one screenshot more than units
    removed.  Where the loaded sequence names no unit twice, the units
    persisted are exactly its units that were not removed.  A run that
    starts on the files that this one has left and loads the snapshot
    captures units of the snapshot only, from the front of its
    sequences. *)
Theorem snapshot_holds_remaining w stored s s' items :
  stored (disk s) source_dir = Some items ->
  fetch_all_cards w stored s = (Ret 1, s') ->
  exists snap dones shots t,
    disk s' !! temp_path = Some snap /\
    trace s' = trace s ++ t /\
    json_object items
    = zip_with (fun kr done => (kr.1, done ++ kr.2)) snap dones /\
    captured t = cards_of (snap.*1) shots /\
    Forall3 (fun kr done shot => in_flight done kr.2 shot) snap dones shots /\
    (length (concat shots) <= S (length (concat dones)))%nat /\
    Forall2 (fun kr done =>
               NoDup (done ++ kr.2) ->
               forall unit, unit ∈ kr.2 <-> unit ∈ done ++ kr.2 /\ unit ∉ done)
            snap dones /\
    forall w2 s2 r2 s2',
      disk s2 = disk s' ->
      fetch_all_cards w2 resume_snapshot s2 = (r2, s2') ->
      exists t2 shots2,
        trace s2' = trace s2 ++ t2 /\
        captured t2 = cards_of (snap.*1) shots2 /\
        fronts snap shots2.
Proof.
  intros Hst Hrun. unfold fetch_all_cards in Hrun. unfold bind at 1 in Hrun.
  destruct (load_dictionary_if_exists w stored source_dir s) as [rl s0] eqn:El.
  pose proof El as Hspec. apply load_dictionary_if_exists_spec in Hspec.
  destruct Hspec as (Hd0 & _ & (t0 & Ht0 & Hc0) & Hrl).
  destruct rl as [[d|]|e]; [| |discriminate].
  2:{ destruct Hrl as (_ & Hnone & _). congruence. }
  destruct Hrl as (items' & _ & Hst' & Hk & Hl & Hres).
  assert (items' = items) as -> by congruence.
  destruct (fetch_all_cards_of_spec _ _ _ _ _ (conj Hk Hl) Hrun)
    as (dones & shots & (F & X & N & _ & t & Ht & Hc) & Hof).
  assert (Hdisk : disk s' = <[temp_path := resolve (heap s') d]> (disk s0)).
  { destruct (fetch_all_cards_try w d s0).1; [|apply Hof].
    destruct Hof; discriminate. }
  exists (resolve (heap s') d), dones, shots, (t0 ++ t).
  split; [rewrite Hdisk; apply lookup_insert_eq|].
  split; [rewrite Ht, Ht0, app_assoc; reflexivity|].
  split; [rewrite <- Hres; apply progress_resolve, F|].
  split; [rewrite captured_app, Hc0, Hc, resolve_keys; reflexivity|].
  split; [apply resolve_in_flight, X|]. split; [exact N|].
  split.
  - clear -F. induction F as [|[k l] done d dones _ _ IH]; constructor;
      [|exact IH].
    simpl. apply remaining_not_captured.
  - intros w2 s2 r2 s2' Hd2 Hrun2.
    assert (Hst2 : resume_snapshot (disk s2) source_dir
                   = Some (resolve (heap s') d)).
    { unfold resume_snapshot. rewrite Hd2, Hdisk. apply lookup_insert_eq. }
    destruct (fetch_all_cards_fronts _ _ _ _ _ _ Hst2 Hrun2)
      as (t2 & shots2 & Ht2 & Hc2 & Hf2).
    rewrite json_object_id in Hc2, Hf2 by (rewrite resolve_keys; exact Hk).
    exists t2, shots2. auto.
Qed.

Lemma snapshot_holds_remaining_witness :
  let run := fetch_all_cards (interrupting_world 16) resume_snapshot
               (init_state resumable_disk) in
  exists snap dones shots t,
    disk run.2 !! temp_path = Some snap /\
    trace run.2 = trace (init_state resumable_disk) ++ t /\
    json_object [("orks", ["nobz"])]
    = zip_with (fun kr done => (kr.1, done ++ kr.2)) snap dones /\
    captured t = cards_of (snap.*1) shots /\
    Forall3 (fun kr done shot => in_flight done kr.2 shot) snap dones shots /\
    (length (concat shots) <= S (length (concat dones)))%nat /\
    Forall2 (fun kr done =>
               NoDup (done ++ kr.2) ->
               forall unit, unit ∈ kr.2 <-> unit ∈ done ++ kr.2 /\ unit ∉ done)
            snap dones /\
    forall w2 s2 r2 s2',
      disk s2 = disk run.2 ->
      fetch_all_cards w2 resume_snapshot s2 = (r2, s2') ->
      exists t2 shots2,
        trace s2' = trace s2 ++ t2 /\
        captured t2 = cards_of (snap.*1) shots2 /\
        fronts snap shots2.
Proof.
  intros run.
  apply (snapshot_holds_remaining (interrupting_world 16) resume_snapshot
           (init_state resumable_disk) run.2 [("orks", ["nobz"])]).
  - reflexivity.
  - vm_compute. reflexivity.
Defined.

(** C3, as stated, fails for [fetch_all_cards_from_faction]: interrupted
    in a capture, it returns [1] and no file [temp] is written. *)
Lemma no_snapshot_written :
  let one := fetch_all_cards_from_faction
               (failing_world 11 false KeyboardInterrupt)
               persisted_index "orks" (init_state indexed_disk) in
  one.1 = Ret 1 /\
  In (Failed (DriverGet (card_url "orks" "boyz")) KeyboardInterrupt)
     (trace one.2) /\
  disk one.2 !! temp_path = None.
Proof. vm_compute. intuition. Qed.

(** C3, amended.  Once [fetch_all_cards] has loaded the dictionary: when
    its [try] block raises, that is when the user interrupts it or an
    [Exception] reaches its handler, and the method returns, it returns
    [1] and the dictionary file [temp], which is not the file [index],
    holds the dictionary as the lists are then, the other dictionary files
    being those of the start; a run that returns [1] is such a run.
    [fetch_all_cards_from_faction] writes no dictionary file. *)
Theorem snapshot_on_interrupt w stored s d s0 r s' :
  load_dictionary_if_exists w stored source_dir s = (Ret (Some d), s0) ->
  fetch_all_cards w stored s = (r, s') ->
  temp_path <> index_path /\
  (forall e, (fetch_all_cards_try w d s0).1 = Raise e ->
     (r = Ret 1 /\
      disk s' = <[temp_path := resolve (heap s') d]> (disk s)) \/
     (exists e', r = Raise e' /\ disk s' = disk s)) /\
  (r = Ret 1 ->
   (exists e, (fetch_all_cards_try w d s0).1 = Raise e) /\
   disk s' = <[temp_path := resolve (heap s') d]> (disk s)) /\
  forall faction,
    disk (fetch_all_cards_from_faction w stored faction s).2 = disk s.
Proof.
  intros Hload Hrun.
  split; [discriminate|].
  pose proof (loaded_separate _ _ _ _ _ _ Hload) as Hsep.
  rewrite (fetch_all_cards_loaded _ _ _ _ _ Hload) in Hrun.
  assert (Hd : disk s0 = disk s)
    by (apply load_dictionary_if_exists_spec in Hload; apply Hload).
  destruct (fetch_all_cards_of_spec _ _ _ _ _ Hsep Hrun)
    as (dones & shots & _ & Hof).
  rewrite <- Hd.
  split; [|split; [|intros; rewrite Hd;
                     apply fetch_all_cards_from_faction_same_disk]].
  - intros e He. rewrite He in Hof.
    destruct r as [v|e']; [left|right; eauto].
    destruct Hof as [-> ?]. auto.
  - intros Hr. subst r.
    destruct (fetch_all_cards_try w d s0).1 as [v1|e1];
      [destruct Hof; discriminate|].
    split; [eauto|apply Hof].
Qed.

Lemma snapshot_on_interrupt_witness :
  let w := interrupting_world 16 in
  let d := [("orks", 0%nat); ("necrons", 1%nat)] in
  let run := fetch_all_cards w persisted_index (init_state indexed_disk) in
  (exists e, (fetch_all_cards_try w d
                (load_dictionary_if_exists w persisted_index source_dir
                   (init_state indexed_disk)).2).1 = Raise e) /\
  disk run.2 = <[temp_path := resolve (heap run.2) d]> indexed_disk.
Proof.
  intros w d run.
  apply (proj1 (proj2 (proj2
           (snapshot_on_interrupt w persisted_index (init_state indexed_disk)
              d (load_dictionary_if_exists w persisted_index source_dir
                   (init_state indexed_disk)).2 run.1 run.2
              ltac:(vm_compute; reflexivity) ltac:(vm_compute; reflexivity))))).
  vm_compute. reflexivity.
Defined.




(** C5. [fetch_all_cards] and [fetch_all_cards_from_faction] take their
    work queue from the stored dictionary.  When there is none, each prints
    the message and returns [1], and no screenshot was taken.  When there
    is one, the lists of the loaded dictionary are those of the stored one;
    [fetch_all_cards] works on it, and [fetch_all_cards_from_faction]
    prints its message and returns [1] when the faction is not a key, and
    otherwise works on the dictionary of that one faction, with the list
    of the loaded dictionary. *)
Theorem queue_from_stored_index w stored faction s c s0 :
  (load_dictionary_if_exists w stored source_dir s = (Ret c, s0) ->
   match c with
   | None =>
       stored (disk s) source_dir = None /\
       fetch_all_cards w stored s = (Ret 1, printed no_dictionary_msg s0) /\
       trace s0 = trace s ++ [Done (LoadJson source_dir)]
   | Some d =>
       exists items,
         stored (disk s) source_dir = Some items /\
         resolve (heap s0) d = json_object items /\
         fetch_all_cards w stored s = fetch_all_cards_of w d s0
   end) /\
  (bind (init_session w 2560 1440 true)
        (fun _ => load_dictionary_if_exists w stored source_dir) s
   = (Ret c, s0) ->
   match c with
   | None =>
       stored (disk s) source_dir = None /\
       fetch_all_cards_from_faction w stored faction s
       = (Ret 1, printed no_dictionary_msg s0) /\
       exists t, trace s0 = trace s ++ t /\ captured t = []
   | Some loaded =>
       exists items,
         stored (disk s) source_dir = Some items /\
         resolve (heap s0) loaded = json_object items /\
         match assoc_get loaded faction with
         | None =>
             fetch_all_cards_from_faction w stored faction s
             = (Ret 1, printed no_faction_msg s0)
         | Some l =>
             fetch_all_cards_from_faction w stored faction s
             = try_except
                 (fetch_all_cards_from_faction_logic w [(faction, l)] faction ;;;
                  close_session w ;;;
                  ret 0)
                 (close_on_interrupt w) (close_on_exception w) s0
         end
   end).
Proof.
  split.
  - intros Hload. pose proof Hload as Hspec.
    apply load_dictionary_if_exists_spec in Hspec.
    destruct Hspec as (_ & _ & _ & Hc).
    destruct c as [d|].
    + destruct Hc as (items & _ & Hst & _ & _ & Hres).
      exists items. split; [exact Hst|]. split; [exact Hres|].
      apply fetch_all_cards_loaded, Hload.
    + destruct Hc as (_ & Hst & _ & Ht).
      split; [exact Hst|]. split; [|exact Ht].
      unfold fetch_all_cards, bind. rewrite Hload. reflexivity.
  - intros Hpre. unfold bind in Hpre.
    pose proof (init_session_quiet w 2560 1440 true s) as Hq.
    destruct (init_session w 2560 1440 true s) as [[[]|e] si] eqn:Ei;
      [|discriminate].
    simpl in Hq. destruct Hq as (_ & Hd & t & Ht & Hcap).
    pose proof Hpre as Hspec. apply load_dictionary_if_exists_spec in Hspec.
    destruct Hspec as (_ & _ & (t' & Ht' & Hcap') & Hc).
    assert (Hrun : fetch_all_cards_from_faction w stored faction s
                   = try_except
                       match c with
                       | None => print no_dictionary_msg ;;; ret 1
                       | Some loaded => fetch_faction_of w loaded faction
                       end
                       (close_on_interrupt w) (close_on_exception w) s0).
    { unfold fetch_all_cards_from_faction, try_except.
      unfold bind at 1. rewrite Ei. unfold bind at 1. rewrite Hpre.
      reflexivity. }
    rewrite Hrun. rewrite Hd in Hc. destruct c as [loaded|].
    + destruct Hc as (items & _ & Hst & _ & _ & Hres).
      exists items. split; [exact Hst|]. split; [exact Hres|].
      unfold fetch_faction_of.
      destruct (assoc_get loaded faction); reflexivity.
    + destruct Hc as (_ & Hst & _ & _). split; [exact Hst|].
      split; [reflexivity|].
      exists (t ++ t'). rewrite Ht', Ht, app_assoc, captured_app, Hcap, Hcap'.
      split; reflexivity.
Qed.

Lemma queue_from_stored_index_witness :
  let run := fetch_all_cards calm_world persisted_index (init_state ∅) in
  persisted_index ∅ source_dir = None /\
  run = (Ret 1, printed no_dictionary_msg
                  (load_dictionary_if_exists calm_world persisted_index
                     source_dir (init_state ∅)).2) /\
  trace (load_dictionary_if_exists calm_world persisted_index source_dir
           (init_state ∅)).2
  = [Done (LoadJson source_dir)].
Proof.
  intros run.
  apply (proj1 (queue_from_stored_index calm_world persisted_index "orks"
                  (init_state ∅) None
                  (load_dictionary_if_exists calm_world persisted_index
                     source_dir (init_state ∅)).2)).
  vm_compute. reflexivity.
Defined.

(** C6.  [fetch_indexes] on a new scraper, over the index of an earlier
    run, in the world of the catalogue: when no call raises, it returns
    [0] and the index is the catalogue, the two factions of the menu with
    the unit of their tooltip.  When the wait for the menu raises an
    [Exception], [fetch_factions_names] reports the failure, and
    [fetch_indexes] still returns [0] and has put an empty index in the
    place of the earlier one.  When the wait for the button of the first
    faction raises, [fetch_units_names_from_faction] reports the failure,
    and [fetch_indexes] still returns [0], with an index in which that
    faction has no unit. *)
Theorem fetch_indexes_saves_failed_enumeration :
  let full := fetch_indexes catalogue_world (init_state stale_disk) in
  let lost := fetch_indexes (broken_catalogue 14) (init_state stale_disk) in
  let holed := fetch_indexes (broken_catalogue 19) (init_state stale_disk) in
  (full.1 = Ret 0 /\
   disk full.2 !! index_path
   = Some [("orks", ["Boyz"]); ("necrons", ["Boyz"])]) /\
  (lost.1 = Ret 0 /\
   In (Failed (WaitPresence menu_xpath) PyException) (trace lost.2) /\
   In (Print "Failed to fetch factions names.") (trace lost.2) /\
   disk lost.2 !! index_path = Some []) /\
  (holed.1 = Ret 0 /\
   In (Failed (WaitPresence (id_xpath "btnArmyList")) PyException)
      (trace holed.2) /\
   In (Print "Failed to fetch units names from their faction names.")
      (trace holed.2) /\
   disk holed.2 !! index_path = Some [("orks", []); ("necrons", ["Boyz"])]).
Proof. vm_compute. intuition. Qed.



(** C8. Every name that [get_names_from_html] returns is the part of the
    [href] of a link of the element after the last ['/'] of that [href],
    and ["datasheets.html"] is not among the names returned. *)
Theorem get_names_from_html_names w html s names s' :
  get_names_from_html w html s = (Ret names, s') ->
  ~ In "datasheets.html" names /\
  forall name, In name names ->
    exists link href,
      In link (anchors_of html) /\ href_of link = Some href /\
      after_last_slash href name.
Proof.
  unfold get_names_from_html, bind at 1, external.
  destruct (raises w (ticks s)); [discriminate|].
  unfold bind at 1.
  destruct (get_attributes w _ _) as [[hrefs|e] s1] eqn:E; [|discriminate].
  apply get_attributes_Ret in E. subst hrefs.
  destruct (split_names _) as [all|] eqn:Hall; [|discriminate].
  intros [= <- _]. split.
  - rewrite <- list_elem_of_In, list_elem_of_filter. tauto.
  - intros name Hin.
    apply list_elem_of_In, list_elem_of_filter in Hin as [_ Hin].
    apply list_elem_of_In in Hin.
    destruct (split_names_In _ _ _ Hall Hin) as (href & Hh & ->).
    apply in_map_iff in Hh as (link & Hl & Hin').
    exists link, href. split; [exact Hin'|]. split; [exact Hl|].
    apply last_segment_after_last_slash.
Qed.

Lemma get_names_from_html_names_witness :
  ~ In "datasheets.html" ["Boyz"] /\
  forall name, In name ["Boyz"] ->
    exists link href,
      In link (anchors_of orks_menu) /\ href_of link = Some href /\
      after_last_slash href name.
Proof.
  apply (get_names_from_html_names calm_world orks_menu (init_state ∅) ["Boyz"]
           (get_names_from_html calm_world orks_menu (init_state ∅)).2).
  vm_compute. reflexivity.
Defined.

(** C9. [fetch_all_cards_from_faction] writes no dictionary file, hence no
    resume snapshot; and once it has loaded the dictionary, it consumes the entry
    of the requested faction only: the list of every other faction of the
    loaded dictionary is at the end what it was when loaded. *)
Theorem other_factions_unchanged w stored faction s :
  disk (fetch_all_cards_from_faction w stored faction s).2 = disk s /\
  forall loaded s0,
    bind (init_session w 2560 1440 true)
         (fun _ => load_dictionary_if_exists w stored source_dir) s
    = (Ret (Some loaded), s0) ->
    forall other l,
      other <> faction -> assoc_get loaded other = Some l ->
      read_list (heap (fetch_all_cards_from_faction w stored faction s).2) l
      = read_list (heap s0) l.
Proof.
  split; [apply fetch_all_cards_from_faction_same_disk|].
  intros loaded s0 Hpre other l Hne Hother.
  rewrite (fetch_all_cards_from_faction_heap _ _ _ _ _ _ Hpre).
  unfold read_list. f_equal.
  apply fetch_faction_of_frame with (other := other); [|exact Hne|exact Hother].
  unfold bind in Hpre.
  destruct (init_session w 2560 1440 true s) as [[[]|e] si]; [|discriminate].
  apply (loaded_separate _ _ _ _ _ _ Hpre).
Qed.

Lemma other_factions_unchanged_witness :
  let w := failing_world 18 false KeyboardInterrupt in
  let run := fetch_all_cards_from_faction w persisted_index "orks"
               (init_state indexed_disk) in
  read_list (heap run.2) 1%nat = ["warriors"].
Proof.
  intros w run.
  apply (proj2 (other_factions_unchanged w persisted_index "orks"
                  (init_state indexed_disk))
               [("orks", 0%nat); ("necrons", 1%nat)]
               (bind (init_session w 2560 1440 true)
                     (fun _ => load_dictionary_if_exists w persisted_index
                                 source_dir)
                     (init_state indexed_disk)).2
               ltac:(vm_compute; reflexivity)
               "necrons" 1%nat).
  - discriminate.
  - reflexivity.
Defined.

(** C10. A capture that fails with an [Exception] makes
    [fetch_all_cards_from_faction_logic] return [1], never raise it: when
    the captures of the first units of a list return and a call of the
    next capture raises an [Exception], the method returns [1] and the
    list holds that unit and the ones after it.  [fetch_all_cards_logic]
    drops that value and goes on with the next faction: in a world
    without interrupts it returns [0] and has visited, in every faction of
    the dictionary, the units that it removed and the first that it left.
    Hence, once the dictionary is loaded and the session initialised,
    [fetch_all_cards] returns [0] in a world without interrupts, whatever
    captures fail; and when it returns [1], either [init_session] raised
    or the [try] block was interrupted. *)
Theorem capture_failures_return_0 w stored s d s0 :
  load_dictionary_if_exists w stored source_dir s = (Ret (Some d), s0) ->
  (forall faction l done unit rest s1,
     assoc_get d faction = Some l -> driver s1 = Some tt ->
     read_list (heap s1) l = done ++ unit :: rest ->
     first_raise w (ticks s1) (5 * length done) = None ->
     first_raise w (5 * length done + ticks s1) 5 = Some PyException ->
     (fetch_all_cards_from_faction_logic w d faction s1).1 = Ret 1 /\
     read_list (heap (fetch_all_cards_from_faction_logic w d faction s1).2) l
     = unit :: rest) /\
  (forall faction s1,
     (fetch_all_cards_from_faction_logic w d faction s1).1
     <> Raise PyException) /\
  ((forall n, raises w n <> Some KeyboardInterrupt) ->
   forall s1 r s2,
     driver s1 = Some tt ->
     fetch_all_cards_logic w d s1 = (r, s2) ->
     r = Ret 0 /\
     Forall (fun kl =>
               read_list (heap s1) kl.2
               = removed (read_list (heap s1) kl.2) (read_list (heap s2) kl.2)
                 ++ read_list (heap s2) kl.2) d /\
     exists t,
       trace s2 = trace s1 ++ t /\
       captured t
       = cards_of (d.*1)
           ((fun kl => removed (read_list (heap s1) kl.2)
                               (read_list (heap s2) kl.2)) <$> d) /\
       visited t
       = pages_of (d.*1)
           ((fun kl => tried (read_list (heap s1) kl.2)
                             (read_list (heap s2) kl.2)) <$> d)) /\
  ((forall n, raises w n <> Some KeyboardInterrupt) ->
   (exists s1, init_session w 2560 1440 true s0 = (Ret tt, s1)) ->
   (fetch_all_cards w stored s).1 = Ret 0) /\
  ((fetch_all_cards w stored s).1 = Ret 1 ->
   (exists e s1, init_session w 2560 1440 true s0 = (Raise e, s1)) \/
   (fetch_all_cards_try w d s0).1 = Raise KeyboardInterrupt).
Proof.
  intros Hload.
  pose proof (loaded_separate _ _ _ _ _ _ Hload) as Hsep.
  rewrite (fetch_all_cards_loaded _ _ _ _ _ Hload).
  split.
  { intros faction l done unit rest s1 Hl Hdrv Hq Hok Hbad.
    rewrite (fetch_all_cards_from_faction_logic_unfold _ _ _ _ _ Hl). simpl.
    rewrite Hq.
    destruct (consume_units_stops w d faction l unit rest Hl done
                (printed "Fetching all cards from faction..." s1)
                Hdrv Hq Hok Hbad) as [Hr Hh].
    destruct (consume_units w d faction (done ++ unit :: rest) _)
      as [r1 s2]. simpl in Hr, Hh. subst r1. auto. }
  split; [intros faction s1; apply loading_guarded_guards|].
  split.
  { intros Hcalm s1 r s2 Hdrv.
    unfold fetch_all_cards_logic. rewrite guarded_run.
    change (map fst d) with (d.*1).
    destruct (for_each (d.*1) _ s1) as [r1 s3] eqn:E.
    destruct Hsep as [Hk Hl].
    destruct (for_each_factions_tour w d d Hcalm (linked_self d Hk) Hl
                s1 r1 s3 Hdrv E) as (-> & _ & F & Ht).
    simpl. intros [= <- <-]. auto. }
  destruct (fetch_all_cards_of w d s0) as [r s'] eqn:E.
  destruct (fetch_all_cards_of_spec _ _ _ _ _ Hsep E)
    as (dones & shots & _ & Hof).
  destruct (fetch_all_cards_try w d s0) as [r1 s1] eqn:Et.
  destruct (fetch_all_cards_try_spec _ _ _ _ _ Hsep Et)
    as (dones' & shots' & _ & _ & Hinit).
  simpl in *. split.
  - intros Hno [s2 Hs2]. rewrite Hs2 in Hinit.
    pose proof (fetch_all_cards_try_calm w Hno d s0) as Hcalm.
    rewrite Et in Hcalm. simpl in Hcalm.
    destruct Hinit as [[-> _] | ->]; [|congruence]. apply Hof.
  - intros ->. destruct r1 as [v|e]; [destruct Hof; discriminate|].
    destruct (init_session w 2560 1440 true s0) as [[[]|e'] s2].
    + right. destruct Hinit as [[Hr _]|Hr]; [discriminate|exact Hr].
    + left. eauto.
Qed.

Lemma capture_failures_return_0_witness :
  (fetch_all_cards (failing_world 11 true PyException) persisted_index
                   (init_state indexed_disk)).1 = Ret 0.
Proof.
  set (w := failing_world 11 true PyException).
  set (s0 := (load_dictionary_if_exists w persisted_index source_dir
                (init_state indexed_disk)).2).
  assert (Hload : load_dictionary_if_exists w persisted_index source_dir
                    (init_state indexed_disk)
                  = (Ret (Some [("orks", 0%nat); ("necrons", 1%nat)]), s0))
    by (vm_compute; reflexivity).
  apply (proj1 (proj2 (proj2 (proj2
           (capture_failures_return_0 w persisted_index
              (init_state indexed_disk) _ s0 Hload))))).
  - intros n. simpl. destruct (decide (n = 11%nat)); [discriminate|].
    destruct (bool_decide (11 < n)%nat); discriminate.
  - eexists. vm_compute. reflexivity.
Defined.

(** * Further properties *)

(** ** Names, pages and files *)

Lemma has_char_append c a b :
  has_char c (a +:+ b) = has_char c a || has_char c b.
Proof.
  induction a as [|x a IH]; [reflexivity|].
  change (String x a +:+ b) with (String x (a +:+ b)). simpl.
  rewrite IH, orb_assoc. reflexivity.
Qed.

Lemma append_assoc (a b c : string) : (a +:+ b) +:+ c = a +:+ (b +:+ c).
Proof.
  induction a as [|x a IH]; [reflexivity|].
  change ((String x a +:+ b) +:+ c) with (String x ((a +:+ b) +:+ c)).
  rewrite IH. reflexivity.
Qed.

Lemma length_append (a b : string) :
  String.length (a +:+ b) = (String.length a + String.length b)%nat.
Proof.
  induction a as [|x a IH]; [reflexivity|].
  change (String x a +:+ b) with (String x (a +:+ b)). simpl.
  rewrite IH. reflexivity.
Qed.

Lemma append_inv_tail (a b s : string) : a +:+ s = b +:+ s -> a = b.
Proof.
  revert b. induction a as [|x a IH]; intros [|y b] H.
  - reflexivity.
  - apply (f_equal String.length) in H. rewrite !length_append in H.
    simpl in H. lia.
  - apply (f_equal String.length) in H. rewrite !length_append in H.
    simpl in H. lia.
  - change (String x (a +:+ s) = String y (b +:+ s)) in H.
    injection H as -> H. f_equal. apply IH, H.
Qed.

Lemma last_segment_append pre name :
  has_char slash name = false ->
  last_segment (pre +:+ String slash name) = name.
Proof.
  intros Hname. unfold last_segment.
  induction pre as [|c pre IH].
  - change (EmptyString +:+ String slash name) with (String slash name).
    simpl. rewrite (split_without _ _ Hname). reflexivity.
  - change (String c pre +:+ String slash name)
      with (String c (pre +:+ String slash name)).
    assert (Hs : has_char slash (pre +:+ String slash name) = true).
    { rewrite has_char_append. simpl. apply orb_true_r. }
    destruct (split_with _ _ Hs) as (h & x & t & E).
    simpl. rewrite E in *.
    destruct (Ascii.eqb c slash); rewrite !last_cons_cons in *; exact IH.
Qed.

(** A slash-free front followed by a slash determines both parts. *)
Lemma slash_free_front f f' r r' :
  has_char slash f = false -> has_char slash f' = false ->
  f +:+ String slash r = f' +:+ String slash r' -> f = f' /\ r = r'.
Proof.
  revert f'. induction f as [|c f IH]; intros [|c' f'] Hf Hf' H.
  - injection H as ->. auto.
  - change (String slash r = String c' (f' +:+ String slash r')) in H.
    injection H as <- _. simpl in Hf'. discriminate.
  - change (String c (f +:+ String slash r) = String slash r') in H.
    injection H as -> _. simpl in Hf. discriminate.
  - change (String c (f +:+ String slash r)
            = String c' (f' +:+ String slash r')) in H.
    injection H as -> H. simpl in Hf, Hf'.
    apply orb_false_iff in Hf as [_ Hf]. apply orb_false_iff in Hf' as [_ Hf'].
    destruct (IH f' Hf Hf' H) as [-> ->]. auto.
Qed.

(** X1. The name that [get_names_from_html] takes from a link is found
    again by [fetch_card_from_unit]: the page that it visits for a unit
    whose name has no ['/'] has that name as its last segment, and so has
    every [href] that ends with ['/'] and the name. *)
Theorem unit_name_round_trip faction unit :
  has_char slash unit = false ->
  last_segment (card_url faction unit) = unit /\
  forall pre, last_segment (pre +:+ "/" +:+ unit) = unit.
Proof.
  intros Hunit. split.
  - unfold card_url. rewrite <- append_assoc.
    apply (last_segment_append _ _ Hunit).
  - intros pre. apply (last_segment_append _ _ Hunit).
Qed.

Lemma unit_name_round_trip_witness :
  last_segment (card_url "orks" "Boyz") = "Boyz" /\
  forall pre, last_segment (pre +:+ "/" +:+ "Boyz") = "Boyz".
Proof. apply (unit_name_round_trip "orks" "Boyz"). reflexivity. Defined.

(** X2. Two units get two files and two pages: for factions whose names
    have no ['/'], as the names that [get_names_from_html] returns, the
    screenshot file and the page of [fetch_card_from_unit] determine the
    faction and the unit. *)
Theorem card_of_one_unit faction unit faction' unit' :
  has_char slash faction = false -> has_char slash faction' = false ->
  (card_file faction unit = card_file faction' unit' ->
   faction = faction' /\ unit = unit') /\
  (card_url faction unit = card_url faction' unit' ->
   faction = faction' /\ unit = unit').
Proof.
  intros Hf Hf'. unfold card_file, card_url. split; intros H.
  - apply (inj (String.append output_dir)) in H.
    apply (slash_free_front _ _ _ _ Hf Hf') in H as [-> H].
    split; [reflexivity|]. apply (append_inv_tail _ _ _ H).
  - apply (inj (String.append factions_url)) in H.
    apply (slash_free_front _ _ _ _ Hf Hf') in H as [-> H]. auto.
Qed.

Lemma card_of_one_unit_witness :
  (card_file "orks" "boyz" = card_file "necrons" "warriors" ->
   "orks" = "necrons" /\ "boyz" = "warriors") /\
  (card_url "orks" "boyz" = card_url "necrons" "warriors" ->
   "orks" = "necrons" /\ "boyz" = "warriors").
Proof.
  apply (card_of_one_unit "orks" "boyz" "necrons" "warriors"); reflexivity.
Defined.

(** ** The names of an element *)

Lemma get_attributes_undisturbed w links s :
  (forall n, raises w n = None) ->
  (get_attributes w links s).1 = Ret (map href_of links) /\
  ticks (get_attributes w links s).2 = (ticks s + length links)%nat.
Proof.
  intros Hno. revert s. induction links as [|link r IH]; intros s; simpl.
  - split; [reflexivity|lia].
  - unfold bind at 1 3, external. rewrite Hno.
    set (s1 := set_trace _ _). destruct (IH s1) as [Hr Ht].
    unfold bind. destruct (get_attributes w r s1) as [r1 s2]. simpl in *.
    subst r1. simpl. split; [reflexivity|]. rewrite Ht. subst s1. simpl. lia.
Qed.

Lemma split_names_present hrefs :
  split_names (Some <$> hrefs) = Some (last_segment <$> hrefs).
Proof.
  induction hrefs as [|h r IH]; [reflexivity|].
  rewrite !fmap_cons. simpl. rewrite IH. reflexivity.
Qed.

Lemma split_names_absent hrefs :
  In None hrefs -> split_names hrefs = None.
Proof.
  induction hrefs as [|[h|] r IH]; simpl; intros Hin.
  - destruct Hin.
  - destruct Hin as [Hin|Hin]; [discriminate|]. rewrite (IH Hin). reflexivity.
  - reflexivity.
Qed.

(** X3. When no call raises and every link of the element has an [href],
    [get_names_from_html] returns the last segments of the [href]s in the
    order of the links, repetitions included, without ["datasheets.html"];
    it has made one call to find the links and one for each link. *)
Theorem get_names_from_html_in_order w html s hrefs :
  (forall n, raises w n = None) ->
  map href_of (anchors_of html) = Some <$> hrefs ->
  (get_names_from_html w html s).1
  = Ret (filter (fun name => name <> "datasheets.html")
                (last_segment <$> hrefs)) /\
  ticks (get_names_from_html w html s).2 = (ticks s + 1 + length hrefs)%nat.
Proof.
  intros Hno Hh. unfold get_names_from_html, bind at 1 3, external.
  rewrite Hno. set (s1 := set_trace _ _).
  destruct (get_attributes_undisturbed w (anchors_of html) s1 Hno) as [Hr Ht].
  unfold bind. destruct (get_attributes w (anchors_of html) s1) as [r1 s2].
  simpl in *. subst r1. rewrite Hh, split_names_present. simpl.
  split; [reflexivity|]. rewrite Ht.
  apply (f_equal length) in Hh. rewrite length_map, length_fmap in Hh.
  rewrite Hh. subst s1. simpl. lia.
Qed.

Lemma get_names_from_html_in_order_witness :
  (get_names_from_html calm_world orks_menu (init_state ∅)).1
  = Ret (filter (fun name => name <> "datasheets.html")
           (last_segment <$>
              ["https://wahapedia.ru/wh40k10ed/factions/orks/Boyz";
               "https://wahapedia.ru/wh40k10ed/factions/orks/datasheets.html"])) /\
  ticks (get_names_from_html calm_world orks_menu (init_state ∅)).2
  = (ticks (init_state ∅) + 1 + 2)%nat.
Proof.
  apply (get_names_from_html_in_order calm_world orks_menu (init_state ∅)
           ["https://wahapedia.ru/wh40k10ed/factions/orks/Boyz";
            "https://wahapedia.ru/wh40k10ed/factions/orks/datasheets.html"]).
  - intros n. reflexivity.
  - reflexivity.
Defined.

(** X4. A link without [href] makes [get_names_from_html] fail: it never
    returns, and when no call raises, it raises the [Exception] of
    [None.split]. *)
Theorem get_names_from_html_missing_href w html s :
  In None (map href_of (anchors_of html)) ->
  (forall names, (get_names_from_html w html s).1 <> Ret names) /\
  ((forall n, raises w n = None) ->
   (get_names_from_html w html s).1 = Raise PyException).
Proof.
  intros Hin. split.
  - intros names Hret.
    destruct (get_names_from_html w html s) as [r s'] eqn:E. simpl in Hret.
    subst r. revert E. unfold get_names_from_html, bind at 1, external.
    destruct (raises w (ticks s)); [discriminate|]. unfold bind at 1.
    destruct (get_attributes w _ _) as [[hrefs|e] s1] eqn:Ea; [|discriminate].
    apply get_attributes_Ret in Ea. subst hrefs.
    rewrite (split_names_absent _ Hin). discriminate.
  - intros Hno. unfold get_names_from_html, bind at 1, external.
    rewrite Hno. set (s1 := set_trace _ _).
    destruct (get_attributes_undisturbed w (anchors_of html) s1 Hno) as [Hr _].
    unfold bind. destruct (get_attributes w (anchors_of html) s1) as [r1 s2].
    simpl in *. subst r1. rewrite (split_names_absent _ Hin). reflexivity.
Qed.

Lemma get_names_from_html_missing_href_witness :
  let html := Element None [Element None []] in
  (forall names,
     (get_names_from_html calm_world html (init_state ∅)).1 <> Ret names) /\
  ((forall n, raises calm_world n = None) ->
   (get_names_from_html calm_world html (init_state ∅)).1 = Raise PyException).
Proof.
  intros html.
  apply (get_names_from_html_missing_href calm_world html (init_state ∅)).
  simpl. tauto.
Defined.

(** ** A queue with nothing to do *)

(** X5. [fetch_all_cards_from_faction_logic] for a faction that is not a
    key of the dictionary returns [1], and for a faction whose list is
    empty returns [0]; in both cases it makes no call, and the lists and
    the files are as they were. *)
Theorem fetch_all_cards_from_faction_logic_idle w d faction s :
  let run := fetch_all_cards_from_faction_logic w d faction s in
  (assoc_get d faction = None -> run.1 = Ret 1) /\
  (forall l, assoc_get d faction = Some l -> read_list (heap s) l = [] ->
             run.1 = Ret 0) /\
  ((assoc_get d faction = None \/
    exists l, assoc_get d faction = Some l /\ read_list (heap s) l = []) ->
   ticks run.2 = ticks s /\ heap run.2 = heap s /\ disk run.2 = disk s).
Proof.
  assert (Hmissing : assoc_get d faction = None ->
            fetch_all_cards_from_faction_logic w d faction s
            = (Ret 1, printed "Failed to fetch all cards from faction."
                        (printed "Fetching all cards from faction..." s))).
  { intros Hn.
    unfold fetch_all_cards_from_faction_logic, loading, guarded,
      fetch_all_cards_from_faction_logic_steps, except_Exception, subscript.
    rewrite Hn. reflexivity. }
  assert (Hempty : forall l, assoc_get d faction = Some l ->
            read_list (heap s) l = [] ->
            fetch_all_cards_from_faction_logic w d faction s
            = (Ret 0, printed "All cards fetched from faction."
                        (printed "Fetching all cards from faction..." s))).
  { intros l Hl Hq.
    rewrite (fetch_all_cards_from_faction_logic_unfold _ _ _ _ _ Hl), Hq.
    reflexivity. }
  intros run. subst run. split; [|split].
  - intros Hn. rewrite (Hmissing Hn). reflexivity.
  - intros l Hl Hq. rewrite (Hempty l Hl Hq). reflexivity.
  - intros [Hn|(l & Hl & Hq)];
      [rewrite (Hmissing Hn)|rewrite (Hempty l Hl Hq)]; simpl; auto.
Qed.

Lemma fetch_all_cards_from_faction_logic_idle_witness :
  let run := fetch_all_cards_from_faction_logic calm_world [("orks", 0%nat)]
               "necrons" orks_session in
  run.1 = Ret 1.
Proof.
  intros run.
  apply (proj1 (fetch_all_cards_from_faction_logic_idle calm_world
                  [("orks", 0%nat)] "necrons" orks_session)).
  reflexivity.
Defined.

(** ** The session *)

Ltac case_calls :=
  repeat (match goal with
          | |- context [raises ?w ?n] => destruct (raises w n) as [[]|]
          | |- context [match driver ?s with _ => _ end] =>
              destruct (driver s) as [[]|] eqn:?
          end;
          simpl).

Ltac run_methods :=
  unfold remove_cookies, remove_cookies_body, click_when_clickable,
    ensure_dirs_exist, ensure_dirs_exist_steps, install_ublock,
    install_ublock_steps, close_session, close_session_steps, loading, guarded,
    except_Exception, on_driver, external_unit, external, print, log, modify,
    gets, ret, raise, bind;
  simpl.

Lemma remove_cookies_skipped w s :
  check_for_cookies s = false ->
  remove_cookies w s
  = (Ret 0, printed "Cookies removed." (printed "Removing cookies..." s)).
Proof. intros Hc. run_methods. rewrite Hc. reflexivity. Qed.

Lemma remove_cookies_flag w s :
  ((remove_cookies w s).1 = Ret 0 ->
   check_for_cookies (remove_cookies w s).2 = false) /\
  ((remove_cookies w s).1 <> Ret 0 ->
   check_for_cookies (remove_cookies w s).2 = check_for_cookies s).
Proof.
  run_methods.
  destruct (check_for_cookies s) eqn:Hc; simpl; [|split; congruence].
  destruct (driver s) as [[]|]; simpl; [|split; congruence].
  case_calls; split; congruence.
Qed.

(** X6. [remove_cookies] dismisses the banner once: when it returns [0]
    the flag [check_for_cookies] is cleared, otherwise the flag is as it
    was and the next call tries again; with the flag cleared it returns
    [0] without a call to the browser, so that after a [0] every later
    call is of that kind. *)
Theorem remove_cookies_once w s :
  let run := remove_cookies w s in
  (check_for_cookies s = false -> run.1 = Ret 0 /\ ticks run.2 = ticks s) /\
  (run.1 = Ret 0 -> check_for_cookies run.2 = false) /\
  (run.1 <> Ret 0 -> check_for_cookies run.2 = check_for_cookies s) /\
  (run.1 = Ret 0 ->
   forall w', (remove_cookies w' run.2).1 = Ret 0 /\
              ticks (remove_cookies w' run.2).2 = ticks run.2).
Proof.
  intros run. subst run.
  assert (Hskip : forall w0 s0, check_for_cookies s0 = false ->
            (remove_cookies w0 s0).1 = Ret 0 /\
            ticks (remove_cookies w0 s0).2 = ticks s0).
  { intros w0 s0 Hc. rewrite (remove_cookies_skipped _ _ Hc). auto. }
  destruct (remove_cookies_flag w s) as [H0 H1].
  split; [apply Hskip|]. split; [exact H0|]. split; [exact H1|].
  intros Hr w'. apply Hskip, H0, Hr.
Qed.

Lemma remove_cookies_once_witness :
  let run := remove_cookies calm_world orks_session in
  run.1 = Ret 0 /\ ticks run.2 = ticks orks_session.
Proof.
  intros run.
  apply (proj1 (remove_cookies_once calm_world orks_session)).
  reflexivity.
Defined.

(** X7. The navigation of [remove_cookies] stands before its [try]
    blocks: with the flag set, what [driver.get] raises is raised by
    [remove_cookies], as is the [Exception] of a scraper without driver,
    although the method is declared to return [0] or [1]. *)
Theorem remove_cookies_navigation w s :
  check_for_cookies s = true ->
  (driver s = None -> (remove_cookies w s).1 = Raise PyException) /\
  (forall e, driver s = Some tt -> raises w (ticks s) = Some e ->
             (remove_cookies w s).1 = Raise e).
Proof.
  intros Hc. split.
  - intros Hd. run_methods. rewrite Hc. simpl. rewrite Hd. reflexivity.
  - intros e Hd He. run_methods. rewrite Hc. simpl. rewrite Hd. simpl.
    rewrite He. reflexivity.
Qed.

Lemma remove_cookies_navigation_witness :
  let s := set_check_for_cookies true orks_session in
  (driver s = None ->
   (remove_cookies (failing_world 0 false PyException) s).1
   = Raise PyException) /\
  (forall e, driver s = Some tt ->
             raises (failing_world 0 false PyException) (ticks s) = Some e ->
             (remove_cookies (failing_world 0 false PyException) s).1 = Raise e).
Proof.
  intros s.
  apply (remove_cookies_navigation (failing_world 0 false PyException) s).
  reflexivity.
Defined.

Lemma ensure_dirs_exist_self w s :
  driver (ensure_dirs_exist w s).2 = driver s /\
  check_for_cookies (ensure_dirs_exist w s).2 = check_for_cookies s.
Proof. run_methods. case_calls; auto. Qed.

Lemma install_ublock_self w s :
  driver (install_ublock w s).2 = driver s /\
  check_for_cookies (install_ublock w s).2 = check_for_cookies s.
Proof.
  run_methods. destruct (raises w (ticks s)) as [[]|]; simpl; auto.
  destruct (exists_answer w (ticks s)); simpl; case_calls; split; congruence.
Qed.

(** X8. [init_session] fails with the browser and goes on without the
    rest: when [Browser()] raises, it raises the same, [self.driver] is as
    it was and nothing else was called; when the browser starts and the
    cookies are already dismissed, it raises no [Exception], whatever
    becomes of the directories and of the extension, and on return
    [self.driver] is set. *)
Theorem init_session_outcome w width height headless s :
  let run := init_session w width height headless s in
  (forall e, raises w (ticks s) = Some e ->
             run.1 = Raise e /\ driver run.2 = driver s /\
             ticks run.2 = S (ticks s)) /\
  (raises w (ticks s) = None -> check_for_cookies s = false ->
   run.1 <> Raise PyException /\ (run.1 = Ret tt -> driver run.2 = Some tt)).
Proof.
  intros run. subst run. split.
  - intros e He. unfold init_session, external_unit, external, bind.
    rewrite He. auto.
  - intros Hb Hc.
    destruct (init_session w width height headless s) as [r s'] eqn:E.
    simpl. revert E.
    unfold init_session. unfold bind at 1, external_unit, external.
    rewrite Hb. unfold bind at 1, modify at 1.
    set (s1 := set_driver _ _).
    assert (H1 : driver s1 = Some tt /\ check_for_cookies s1 = false)
      by (subst s1; simpl; auto).
    clearbody s1. unfold bind at 1.
    pose proof (loading_guarded_guards "Ensuring output directories exist..."
                  "Output directories exist."
                  "Failed to ensure output directories exist."
                  (ensure_dirs_exist_steps w) s1) as G2.
    pose proof (ensure_dirs_exist_self w s1) as [D2 C2].
    fold (ensure_dirs_exist w) in G2.
    destruct (ensure_dirs_exist w s1) as [[v2|e2] s2]; simpl in *.
    2:{ intros [= <- <-]. split; [destruct e2; congruence|discriminate]. }
    unfold bind at 1.
    pose proof (loading_guarded_guards "Installing uBlock Origin..."
                  "uBlock Origin installed." "Failed to install uBlock Origin."
                  (install_ublock_steps w) s2) as G3.
    pose proof (install_ublock_self w s2) as [D3 C3].
    fold (install_ublock w) in G3.
    destruct (install_ublock w s2) as [[v3|e3] s3]; simpl in *.
    2:{ intros [= <- <-]. split; [destruct e3; congruence|discriminate]. }
    unfold bind. rewrite remove_cookies_skipped by (destruct H1; congruence).
    intros [= <- <-]. simpl.
    split; [discriminate|]. intros _. destruct H1. congruence.
Qed.

Lemma init_session_outcome_witness :
  let w := failing_world 1 true PyException in
  let run := init_session w 2560 1440 true orks_session in
  run.1 <> Raise PyException /\ (run.1 = Ret tt -> driver run.2 = Some tt).
Proof.
  intros w run.
  apply (proj2 (init_session_outcome w 2560 1440 true orks_session));
    reflexivity.
Defined.

(** ** Enumerating factions and units *)

Lemma loading_run start success failure body s :
  loading start success failure body s
  = match body (printed start s) with
    | (Ret v, s1) => (Ret v, printed (if v =? 0 then success else failure) s1)
    | (Raise e, s1) => (Raise e, s1)
    end.
Proof.
  unfold loading, bind, print, log, modify, printed, ret.
  destruct (body _) as [[v|e] s1]; reflexivity.
Qed.

Lemma get_names_from_html_same_index w html :
  stable same_index (get_names_from_html w html).
Proof. solve_stable same_index (fun _ : event => True). Qed.

Lemma get_names_from_html_clean w html s names s' :
  get_names_from_html w html s = (Ret names, s') ->
  Forall (fun name => has_char slash name = false /\ name <> "datasheets.html")
         names.
Proof.
  unfold get_names_from_html, bind at 1, external.
  destruct (raises w (ticks s)); [discriminate|]. unfold bind at 1.
  destruct (get_attributes w _ _) as [[hrefs|e] s1] eqn:E; [|discriminate].
  destruct (split_names hrefs) as [all|] eqn:Hall; [|discriminate].
  intros [= <- _]. apply Forall_forall. intros name Hin.
  apply list_elem_of_filter in Hin as [Hne Hin]. split; [|exact Hne].
  apply list_elem_of_In in Hin.
  destruct (split_names_In _ _ _ Hall Hin) as (href & _ & ->).
  apply last_segment_after_last_slash.
Qed.

Lemma assoc_get_set {V} k (v : V) d : assoc_get (assoc_set k v d) k = Some v.
Proof.
  induction d as [|[k' v'] d IH]; simpl.
  - rewrite decide_True by reflexivity. reflexivity.
  - destruct (decide (k' = k)) as [->|Hne]; simpl.
    + rewrite decide_True by reflexivity. reflexivity.
    + rewrite decide_False by exact Hne. exact IH.
Qed.

Lemma assoc_get_set_other {V} k (v : V) d k' :
  k' <> k -> assoc_get (assoc_set k v d) k' = assoc_get d k'.
Proof.
  intros Hne. induction d as [|[k0 v0] d IH]; simpl.
  - rewrite decide_False by congruence. reflexivity.
  - destruct (decide (k0 = k)) as [->|Hk]; simpl.
    + rewrite !decide_False by congruence. reflexivity.
    + destruct (decide (k0 = k')); [reflexivity|exact IH].
Qed.

(** The steps of [fetch_units_names_from_faction]: when they raise, the
    names, the dictionary, the lists and the files are untouched; when
    they return, the names of the second tooltip element are in a new
    list, which the dictionary holds for the faction. *)
Lemma fetch_units_names_from_faction_steps_spec w faction s r s1 :
  fetch_units_names_from_faction_steps w faction s = (r, s1) ->
  match r with
  | Raise _ => same_index s s1
  | Ret _ =>
      exists sm n html names,
        same_index s sm /\
        elements_answer w n !! 1%nat = Some html /\
        (exists sh sh', get_names_from_html w html sh = (Ret names, sh')) /\
        s1 = set_factions_dict
               (assoc_set faction (fresh (dom (heap sm))) (factions_dict sm))
               (set_heap (<[fresh (dom (heap sm)) := names]> (heap sm)) sm)
  end.
Proof.
  unfold fetch_units_names_from_faction_steps.
  assert (Hcall : forall c, stable same_index (external_unit w c))
    by (intros c; solve_stable same_index (fun _ : event => True)).
  assert (Hnav : forall c, stable same_index (on_driver (external_unit w c)))
    by (intros c; solve_stable same_index (fun _ : event => True)).
  unfold bind at 1. pose proof (Hnav (DriverGet (factions_url +:+ faction)) s) as Q1.
  destruct (on_driver _ s) as [[[]|e] sa]; simpl in Q1;
    [|intros [= <- <-]; exact Q1].
  unfold bind at 1.
  pose proof (Hcall (WaitPresence (id_xpath "btnArmyList")) sa) as Q2.
  destruct (external_unit w _ sa) as [[[]|e] sb]; simpl in Q2;
    [|intros [= <- <-]; etransitivity; eassumption].
  unfold bind at 1. pose proof (Hcall MoveToElement sb) as Q3.
  destruct (external_unit w _ sb) as [[[]|e] sc]; simpl in Q3;
    [|intros [= <- <-]; repeat (etransitivity; [eassumption|]); reflexivity].
  unfold bind at 1. pose proof (Hcall (Sleep 1) sc) as Q4.
  destruct (external_unit w _ sc) as [[[]|e] sd]; simpl in Q4;
    [|intros [= <- <-]; repeat (etransitivity; [eassumption|]); reflexivity].
  assert (Q04 : same_index s sd)
    by (repeat (etransitivity; [eassumption|]); reflexivity).
  clear Q1 Q2 Q3 Q4. unfold bind at 1.
  assert (Q5 : same_index sd
                 (on_driver (external w (FindElementsXpath
                                           (id_xpath "tooltip_contentArmyList"))
                                      (elements_answer w)) sd).2).
  { assert (Hs : stable same_index
                   (on_driver (external w (FindElementsXpath
                                 (id_xpath "tooltip_contentArmyList"))
                                 (elements_answer w))))
      by (solve_stable same_index (fun _ : event => True)).
    apply Hs. }
  assert (Hans : forall tooltip se,
            on_driver (external w (FindElementsXpath
                                     (id_xpath "tooltip_contentArmyList"))
                                (elements_answer w)) sd = (Ret tooltip, se) ->
            tooltip = elements_answer w (ticks sd)).
  { unfold on_driver, external, gets, raise, bind. intros tooltip se.
    destruct (driver sd); [|discriminate].
    destruct (raises w (ticks sd)); [discriminate|]. congruence. }
  destruct (on_driver _ sd) as [[tooltip|e] se]; simpl in Q5;
    [|intros [= <- <-]; etransitivity; eassumption].
  specialize (Hans _ _ eq_refl). subst tooltip.
  assert (Q05 : same_index s se) by (etransitivity; eassumption).
  clear Q04 Q5.
  destruct (elements_answer w (ticks sd) !! 1%nat) as [html|] eqn:Htip;
    [|intros [= <- <-]; exact Q05].
  unfold bind at 1.
  pose proof (get_names_from_html_same_index w html se) as Q6.
  destruct (get_names_from_html w html se) as [[names|e] sf] eqn:En;
    simpl in Q6; [|intros [= <- <-]; etransitivity; eassumption].
  unfold bind, alloc, modify. intros [= <- <-].
  exists sf, (ticks sd), html, names.
  split; [etransitivity; eassumption|]. split; [exact Htip|].
  split; [eauto|reflexivity].
Qed.

(** X9. [fetch_units_names_from_faction] changes the dictionary only when
    it returns [0]: otherwise the dictionary and the lists are as they
    were; on [0] the faction is bound to a new list, the other keys and
    lists are as they were, and the names of the list have no ['/'] and
    are not ["datasheets.html"].  The faction names and the files are
    never touched. *)
Theorem fetch_units_names_from_faction_outcome w faction s :
  let s' := (fetch_units_names_from_faction w faction s).2 in
  ((fetch_units_names_from_faction w faction s).1 <> Ret 0 ->
   factions_dict s' = factions_dict s /\ heap s' = heap s) /\
  ((fetch_units_names_from_faction w faction s).1 = Ret 0 ->
   exists l,
     heap s !! l = None /\
     assoc_get (factions_dict s') faction = Some l /\
     Forall (fun name => has_char slash name = false /\
                         name <> "datasheets.html")
            (read_list (heap s') l) /\
     (forall k, k <> faction ->
                assoc_get (factions_dict s') k = assoc_get (factions_dict s) k) /\
     (forall l', l' <> l -> heap s' !! l' = heap s !! l')) /\
  factions_names s' = factions_names s /\ disk s' = disk s.
Proof.
  unfold fetch_units_names_from_faction. rewrite loading_run, guarded_run.
  set (s0 := printed _ s).
  destruct (fetch_units_names_from_faction_steps w faction s0) as [r s1] eqn:E.
  apply fetch_units_names_from_faction_steps_spec in E.
  destruct r as [[]|[]]; simpl.
  - destruct E as (sm & n & html & names & (Hn & Hd & Hh & Hk) & _ &
                   (sh & sh' & Hnames) & ->).
    simpl in *. split; [congruence|]. split; [|split; assumption].
    intros _. exists (fresh (dom (heap sm))). rewrite Hd, Hh.
    split; [apply not_elem_of_dom, is_fresh|].
    split; [apply assoc_get_set|]. split.
    { rewrite read_list_insert. eapply get_names_from_html_clean, Hnames. }
    split; [intros k Hne; apply assoc_get_set_other, Hne|].
    intros l' Hne. apply lookup_insert_ne. congruence.
  - destruct E as (Hn & Hd & Hh & Hk). simpl in *.
    split; [auto|]. split; [discriminate|]. auto.
  - destruct E as (Hn & Hd & Hh & Hk). simpl in *.
    split; [auto|]. split; [discriminate|]. auto.
Qed.

Lemma fetch_units_names_from_faction_outcome_witness :
  let run := fetch_units_names_from_faction
               (failing_world 2 false PyException) "orks" orks_session in
  factions_dict run.2 = factions_dict orks_session /\
  heap run.2 = heap orks_session.
Proof.
  intros run.
  apply (proj1 (fetch_units_names_from_faction_outcome
                  (failing_world 2 false PyException) "orks" orks_session)).
  vm_compute. discriminate.
Defined.

(** X10. Without a second element for the tooltip,
    [fetch_units_names_from_faction] does not return [0]: [tooltip[1]] is
    out of range, and the dictionary is left as it was. *)
Theorem fetch_units_names_from_faction_tooltip w faction s :
  (forall n, elements_answer w n !! 1%nat = None) ->
  (fetch_units_names_from_faction w faction s).1 <> Ret 0 /\
  factions_dict (fetch_units_names_from_faction w faction s).2
  = factions_dict s.
Proof.
  intros Htip. unfold fetch_units_names_from_faction.
  rewrite loading_run, guarded_run. set (s0 := printed _ s).
  destruct (fetch_units_names_from_faction_steps w faction s0) as [r s1] eqn:E.
  apply fetch_units_names_from_faction_steps_spec in E.
  destruct r as [[]|[]]; simpl.
  - destruct E as (sm & n & html & names & _ & Hsome & _).
    rewrite Htip in Hsome. discriminate.
  - split; [discriminate|]. apply E.
  - split; [discriminate|]. apply E.
Qed.

Lemma fetch_units_names_from_faction_tooltip_witness :
  (fetch_units_names_from_faction calm_world "orks" orks_session).1 <> Ret 0 /\
  factions_dict (fetch_units_names_from_faction calm_world "orks"
                   orks_session).2
  = factions_dict orks_session.
Proof.
  apply (fetch_units_names_from_faction_tooltip calm_world "orks" orks_session).
  intros n. reflexivity.
Defined.

Lemma fetch_factions_names_steps_spec w s r s1 :
  fetch_factions_names_steps w s = (r, s1) ->
  match r with
  | Raise _ => same_index s s1
  | Ret _ =>
      exists sm names,
        same_index s sm /\
        Forall (fun name => has_char slash name = false /\
                            name <> "datasheets.html") names /\
        s1 = set_factions_names names sm
  end.
Proof.
  unfold fetch_factions_names_steps. unfold bind at 1.
  assert (Q1 : stable same_index (on_driver (external_unit w (DriverGet home_url))))
    by (solve_stable same_index (fun _ : event => True)).
  specialize (Q1 s).
  destruct (on_driver _ s) as [[[]|e] sa]; simpl in Q1;
    [|intros [= <- <-]; exact Q1].
  unfold bind at 1.
  assert (Q2 : stable same_index
                 (external w (WaitPresence menu_xpath) (element_answer w)))
    by (solve_stable same_index (fun _ : event => True)).
  specialize (Q2 sa).
  destruct (external w _ _ sa) as [[menu|e] sb]; simpl in Q2;
    [|intros [= <- <-]; etransitivity; eassumption].
  unfold bind at 1.
  pose proof (get_names_from_html_same_index w menu sb) as Q3.
  destruct (get_names_from_html w menu sb) as [[names|e] sc] eqn:En;
    simpl in Q3; [|intros [= <- <-]; repeat (etransitivity; [eassumption|]);
                   reflexivity].
  unfold bind, modify. intros [= <- <-]. exists sc, names.
  split; [repeat (etransitivity; [eassumption|]); reflexivity|].
  split; [eapply get_names_from_html_clean, En|reflexivity].
Qed.

Lemma fetch_factions_names_spec w s :
  let s' := (fetch_factions_names w s).2 in
  ((fetch_factions_names w s).1 <> Ret 0 ->
   factions_names s' = factions_names s) /\
  ((fetch_factions_names w s).1 = Ret 0 ->
   Forall (fun name => has_char slash name = false /\
                       name <> "datasheets.html")
          (factions_names s')) /\
  factions_dict s' = factions_dict s /\ heap s' = heap s /\ disk s' = disk s.
Proof.
  unfold fetch_factions_names. rewrite loading_run, guarded_run.
  set (s0 := printed _ s).
  destruct (fetch_factions_names_steps w s0) as [r s1] eqn:E.
  apply fetch_factions_names_steps_spec in E.
  destruct r as [[]|[]]; simpl.
  - destruct E as (sm & names & (Hn & Hd & Hh & Hk) & Hclean & ->).
    simpl in *. split; [congruence|]. split; [intros _; exact Hclean|auto].
  - destruct E as (Hn & Hd & Hh & Hk). simpl in *.
    split; [auto|]. split; [discriminate|auto].
  - destruct E as (Hn & Hd & Hh & Hk). simpl in *.
    split; [auto|]. split; [discriminate|auto].
Qed.

(** X11. [fetch_factions_names] replaces the faction names only when it
    returns [0], by names without ['/'] that are not ["datasheets.html"];
    otherwise the names are those of before.  The dictionary, the lists
    and the files are never touched. *)
Theorem fetch_factions_names_outcome w s :
  let s' := (fetch_factions_names w s).2 in
  ((fetch_factions_names w s).1 <> Ret 0 ->
   factions_names s' = factions_names s) /\
  ((fetch_factions_names w s).1 = Ret 0 ->
   Forall (fun name => has_char slash name = false /\
                       name <> "datasheets.html")
          (factions_names s')) /\
  factions_dict s' = factions_dict s /\ heap s' = heap s /\ disk s' = disk s.
Proof. apply fetch_factions_names_spec. Qed.

Lemma fetch_factions_names_outcome_witness :
  let run := fetch_factions_names (failing_world 1 false PyException)
               (set_factions_names ["tau"] orks_session) in
  factions_names run.2 = ["tau"].
Proof.
  intros run.
  apply (proj1 (fetch_factions_names_outcome
                  (failing_world 1 false PyException)
                  (set_factions_names ["tau"] orks_session))).
  vm_compute. discriminate.
Defined.

Lemma init_session_same_index w width height headless :
  stable same_index (init_session w width height headless).
Proof. solve_stable same_index (fun _ : event => True). Qed.

(** X12. [fetch_indexes] does not look at what [fetch_factions_names]
    returns: when the enumeration of the factions fails and
    [fetch_indexes] still returns [0], the index that it has written over
    the previous one has the faction names that the scraper held before,
    none for a new scraper. *)
Theorem fetch_indexes_stale_names w s s' sa :
  fetch_indexes w s = (Ret 0, s') ->
  init_session w 2560 1440 true s = (Ret tt, sa) ->
  (fetch_factions_names w sa).1 <> Ret 0 ->
  factions_names s' = factions_names s /\
  exists index,
    disk s' !! index_path = Some index /\
    forall faction, faction ∈ index.*1 <-> faction ∈ factions_names s.
Proof.
  unfold fetch_indexes, try_except. intros Hrun Hinit Hfail.
  destruct (fetch_indexes_try w s) as [[v|[]] s1] eqn:E.
  2:{ pose proof (close_handlers_return_1 w s1 0 s' (or_intror Hrun)).
      discriminate. }
  2:{ pose proof (close_handlers_return_1 w s1 0 s' (or_introl Hrun)).
      discriminate. }
  injection Hrun as -> ->. unfold fetch_indexes_try in E.
  apply bind_Ret_inv in E as ([] & sa' & Ha & E).
  rewrite Hinit in Ha. injection Ha as <-.
  apply bind_Ret_inv in E as (? & sb & Hb & E).
  apply bind_Ret_inv in E as ([] & sc & Hc & E).
  apply bind_Ret_inv in E as ([] & sd & Hd & E).
  apply bind_Ret_inv in E as (? & se & He & E).
  injection E as <-.
  pose proof (init_session_same_index w 2560 1440 true s) as (Na & _).
  rewrite Hinit in Na. simpl in Na.
  destruct (fetch_factions_names_spec w sa) as (Nb & _). specialize (Nb Hfail).
  rewrite Hb in Nb. simpl in Nb.
  apply build_index_spec in Hc as (Dc & Nc & NDc & Kc).
  apply save_index_spec in Hd as (Dd & Hhd & Fd & Nd).
  pose proof (close_session_same_index w sd) as (Ne & Fe & Hhe & De).
  rewrite He in *. simpl in *.
  split; [congruence|].
  exists (resolve (heap sc) (factions_dict sc)).
  split; [rewrite De, Dd; apply lookup_insert_eq|].
  intros faction. rewrite resolve_keys, Kc, Nb, Na. reflexivity.
Qed.

Lemma fetch_indexes_stale_names_witness :
  let w := failing_world 10 false PyException in
  let run := fetch_indexes w (init_state stale_disk) in
  factions_names run.2 = [] /\
  exists index,
    disk run.2 !! index_path = Some index /\
    forall faction, faction ∈ index.*1 <-> faction ∈ [].
Proof.
  intros w run.
  apply (fetch_indexes_stale_names w (init_state stale_disk) run.2
           (init_session w 2560 1440 true (init_state stale_disk)).2).
  - vm_compute. reflexivity.
  - vm_compute. reflexivity.
  - vm_compute. discriminate.
Defined.

(** ** The dictionary files that an operation may save *)

#[export] Instance only_file_preorder path : PreOrder (only_file path).
Proof.
  split; [intros s p _; reflexivity|].
  intros s1 s2 s3 H1 H2 p Hp. rewrite (H2 p Hp). apply H1, Hp.
Qed.

#[export] Instance only_file_frame path :
  Frame (only_file path) (fun _ => True).
Proof. split; try apply _; intros; intros p _; reflexivity. Qed.

Lemma same_disk_only_file {A} path (m : M A) :
  stable same_disk m -> stable (only_file path) m.
Proof. intros H s p _. rewrite (H s). reflexivity. Qed.

Lemma quiet_same_disk {A} (m : M A) : stable quiet m -> stable same_disk m.
Proof. intros H s. apply H. Qed.

Lemma save_dict_to_json_only_file w d path :
  stable (only_file path) (save_dict_to_json w d path).
Proof.
  intros s p Hp.
  unfold save_dict_to_json, external_unit, external, modify, bind.
  destruct (raises w (ticks s)); simpl; [reflexivity|].
  apply lookup_insert_ne. congruence.
Qed.

Lemma init_dictionary_with_keys_from_same_disk keys :
  forall d, stable same_disk (init_dictionary_with_keys_from keys d).
Proof.
  induction keys as [|k keys IH]; intros d; simpl.
  - apply (stable_ret same_disk (fun _ => True)).
  - apply (stable_bind same_disk (fun _ => True));
      [apply alloc_same_disk|intros l; apply IH].
Qed.

Lemma build_index_same_disk w : stable same_disk (build_index w).
Proof.
  unfold build_index, init_dictionary_with_keys.
  repeat first
    [ apply init_dictionary_with_keys_from_same_disk
    | apply (stable_for_each same_disk (fun _ => True));
        intros; apply fetch_units_names_from_faction_same_disk
    | apply same_disk_modify; intros; reflexivity
    | stable_step same_disk (fun _ : event => True) ].
Qed.

Lemma close_handlers_same_disk w :
  stable same_disk (close_on_interrupt w) /\
  stable same_disk (close_on_exception w).
Proof. split; solve_stable same_disk (fun _ : event => True). Qed.

#[export] Instance saves_only_preorder paths : PreOrder (saves_only paths).
Proof.
  split.
  - intros s. exists []. rewrite app_nil_r. split; [reflexivity|constructor].
  - intros s1 s2 s3 (t1 & Ht1 & Hk1) (t2 & Ht2 & Hk2).
    exists (t1 ++ t2). rewrite Ht2, Ht1, app_assoc.
    split; [reflexivity|apply Forall_app; auto].
Qed.

#[export] Instance saves_only_frame paths :
  Frame (saves_only paths) (saves_at paths).
Proof.
  assert (Hrefl : forall s s', trace s' = trace s -> saves_only paths s s').
  { intros s s' Ht. exists []. rewrite app_nil_r. split; [exact Ht|constructor]. }
  split; [apply _| | | |]; try (intros; apply Hrefl; reflexivity).
  intros s e He. exists [e]. split; [reflexivity|repeat constructor; exact He].
Qed.

Lemma saves_only_silent {A} paths (m : M A) :
  (forall s, trace (m s).2 = trace s) -> stable (saves_only paths) m.
Proof.
  intros H s. exists []. rewrite app_nil_r. split; [apply H|constructor].
Qed.

Lemma init_dictionary_with_keys_from_trace keys :
  forall d s, trace (init_dictionary_with_keys_from keys d s).2 = trace s.
Proof.
  induction keys as [|k keys IH]; intros d s; simpl; [reflexivity|].
  unfold bind, alloc. rewrite IH. reflexivity.
Qed.

Lemma save_dict_to_json_saves w d path paths :
  path ∈ paths -> stable (saves_only paths) (save_dict_to_json w d path).
Proof.
  intros Hin s.
  unfold save_dict_to_json, external_unit, external, modify, bind.
  destruct (raises w (ticks s)); simpl;
    eexists [_]; (split; [reflexivity|]); repeat constructor; exact Hin.
Qed.

Ltac saves_step paths :=
  first
    [ stable_step (saves_only paths) (saves_at paths)
    | apply saves_only_silent; intros; reflexivity
    | apply saves_only_silent; intros;
        apply init_dictionary_with_keys_from_trace
    | apply (stable_for_each (saves_only paths) (saves_at paths)); intros
    | progress autounfold with scraper ].

Lemma fetch_indexes_saves w : stable (saves_only [index_path]) (fetch_indexes w).
Proof.
  unfold fetch_indexes, fetch_indexes_try, save_index, build_index,
    init_dictionary_with_keys.
  repeat first
    [ apply save_dict_to_json_saves; left
    | saves_step [index_path] ].
Qed.

Lemma fetch_indexes_only_index w : stable (only_file index_path) (fetch_indexes w).
Proof.
  unfold fetch_indexes, fetch_indexes_try, save_index.
  apply (stable_try_except _ (fun _ => True));
    [|apply same_disk_only_file, close_handlers_same_disk..].
  apply (stable_bind _ (fun _ => True));
    [apply same_disk_only_file, quiet_same_disk, init_session_quiet|intros _].
  apply (stable_bind _ (fun _ => True));
    [apply same_disk_only_file, fetch_factions_names_same_disk|intros _].
  apply (stable_bind _ (fun _ => True));
    [apply same_disk_only_file, build_index_same_disk|intros _].
  apply (stable_bind _ (fun _ => True)).
  - apply (stable_bind _ (fun _ => True));
      [apply (stable_gets _ (fun _ => True))|intros d].
    apply save_dict_to_json_only_file.
  - intros _. apply (stable_bind _ (fun _ => True));
      [apply same_disk_only_file, quiet_same_disk, close_session_quiet|].
    intros _. apply (stable_ret _ (fun _ => True)).
Qed.

(** X13. Of the dictionary files, [fetch_indexes] saves the index and no
    other: in every run, however it ends, every call of
    [Utils.save_dict_to_json] is for the file [index], and a resume
    snapshot [temp] left by an earlier run is still what it was after the
    index is built again. *)
Theorem fetch_indexes_saves_index_only w s :
  (exists t, trace (fetch_indexes w s).2 = trace s ++ t /\
             Forall (saves_at [index_path]) t) /\
  disk (fetch_indexes w s).2 !! temp_path = disk s !! temp_path.
Proof.
  split; [apply (fetch_indexes_saves w s)|].
  apply (fetch_indexes_only_index w s). discriminate.
Qed.

Lemma fetch_all_cards_logic_same_disk w d :
  stable same_disk (fetch_all_cards_logic w d).
Proof.
  unfold fetch_all_cards_logic, guarded.
  repeat first
    [ apply (stable_for_each same_disk (fun _ => True));
        intros; apply fetch_all_cards_from_faction_logic_same_disk
    | stable_step same_disk (fun _ : event => True) ].
Qed.

Lemma fetch_all_cards_only_temp w stored :
  stable (only_file temp_path) (fetch_all_cards w stored).
Proof.
  unfold fetch_all_cards.
  apply (stable_bind _ (fun _ => True));
    [apply same_disk_only_file, load_dictionary_if_exists_same_disk|].
  intros [d|]; [|apply same_disk_only_file;
                  solve_stable same_disk (fun _ : event => True)].
  unfold fetch_all_cards_of, fetch_all_cards_try.
  apply (stable_try_except _ (fun _ => True)).
  - apply same_disk_only_file.
    apply (stable_bind _ (fun _ => True));
      [apply quiet_same_disk, init_session_quiet|intros _].
    apply (stable_bind _ (fun _ => True));
      [apply fetch_all_cards_logic_same_disk|intros _].
    apply (stable_bind _ (fun _ => True));
      [apply quiet_same_disk, close_session_quiet|intros _].
    apply (stable_bind _ (fun _ => True));
      [apply (stable_checkpoint _ (fun _ => True))|intros _].
    apply (stable_ret _ (fun _ => True)).
  - repeat first
      [ apply save_dict_to_json_only_file
      | apply same_disk_only_file, quiet_same_disk, close_session_quiet
      | stable_step (only_file temp_path) (fun _ : event => True)
      | progress unfold print ].
  - repeat first
      [ apply save_dict_to_json_only_file
      | apply same_disk_only_file, quiet_same_disk, close_session_quiet
      | stable_step (only_file temp_path) (fun _ : event => True)
      | progress unfold print ].
Qed.

Lemma load_dictionary_if_exists_trace w stored dir s :
  exists e, trace (load_dictionary_if_exists w stored dir s).2
            = trace s ++ [e] /\ forall paths, saves_at paths e.
Proof.
  unfold load_dictionary_if_exists, external_unit, external, bind, gets. simpl.
  destruct (raises w (ticks s)); simpl; [eexists; split; [reflexivity|exact (fun _ => I)]|].
  destruct (stored (disk s) dir) as [items|]; simpl;
    [|eexists; split; [reflexivity|exact (fun _ => I)]].
  set (s1 := set_trace _ _).
  destruct (alloc_dict_spec (json_object items) s1)
    as (d & s2 & Hr & _ & _ & _ & _ & _ & Hs).
  rewrite Hr. simpl. rewrite Hs. simpl.
  eexists; split; [reflexivity|exact (fun _ => I)].
Qed.

Lemma load_dictionary_if_exists_saves w stored dir paths :
  stable (saves_only paths) (load_dictionary_if_exists w stored dir).
Proof.
  intros s. destruct (load_dictionary_if_exists_trace w stored dir s)
    as (e & He & Hs).
  exists [e]. split; [exact He|repeat constructor; apply Hs].
Qed.

Lemma consume_units_saves w d faction paths q :
  stable (saves_only paths) (consume_units w d faction q).
Proof.
  induction q as [|unit q IH]; simpl;
    [apply (stable_ret _ (saves_at paths))|].
  unfold fetch_card_from_unit, subscript, deref, store.
  repeat first [ exact IH | saves_step paths ].
Qed.

Lemma fetch_all_cards_try_saves w d paths :
  stable (saves_only paths) (fetch_all_cards_try w d).
Proof.
  unfold fetch_all_cards_try, fetch_all_cards_logic,
    fetch_all_cards_from_faction_logic,
    fetch_all_cards_from_faction_logic_steps, subscript, deref.
  repeat first [ apply consume_units_saves | saves_step paths ].
Qed.

Lemma fetch_all_cards_saves w stored :
  stable (saves_only [temp_path]) (fetch_all_cards w stored).
Proof.
  unfold fetch_all_cards, fetch_all_cards_of.
  repeat first
    [ apply load_dictionary_if_exists_saves
    | apply fetch_all_cards_try_saves
    | apply save_dict_to_json_saves; left
    | saves_step [temp_path] ].
Qed.

(** X14. Of the dictionary files, [fetch_all_cards] saves the snapshot
    and no other: in every run every call of [Utils.save_dict_to_json] is
    for the file [temp], and the file [index] is what it was; and a run
    that returns [0] has made no such call, so that the cards that it
    captured are recorded in no dictionary file. *)
Theorem fetch_all_cards_keeps_index w stored s :
  (exists t, trace (fetch_all_cards w stored s).2 = trace s ++ t /\
             Forall (saves_at [temp_path]) t /\
             ((fetch_all_cards w stored s).1 = Ret 0 ->
              Forall (saves_at []) t)) /\
  disk (fetch_all_cards w stored s).2 !! index_path = disk s !! index_path.
Proof.
  split; [|apply (fetch_all_cards_only_temp w stored s); discriminate].
  destruct (fetch_all_cards_saves w stored s) as (t & Ht & Hs).
  exists t. split; [exact Ht|]. split; [exact Hs|].
  intros Hr.
  destruct (load_dictionary_if_exists_saves w stored source_dir [] s)
    as (t0 & Ht0 & Hs0).
  destruct (load_dictionary_if_exists w stored source_dir s)
    as [[[d|]|e] s0] eqn:El; simpl in Ht0.
  2,3: unfold fetch_all_cards, bind in Hr; rewrite El in Hr;
       discriminate Hr.
  rewrite (fetch_all_cards_loaded _ _ _ _ _ El) in Ht, Hr.
  pose proof (loaded_separate _ _ _ _ _ _ El) as Hsep.
  destruct (fetch_all_cards_of w d s0) as [r s'] eqn:E.
  destruct (fetch_all_cards_of_spec _ _ _ _ _ Hsep E)
    as (dones & shots & _ & Hof).
  simpl in Ht, Hr. subst r.
  destruct (fetch_all_cards_try_saves w d [] s0) as (t1 & Ht1 & Hs1).
  revert E. unfold fetch_all_cards_of, try_except.
  destruct (fetch_all_cards_try w d s0) as [[v|e] s1];
    simpl in Hof, Ht1; [|destruct Hof; discriminate].
  intros [= _ <-].
  rewrite Ht1, Ht0, <- app_assoc in Ht. apply app_inv_head in Ht. subst t.
  apply Forall_app. auto.
Qed.

Lemma fetch_all_cards_keeps_index_witness :
  let run := fetch_all_cards (failing_world 11 true PyException)
               persisted_index (init_state indexed_disk) in
  exists t, trace run.2 = trace (init_state indexed_disk) ++ t /\
            Forall (saves_at []) t.
Proof.
  intros run.
  destruct (proj1 (fetch_all_cards_keeps_index
                     (failing_world 11 true PyException) persisted_index
                     (init_state indexed_disk))) as (t & Ht & _ & H0).
  exists t. split; [exact Ht|]. apply H0. vm_compute. reflexivity.
Defined.

(** ** A run in which nothing fails *)

Lemma fetch_card_from_unit_undisturbed w faction unit s :
  (forall n, raises w n = None) -> driver s = Some tt ->
  (fetch_card_from_unit w faction unit s).1 = Ret tt /\
  driver (fetch_card_from_unit w faction unit s).2 = Some tt.
Proof.
  intros Hno Hd.
  unfold fetch_card_from_unit, on_driver, external_unit, external, gets, bind.
  repeat first [rewrite Hd | rewrite Hno | progress simpl].
  auto.
Qed.

Lemma consume_units_undisturbed w d faction l :
  (forall n, raises w n = None) -> assoc_get d faction = Some l ->
  forall q s,
    driver s = Some tt -> read_list (heap s) l = q ->
    (consume_units w d faction q s).1 = Ret tt /\
    driver (consume_units w d faction q s).2 = Some tt.
Proof.
  intros Hno Hl q. induction q as [|unit q IH]; intros s Hd Hq; [auto|].
  destruct (fetch_card_from_unit_undisturbed w faction unit s Hno Hd)
    as [Hr Hd1].
  pose proof (fetch_card_from_unit_captures w faction unit s) as (Hh & _).
  destruct (fetch_card_from_unit w faction unit s) as [r s1] eqn:E.
  simpl in Hr, Hd1, Hh. subst r.
  assert (Hc : checkpoint w s1 = (Ret tt, s1))
    by (apply checkpoint_passes; rewrite Hno; discriminate).
  rewrite (consume_units_step _ _ _ _ _ _ _ _ Hl Hq E Hh Hc).
  apply IH; [exact Hd1|apply read_list_insert].
Qed.

Lemma fetch_all_cards_from_faction_logic_undisturbed w d faction l s :
  (forall n, raises w n = None) -> assoc_get d faction = Some l ->
  driver s = Some tt ->
  (fetch_all_cards_from_faction_logic w d faction s).1 = Ret 0 /\
  driver (fetch_all_cards_from_faction_logic w d faction s).2 = Some tt.
Proof.
  intros Hno Hl Hd.
  rewrite (fetch_all_cards_from_faction_logic_unfold _ _ _ _ _ Hl). simpl.
  set (s0 := printed _ s).
  destruct (consume_units_undisturbed w d faction l Hno Hl
              (read_list (heap s) l) s0 Hd eq_refl) as [Hr Hd1].
  destruct (consume_units w d faction _ s0) as [r s1]. simpl in *. subst r.
  auto.
Qed.

Lemma for_each_factions_complete w d entries :
  (forall n, raises w n = None) ->
  linked d entries -> NoDup (entries.*2) ->
  forall s,
    driver s = Some tt ->
    let run := for_each (entries.*1) (fetch_all_cards_from_faction_logic w d) s in
    run.1 = Ret tt /\ driver run.2 = Some tt /\
    progress entries ((fun kl => read_list (heap s) kl.2) <$> entries)
             ((fun kl => read_list (heap s) kl.2) <$> entries) s run.2.
Proof.
  intros Hno.
  induction entries as [|[k l] entries IH]; intros Hlink Hnd s Hd; simpl.
  - split; [reflexivity|]. split; [exact Hd|]. apply (progress_refl []).
  - apply Forall_cons in Hlink as [Hl Hlink]. simpl in Hl, Hnd.
    apply NoDup_cons in Hnd as [Hfresh Hnd].
    destruct (fetch_all_cards_from_faction_logic_spec w d k l s Hl)
      as (done & rest & shot & Hcons & Hres).
    destruct (fetch_all_cards_from_faction_logic_undisturbed w d k l s Hno Hl Hd)
      as [Hr Hd1].
    unfold bind.
    destruct (fetch_all_cards_from_faction_logic w d k s) as [r s1].
    simpl in Hcons, Hres, Hr, Hd1. subst r.
    destruct Hres as [-> [[_ ->]|[? _]]]; [|discriminate].
    destruct (IH Hlink Hnd s1 Hd1) as (Hr2 & Hd2 & Hp).
    split; [exact Hr2|]. split; [exact Hd2|].
    assert (Hdone : read_list (heap s) l = done).
    { destruct Hcons as (H1 & _). rewrite H1, app_nil_r. reflexivity. }
    assert (Hsame : (fun kl : string * loc => read_list (heap s) kl.2) <$> entries
                    = (fun kl => read_list (heap s1) kl.2) <$> entries).
    { apply list_fmap_ext. intros i [k' l'] Hi. simpl. unfold read_list.
      destruct Hcons as (_ & _ & H3 & _). rewrite H3; [reflexivity|].
      intros ->. apply Hfresh. apply list_elem_of_fmap. exists (k', l).
      split; [reflexivity|]. eapply list_elem_of_lookup_2, Hi. }
    change (progress ((k, l) :: entries)
              (read_list (heap s) l
               :: ((fun kl : string * loc => read_list (heap s) kl.2) <$> entries))
              (read_list (heap s) l
               :: ((fun kl : string * loc => read_list (heap s) kl.2) <$> entries))
              s (for_each (entries.*1)
                   (fetch_all_cards_from_faction_logic w d) s1).2).
    rewrite Hdone, Hsame. eapply progress_cons; eassumption.
Qed.

Ltac undisturbed Hno Hd :=
  run_methods;
  repeat first
    [ rewrite Hd | rewrite Hno
    | match goal with
      | |- context [exists_answer ?w0 ?n] => destruct (exists_answer w0 n)
      | |- context [check_for_cookies ?s0] => destruct (check_for_cookies s0)
      end
    | progress simpl ];
  auto.

Lemma ensure_dirs_exist_undisturbed w s :
  (forall n, raises w n = None) -> (ensure_dirs_exist w s).1 = Ret 0.
Proof. intros Hno. undisturbed Hno Hno. Qed.

Lemma install_ublock_undisturbed w s :
  (forall n, raises w n = None) -> driver s = Some tt ->
  (install_ublock w s).1 = Ret 0.
Proof. intros Hno Hd. undisturbed Hno Hd. Qed.

Lemma remove_cookies_undisturbed w s :
  (forall n, raises w n = None) -> driver s = Some tt ->
  (remove_cookies w s).1 = Ret 0 /\ driver (remove_cookies w s).2 = Some tt.
Proof. intros Hno Hd. undisturbed Hno Hd. Qed.

Lemma init_session_undisturbed w width height headless s :
  (forall n, raises w n = None) ->
  (init_session w width height headless s).1 = Ret tt /\
  driver (init_session w width height headless s).2 = Some tt.
Proof.
  intros Hno.
  destruct (init_session w width height headless s) as [r s'] eqn:E.
  simpl. revert E.
  unfold init_session. unfold bind at 1, external_unit, external.
  rewrite Hno. unfold bind at 1, modify at 1.
  set (s1 := set_driver _ _).
  assert (H1 : driver s1 = Some tt) by reflexivity.
  clearbody s1. unfold bind at 1.
  pose proof (ensure_dirs_exist_undisturbed w s1 Hno) as R2.
  pose proof (ensure_dirs_exist_self w s1) as [D2 _].
  destruct (ensure_dirs_exist w s1) as [r2 s2]. simpl in R2, D2. subst r2.
  unfold bind at 1.
  assert (H2 : driver s2 = Some tt) by congruence.
  pose proof (install_ublock_undisturbed w s2 Hno H2) as R3.
  pose proof (install_ublock_self w s2) as [D3 _].
  destruct (install_ublock w s2) as [r3 s3]. simpl in R3, D3. subst r3.
  unfold bind at 1.
  assert (H3 : driver s3 = Some tt) by congruence.
  pose proof (remove_cookies_undisturbed w s3 Hno H3) as [R4 D4].
  destruct (remove_cookies w s3) as [r4 s4]. simpl in R4, D4. subst r4.
  intros [= <- <-]. auto.
Qed.

Lemma resolve_values h (d : pydict) :
  (resolve h d).*2 = (fun kl => read_list h kl.2) <$> d.
Proof.
  induction d as [|[k l] d IH]; [reflexivity|].
  unfold resolve in *. simpl. f_equal. exact IH.
Qed.

(** X15. In a world where no call raises, [fetch_all_cards] returns [0]
    and has captured every unit of every faction of the stored
    dictionary, faction by faction and unit by unit in the order of the
    dictionary. *)
Theorem fetch_all_cards_complete w stored s items :
  (forall n, raises w n = None) ->
  stored (disk s) source_dir = Some items ->
  (fetch_all_cards w stored s).1 = Ret 0 /\
  exists t,
    trace (fetch_all_cards w stored s).2 = trace s ++ t /\
    captured t = cards_of ((json_object items).*1) ((json_object items).*2).
Proof.
  intros Hno Hst.
  destruct (load_dictionary_if_exists w stored source_dir s) as [rl s0] eqn:El.
  pose proof El as Hspec. apply load_dictionary_if_exists_spec in Hspec.
  destruct Hspec as (_ & _ & (t0 & Ht0 & Hc0) & Hrl).
  destruct rl as [[d|]|e].
  2:{ destruct Hrl as (_ & Hnone & _). congruence. }
  2:{ destruct Hrl as (He & _). rewrite Hno in He. discriminate. }
  destruct Hrl as (items' & _ & Hst' & Hk & Hl & Hres).
  assert (items' = items) as -> by congruence.
  rewrite (fetch_all_cards_loaded _ _ _ _ _ El).
  destruct (fetch_all_cards_of w d s0) as [r s'] eqn:E. simpl. revert E.
  unfold fetch_all_cards_of, try_except, fetch_all_cards_try.
  unfold bind at 1.
  destruct (init_session_undisturbed w 2560 1440 true s0 Hno) as [Hr1 Hd1].
  pose proof (init_session_quiet w 2560 1440 true s0) as Q1.
  destruct (init_session w 2560 1440 true s0) as [r1 s1].
  simpl in Hr1, Hd1, Q1. subst r1.
  unfold bind at 1. unfold fetch_all_cards_logic. rewrite guarded_run.
  change (map fst d) with (d.*1).
  destruct (for_each_factions_complete w d d Hno (linked_self d Hk) Hl s1 Hd1)
    as (Hr2 & _ & Hp).
  destruct (for_each (d.*1) _ s1) as [r2 s2]. simpl in Hr2, Hp. subst r2.
  unfold guarded_result, fst, snd. unfold bind at 1.
  pose proof (close_session_quiet w s2) as Q3.
  assert (Hcalm : forall n, raises w n <> Some KeyboardInterrupt)
    by (intros n; rewrite Hno; discriminate).
  pose proof (close_session_calm w Hcalm s2) as C3.
  pose proof (loading_guarded_guards "Closing session..." "Session closed."
                "Failed to close session." (close_session_steps w) s2) as G3.
  fold (close_session w) in G3.
  destruct (close_session w s2) as [[v3|[]] s3]; simpl in Q3, C3, G3;
    [|congruence|congruence].
  unfold bind at 1.
  rewrite (checkpoint_passes w s3) by (rewrite Hno; discriminate).
  unfold ret. intros [= <- <-].
  split; [reflexivity|].
  destruct (progress_quiet_r _ _ _ _ _ _
              (progress_quiet_l _ _ _ _ _ _ Q1 Hp) Q3)
    as (_ & _ & _ & _ & t & Ht & Hc).
  exists (t0 ++ t). split; [rewrite Ht, Ht0, app_assoc; reflexivity|].
  rewrite captured_app, Hc0, Hc, <- Hres, resolve_keys, resolve_values.
  destruct Q1 as (-> & _). reflexivity.
Qed.

Lemma fetch_all_cards_complete_witness :
  let run := fetch_all_cards calm_world persisted_index
               (init_state indexed_disk) in
  run.1 = Ret 0 /\
  exists t,
    trace run.2 = trace (init_state indexed_disk) ++ t /\
    captured t = cards_of ((json_object orks_index).*1)
                          ((json_object orks_index).*2).
Proof.
  intros run.
  apply (fetch_all_cards_complete calm_world persisted_index
           (init_state indexed_disk) orks_index).
  - intros n. reflexivity.
  - reflexivity.
Defined.

(** ** One faction *)

#[export] Instance session_open_preorder : PreOrder session_open.
Proof.
  split.
  - intros s. exists []. rewrite app_nil_r. split; [reflexivity|constructor].
  - intros s1 s2 s3 (t1 & Ht1 & Hk1) (t2 & Ht2 & Hk2).
    exists (t1 ++ t2). rewrite Ht2, Ht1, app_assoc.
    split; [reflexivity|apply Forall_app; auto].
Qed.

#[export] Instance session_open_frame : Frame session_open keeps_session.
Proof.
  assert (Hrefl : forall s s', trace s' = trace s -> session_open s s').
  { intros s s' Ht. exists []. rewrite app_nil_r. split; [exact Ht|constructor]. }
  split; [apply _| | | |]; try (intros; apply Hrefl; reflexivity).
  intros s e He. exists [e]. split; [reflexivity|repeat constructor; exact He].
Qed.

Lemma init_session_started w width height headless s :
  (init_session w width height headless s).1 = Ret tt ->
  exists args t,
    trace (init_session w width height headless s).2
    = trace s ++ Done (NewBrowser args) :: t /\ Forall keeps_session t.
Proof.
  destruct (init_session w width height headless s) as [r s'] eqn:E.
  simpl. intros ->. revert E.
  unfold init_session. unfold bind at 1, external_unit at 1, external.
  destruct (raises w (ticks s)) as [e|]; [discriminate|].
  set (s1 := set_trace _ _).
  set (rest := bind (modify (set_driver (Some tt))) _).
  assert (Hst : stable session_open rest).
  { subst rest. solve_stable session_open keeps_session. }
  intros E. specialize (Hst s1). rewrite E in Hst.
  destruct Hst as (t & Ht & Hk).
  eexists _, t. split; [|exact Hk].
  simpl in Ht. rewrite Ht. subst s1. simpl. rewrite <- app_assoc. reflexivity.
Qed.

Lemma load_dictionary_if_exists_self w stored dir s :
  raises w (ticks s) = None ->
  driver (load_dictionary_if_exists w stored dir s).2 = driver s /\
  trace (load_dictionary_if_exists w stored dir s).2
  = trace s ++ [Done (LoadJson dir)].
Proof.
  intros Hno.
  unfold load_dictionary_if_exists, external_unit, external, bind, gets. simpl.
  rewrite Hno. simpl.
  destruct (stored (disk s) dir) as [items|]; simpl; [|auto].
  set (s1 := set_trace _ _).
  destruct (alloc_dict_spec (json_object items) s1)
    as (d & s2 & Hr & _ & _ & _ & _ & _ & Hs).
  rewrite Hr. simpl. rewrite Hs. simpl. auto.
Qed.

Lemma assoc_get_resolve h (d : pydict) k :
  assoc_get (resolve h d) k = read_list h <$> assoc_get d k.
Proof.
  induction d as [|[k' l] d IH]; [reflexivity|].
  unfold resolve in *. simpl.
  destruct (decide (k' = k)); [reflexivity|exact IH].
Qed.

(** X16. [fetch_all_cards_from_faction] leaves the browser open when it
    has nothing to fetch: once [init_session] has returned and the
    dictionary is read, a missing dictionary or a faction that is not one
    of its keys makes it return [1] without [driver.quit()]: the browser
    was started and, among the events after that, none is a call of
    [driver.quit()]. *)
Theorem fetch_all_cards_from_faction_leaves_session w stored faction s :
  (init_session w 2560 1440 true s).1 = Ret tt ->
  raises w (ticks (init_session w 2560 1440 true s).2) = None ->
  match stored (disk s) source_dir with
  | None => True
  | Some items => faction ∉ (json_object items).*1
  end ->
  (fetch_all_cards_from_faction w stored faction s).1 = Ret 1 /\
  exists args t,
    trace (fetch_all_cards_from_faction w stored faction s).2
    = trace s ++ Done (NewBrowser args) :: t /\
    Forall keeps_session t.
Proof.
  intros Hi Hr Hst.
  destruct (init_session_started _ _ _ _ _ Hi) as (args & t1 & Ht1 & Hk1).
  pose proof (init_session_quiet w 2560 1440 true s) as (_ & Hdisk & _).
  destruct (fetch_all_cards_from_faction w stored faction s) as [r s'] eqn:E.
  simpl. revert E.
  unfold fetch_all_cards_from_faction, try_except. unfold bind at 1.
  destruct (init_session w 2560 1440 true s) as [r1 s1].
  simpl in Hi, Hr, Ht1, Hdisk. subst r1.
  unfold bind at 1.
  destruct (load_dictionary_if_exists_self w stored source_dir s1 Hr)
    as [_ Ht2].
  destruct (load_dictionary_if_exists w stored source_dir s1) as [rl s2] eqn:El.
  apply load_dictionary_if_exists_spec in El.
  destruct El as (_ & _ & _ & Hrl). simpl in Ht2.
  assert (Hend : forall msg,
            (print msg ;;; ret 1) s2 = (r, s') ->
            r = Ret 1 /\
            exists args t,
              trace s' = trace s ++ Done (NewBrowser args) :: t /\
              Forall keeps_session t).
  { intros msg [= <- <-]. split; [reflexivity|].
    exists args, (t1 ++ [Done (LoadJson source_dir); Print msg]).
    split.
    - simpl. rewrite Ht2, Ht1, <- !app_assoc. reflexivity.
    - apply Forall_app. split; [exact Hk1|repeat constructor]. }
  destruct rl as [[d|]|e].
  - destruct Hrl as (items & _ & Hst' & _ & _ & Hres).
    rewrite Hdisk in Hst'. rewrite Hst' in Hst.
    unfold fetch_faction_of.
    rewrite assoc_get_fresh
      by (rewrite <- (resolve_keys (heap s2)), Hres; exact Hst).
    apply Hend.
  - apply Hend.
  - destruct Hrl as (He & _). congruence.
Qed.

Lemma fetch_all_cards_from_faction_leaves_session_witness :
  (fetch_all_cards_from_faction calm_world persisted_index "tau"
     (init_state indexed_disk)).1 = Ret 1 /\
  exists args t,
    trace (fetch_all_cards_from_faction calm_world persisted_index "tau"
             (init_state indexed_disk)).2
    = trace (init_state indexed_disk) ++ Done (NewBrowser args) :: t /\
    Forall keeps_session t.
Proof.
  apply (fetch_all_cards_from_faction_leaves_session calm_world
           persisted_index "tau" (init_state indexed_disk)).
  - vm_compute. reflexivity.
  - reflexivity.
  - vm_compute. intros H.
    repeat (apply elem_of_cons in H as [H|H]; [discriminate H|]).
    inversion H.
Defined.

(** X17. In a world where no call raises, [fetch_all_cards_from_faction]
    on a faction of the stored dictionary returns [0], and the screenshots
    it takes are those of the units of that faction, in the order of its
    list, and no other. *)
Theorem fetch_all_cards_from_faction_complete w stored faction s items units :
  (forall n, raises w n = None) ->
  stored (disk s) source_dir = Some items ->
  assoc_get (json_object items) faction = Some units ->
  (fetch_all_cards_from_faction w stored faction s).1 = Ret 0 /\
  exists t,
    trace (fetch_all_cards_from_faction w stored faction s).2 = trace s ++ t /\
    captured t = card_file faction <$> units.
Proof.
  intros Hno Hst Hu.
  destruct (fetch_all_cards_from_faction w stored faction s) as [r s'] eqn:E.
  simpl. revert E.
  unfold fetch_all_cards_from_faction, try_except. unfold bind at 1.
  destruct (init_session_undisturbed w 2560 1440 true s Hno) as [Hr1 Hd1].
  pose proof (init_session_quiet w 2560 1440 true s) as Q1.
  destruct (init_session w 2560 1440 true s) as [r1 s1].
  simpl in Hr1, Hd1, Q1. subst r1.
  unfold bind at 1.
  destruct (load_dictionary_if_exists_self w stored source_dir s1 (Hno _))
    as [Hd2 _].
  destruct (load_dictionary_if_exists w stored source_dir s1) as [rl s2] eqn:El.
  apply load_dictionary_if_exists_spec in El.
  destruct El as (_ & _ & (t0 & Ht0 & Hc0) & Hrl). simpl in Hd2.
  assert (Hst1 : stored (disk s1) source_dir = Some items).
  { destruct Q1 as (_ & -> & _). exact Hst. }
  destruct rl as [[d|]|e].
  2:{ destruct Hrl as (_ & Hnone & _). congruence. }
  2:{ destruct Hrl as (He & _). rewrite Hno in He. discriminate. }
  destruct Hrl as (items' & _ & Hst' & _ & _ & Hres).
  assert (items' = items) as -> by congruence.
  rewrite <- Hres, assoc_get_resolve in Hu.
  unfold fetch_faction_of.
  destruct (assoc_get d faction) as [l|]; [|discriminate].
  injection Hu as Hu.
  assert (Hl : assoc_get [(faction, l)] faction = Some l).
  { simpl. rewrite decide_True by reflexivity. reflexivity. }
  assert (Hd2' : driver s2 = Some tt) by congruence.
  destruct (fetch_all_cards_from_faction_logic_spec w [(faction, l)] faction l
              s2 Hl) as (done & rest & shot & Hcons & Hres2).
  destruct (fetch_all_cards_from_faction_logic_undisturbed w [(faction, l)]
              faction l s2 Hno Hl Hd2') as [Hr3 _].
  unfold bind at 1.
  destruct (fetch_all_cards_from_faction_logic w [(faction, l)] faction s2)
    as [r3 s3].
  simpl in Hcons, Hres2, Hr3. subst r3.
  destruct Hres2 as [-> [[_ ->]|[? _]]]; [|discriminate].
  destruct Hcons as (Hq & _ & _ & _ & _ & t & Ht & Hc & _).
  rewrite app_nil_r in Hq.
  unfold bind at 1.
  pose proof (close_session_quiet w s3) as Q3.
  assert (Hcalm : forall n, raises w n <> Some KeyboardInterrupt)
    by (intros n; rewrite Hno; discriminate).
  pose proof (close_session_calm w Hcalm s3) as C3.
  pose proof (loading_guarded_guards "Closing session..." "Session closed."
                "Failed to close session." (close_session_steps w) s3) as G3.
  fold (close_session w) in G3.
  destruct (close_session w s3) as [[v3|[]] s4]; simpl in Q3, C3, G3;
    [|congruence|congruence].
  unfold ret. intros [= <- <-].
  split; [reflexivity|].
  destruct Q1 as (_ & _ & ta & Hta & Hca).
  destruct Q3 as (_ & _ & tb & Htb & Hcb).
  exists (ta ++ t0 ++ t ++ tb). split.
  - rewrite Htb, Ht, Ht0, Hta, <- !app_assoc. reflexivity.
  - rewrite !captured_app, Hca, Hc0, Hc, Hcb, app_nil_r. simpl.
    rewrite <- Hq, Hu. reflexivity.
Qed.

Lemma fetch_all_cards_from_faction_complete_witness :
  (fetch_all_cards_from_faction calm_world persisted_index "orks"
     (init_state indexed_disk)).1 = Ret 0 /\
  exists t,
    trace (fetch_all_cards_from_faction calm_world persisted_index "orks"
             (init_state indexed_disk)).2
    = trace (init_state indexed_disk) ++ t /\
    captured t = card_file "orks" <$> ["boyz"; "nobz"].
Proof.
  apply (fetch_all_cards_from_faction_complete calm_world persisted_index
           "orks" (init_state indexed_disk) orks_index ["boyz"; "nobz"]).
  - intros n. reflexivity.
  - reflexivity.
  - reflexivity.
Defined.

(** ** The session and the extension *)

(** X18. [close_session] leaves [self.driver] as it is.  Without a driver
    it returns [1] and calls nothing; with one it calls [driver.quit()]
    once, and returns [0] when the call returns and [1] when it raises an
    [Exception].  A session that was closed is closed again by the next
    call: [driver.quit()] is called a second time. *)
Theorem close_session_outcome w s :
  let run := close_session w s in
  driver run.2 = driver s /\
  (driver s = None -> run.1 = Ret 1 /\ ticks run.2 = ticks s) /\
  (driver s = Some tt ->
   exists t, trace run.2 = trace s ++ t /\ calls t = [DriverQuit] /\
             ticks run.2 = S (ticks s) /\
             (raises w (ticks s) = None -> run.1 = Ret 0) /\
             (raises w (ticks s) = Some PyException -> run.1 = Ret 1)) /\
  (driver s = Some tt ->
   exists t, trace (close_session w run.2).2 = trace run.2 ++ t /\
             calls t = [DriverQuit]).
Proof.
  assert (Hone : forall s0, driver s0 = Some tt ->
            driver (close_session w s0).2 = Some tt /\
            exists t, trace (close_session w s0).2 = trace s0 ++ t /\
                      calls t = [DriverQuit] /\
                      ticks (close_session w s0).2 = S (ticks s0) /\
                      (raises w (ticks s0) = None ->
                       (close_session w s0).1 = Ret 0) /\
                      (raises w (ticks s0) = Some PyException ->
                       (close_session w s0).1 = Ret 1)).
  { intros s0 Hd. run_methods. rewrite Hd. simpl.
    destruct (raises w (ticks s0)) as [[]|]; simpl;
      (split; [exact Hd|]); eexists; rewrite <- !app_assoc;
      (split; [reflexivity|]); repeat split; congruence. }
  intros run. subst run. split; [|split; [|split]].
  - run_methods. case_calls; congruence.
  - intros Hd. run_methods. rewrite Hd. simpl. auto.
  - intros Hd. apply Hone, Hd.
  - intros Hd. destruct (Hone s Hd) as (Hd1 & _).
    destruct (Hone _ Hd1) as (_ & t & Ht & Hc & _). eauto.
Qed.

Lemma close_session_outcome_witness :
  (close_session calm_world (init_state indexed_disk)).1 = Ret 1 /\
  ticks (close_session calm_world (init_state indexed_disk)).2
  = ticks (init_state indexed_disk).
Proof.
  apply (proj1 (proj2 (close_session_outcome calm_world
                         (init_state indexed_disk)))).
  reflexivity.
Defined.

(** X19. [install_ublock] downloads the extension only when its file is
    missing, and installs it only when the download went through: with the
    file in place the calls are the test of the path and
    [driver.install_addon]; with the file missing and nothing raising, the
    request, the file and its writing come in between; when the request
    raises an [Exception], the method returns [1] and neither the file is
    opened nor the extension installed. *)
Theorem install_ublock_download w s :
  driver s = Some tt -> raises w (ticks s) = None ->
  let run := install_ublock w s in
  exists t,
    trace run.2 = trace s ++ t /\
    (exists_answer w (ticks s) = true ->
     calls t = [PathExists ublock_path; InstallAddon ublock_path] /\
     (raises w (S (ticks s)) = None -> run.1 = Ret 0)) /\
    (exists_answer w (ticks s) = false ->
     raises w (S (ticks s)) = Some PyException ->
     run.1 = Ret 1 /\
     calls t = [PathExists ublock_path; RequestsGet ublock_url]) /\
    (exists_answer w (ticks s) = false ->
     (forall n, raises w n = None) ->
     run.1 = Ret 0 /\
     calls t = [PathExists ublock_path; RequestsGet ublock_url;
                OpenWb ublock_path; FileWrite; InstallAddon ublock_path]).
Proof.
  intros Hd Hr run. subst run. run_methods. rewrite Hr. simpl.
  destruct (exists_answer w (ticks s)); simpl.
  - rewrite Hd. simpl.
    destruct (raises w (S (ticks s))) as [[]|]; simpl;
      eexists; rewrite <- !app_assoc; (split; [reflexivity|]);
      repeat split; congruence.
  - destruct (raises w (S (ticks s))) as [[]|] eqn:H1; simpl.
    + eexists; rewrite <- !app_assoc; (split; [reflexivity|]).
      repeat split; try congruence.
      all: intros _ Hno; rewrite Hno in H1; discriminate.
    + eexists; rewrite <- !app_assoc; (split; [reflexivity|]).
      repeat split; try congruence.
      all: intros _ Hno; rewrite Hno in H1; discriminate.
    + destruct (raises w (S (S (ticks s)))) as [e2|] eqn:H2; simpl.
      { destruct e2; simpl; eexists; rewrite <- !app_assoc;
          (split; [reflexivity|]); (split; [discriminate|]);
          (split; [congruence|]); intros _ Hno; rewrite Hno in H2;
          discriminate. }
      destruct (raises w (S (S (S (ticks s))))) as [e3|] eqn:H3; simpl.
      { destruct e3; simpl; eexists; rewrite <- !app_assoc;
          (split; [reflexivity|]); (split; [discriminate|]);
          (split; [congruence|]); intros _ Hno; rewrite Hno in H3;
          discriminate. }
      simpl. rewrite Hd. simpl.
      destruct (raises w (S (S (S (S (ticks s)))))) as [e4|] eqn:H4; simpl.
      { destruct e4; simpl; eexists; rewrite <- !app_assoc;
          (split; [reflexivity|]); (split; [discriminate|]);
          (split; [congruence|]); intros _ Hno; rewrite Hno in H4;
          discriminate. }
      simpl. eexists; rewrite <- !app_assoc; (split; [reflexivity|]).
      repeat split; congruence.
Qed.

Lemma install_ublock_download_witness :
  exists t,
    trace (install_ublock calm_world orks_session).2
    = trace orks_session ++ t /\
    (exists_answer calm_world (ticks orks_session) = true ->
     calls t = [PathExists ublock_path; InstallAddon ublock_path] /\
     (raises calm_world (S (ticks orks_session)) = None ->
      (install_ublock calm_world orks_session).1 = Ret 0)) /\
    (exists_answer calm_world (ticks orks_session) = false ->
     raises calm_world (S (ticks orks_session)) = Some PyException ->
     (install_ublock calm_world orks_session).1 = Ret 1 /\
     calls t = [PathExists ublock_path; RequestsGet ublock_url]) /\
    (exists_answer calm_world (ticks orks_session) = false ->
     (forall n, raises calm_world n = None) ->
     (install_ublock calm_world orks_session).1 = Ret 0 /\
     calls t = [PathExists ublock_path; RequestsGet ublock_url;
                OpenWb ublock_path; FileWrite; InstallAddon ublock_path]).
Proof.
  apply (install_ublock_download calm_world orks_session).
  - reflexivity.
  - reflexivity.
Defined.

(** ** An index built when nothing fails *)

#[export] Instance counted_preorder : PreOrder counted.
Proof.
  split; [intros s; unfold counted; lia|].
  intros s1 s2 s3; unfold counted; lia.
Qed.

#[export] Instance counted_frame : Frame counted (fun _ => True).
Proof.
  split; [apply _| | | |]; intros; unfold counted; simpl; lia.
Qed.

















